(** * Resilient navigation and candidate resolution of the page objects

    A shallow embedding of [BasePage] (goto, waitForElement,
    isElementVisible, fillInput, clickElement), of [LoginPage.login] and of
    [FormPage.fillFormCreationForm], with the properties the specification
    states about retries, backoff, wait-until escalation, candidate
    resolution and diagnostic capture.

    The browser-automation library is an external collaborator.  It is
    modelled as an arbitrary deterministic machine: a type [W] of browser
    states and a function [perform] that answers every library call with a
    value or a thrown error and a next state.  The page-object methods are
    written in a small monad that threads the browser, keeps the state when
    an error is thrown (as JavaScript does) and records every library call
    and every log line in a trace. *)

From Stdlib Require Import ZArith List String Ascii Bool Lia Sorted.
From Stdlib Require Import DecimalString.
Import ListNotations.

Local Open Scope string_scope.
Local Open Scope Z_scope.

(* ===================================================================== *)
(** ** JavaScript strings and numbers, as far as the code uses them *)
(* ===================================================================== *)

(** Strings are sequences of ASCII characters and numbers are integers:
    the messages, selectors, counts and millisecond values the code handles
    need no more. *)

Module Js.

(** [String.prototype.toLowerCase] on the ASCII range; other characters
    are left as they are (no lower-case mapping of a non-ASCII character
    produces one of the ASCII words the code searches for). *)
Definition lower_ascii (c : ascii) : ascii :=
  let n := nat_of_ascii c in
  if (Nat.leb 65 n && Nat.leb n 90)%bool then ascii_of_nat (n + 32)%nat else c.

Fixpoint toLowerCase (s : string) : string :=
  match s with
  | EmptyString => EmptyString
  | String c s' => String (lower_ascii c) (toLowerCase s')
  end.

(** [s.includes(sub)] *)
Fixpoint includes (s sub : string) : bool :=
  if String.prefix sub s then true
  else match s with
       | EmptyString => false
       | String _ s' => includes s' sub
       end.

(** [s.substring(0, n)] *)
Definition substring0 (n : nat) (s : string) : string := String.substring 0 n s.

(** Template-literal rendering of an integer. *)
Definition num (z : Z) : string := NilZero.string_of_int (Z.to_int z).

(** The values an option of a plain options object can hold. *)
Inductive Value :=
| Undefined
| Null
| Boolean (b : bool)
| Number (z : Z)
| Str (s : string).

(** [v !== false] *)
Definition strict_not_false (v : Value) : bool :=
  match v with
  | Boolean false => false
  | _ => true
  end.

(** [x || d] for an optional number: absent and 0 are falsy. *)
Definition num_or (x : option Z) (d : Z) : Z :=
  match x with
  | Some z => if z =? 0 then d else z
  | None => d
  end.

(** A finite number where the code may be handed one that is not whole:
    a whole number, or a number strictly between [below] and [below + 1]
    that a template literal prints as [text]. *)
Inductive Num :=
| Whole (z : Z)
| Fraction (below : Z) (text : string).

(** [Math.floor(n)] and [Math.ceil(n)] *)
Definition floor (n : Num) : Z :=
  match n with
  | Whole z => z
  | Fraction below _ => below
  end.

Definition ceil (n : Num) : Z :=
  match n with
  | Whole z => z
  | Fraction below _ => below + 1
  end.

(** [a <= n], [a < n] and [a >= n] for a whole number [a]: [a] is at most
    [n] when it is at most its floor, and below [n] when it is below its
    ceiling. *)
Definition le_num (a : Z) (n : Num) : bool := a <=? floor n.

Definition lt_num (a : Z) (n : Num) : bool := a <? ceil n.

Definition ge_num (a : Z) (n : Num) : bool := a >=? ceil n.

(** [Number.isInteger(n)] *)
Definition is_whole (n : Num) : bool :=
  match n with
  | Whole _ => true
  | Fraction _ _ => false
  end.

(** Template-literal rendering of a number. *)
Definition num_text (n : Num) : string :=
  match n with
  | Whole z => num z
  | Fraction _ text => text
  end.

(** [x || d] for an optional number that need not be whole: absent and 0
    are falsy. *)
Definition number_or (x : option Num) (d : Num) : Num :=
  match x with
  | Some (Whole z) => if z =? 0 then d else Whole z
  | Some n => n
  | None => d
  end.

(** [x || d] for an optional string: absent and the empty string are falsy. *)
Definition str_or (x : option string) (d : string) : string :=
  match x with
  | Some EmptyString => d
  | Some s => s
  | None => d
  end.

(** [!x] for an optional boolean. *)
Definition falsy (x : option bool) : bool :=
  match x with
  | Some true => false
  | _ => true
  end.

(** [s] between double quotes. *)
Definition q (s : string) : string :=
  String "034"%char s ++ String "034"%char EmptyString.

(** A thrown [Error] object: its [name] and its [message]. *)
Record Error := mkError { name : string; message : string }.

(** [new Error(msg)] *)
Definition new_Error (msg : string) : Error := mkError "Error" msg.

End Js.

(* ===================================================================== *)
(** ** The browser-automation library *)
(* ===================================================================== *)

(** A locator: [page.locator(sel)], [frame.locator(sel)] for the frame at
    some position of [page.frames()], and [l.first()]. *)
Inductive Locator :=
| page_locator (selector : string)
| frame_locator (frame : nat) (selector : string)
| first (l : Locator).

(** The text a locator contributes to a log line. *)
Fixpoint locator_text (l : Locator) : string :=
  match l with
  | page_locator sel => "locator('" ++ sel ++ "')"
  | frame_locator _ sel => "locator('" ++ sel ++ "')"
  | first l' => locator_text l' ++ ".first()"
  end.

(** The options object built by [goto] and handed to [page.goto]. *)
Record GotoOptions := mkGotoOptions { timeout : Z; waitUntil : string }.

(** The caller's options of [goto], each possibly absent. *)
Record NavOptions := mkNavOptions {
  nav_retries : option Js.Num;
  nav_timeout : option Z;
  nav_waitUntil : option string
}.

(** The caller's options of [fillInput]. *)
Record FillOptions := mkFillOptions {
  fill_validate : Js.Value;
  fill_timeout : option Z
}.

(** The caller's options of [clickElement]; the same object goes to
    [locator.click]. *)
Record ClickOptions := mkClickOptions {
  click_timeout : option Z;
  click_force : option bool
}.

(** The library calls the modelled methods make, indexed by the type of the
    value the call resolves to. *)
Inductive Call : Type -> Type :=
| PageGoto (url : string) (o : GotoOptions) : Call unit
| PageWaitForLoadState (state : string) (timeout : Z) : Call unit
| PageWaitForTimeout (ms : Z) : Call unit
| PageScreenshot (path : string) (fullPage : bool) : Call unit
| PageUrl : Call string
| PageFrames : Call nat
| LocWaitFor (l : Locator) (state : string) (timeout : option Z) : Call unit
| LocIsVisible (l : Locator) (timeout : Z) : Call bool
| LocIsEnabled (l : Locator) : Call bool
| LocCount (l : Locator) : Call Z
| LocGetAttribute (l : Locator) (attr : string) : Call (option string)
| LocEvaluateTypeIsPassword (l : Locator) : Call bool
| LocClear (l : Locator) : Call unit
| LocFill (l : Locator) (text : string) : Call unit
| LocInputValue (l : Locator) : Call string
| LocClick (l : Locator) (o : ClickOptions) : Call unit
| LocPress (l : Locator) (key : string) : Call unit.

(** What an awaited call, or a method, ends with. *)
Inductive Outcome (A : Type) :=
| Ok (a : A)
| Throw (e : Js.Error).
Arguments Ok {A} a.
Arguments Throw {A} e.

Inductive Level := Debug | Info | Warn | Err.

(** What a run leaves behind: the library calls with their outcomes, and
    the log lines, in program order. *)
Inductive Event :=
| EvCall {T : Type} (c : Call T) (r : Outcome T)
| EvLog (lvl : Level) (msg : string).

Definition Trace := list Event.
Bind Scope list_scope with Trace.

(* ===================================================================== *)
(** ** Observations on traces *)
(* ===================================================================== *)

Definition is_goto (ev : Event) : bool :=
  match ev with
  | EvCall (PageGoto _ _) _ => true
  | _ => false
  end.

Definition is_timer (ev : Event) : bool :=
  match ev with
  | EvCall (PageWaitForTimeout _) _ => true
  | _ => false
  end.

Definition is_screenshot (ev : Event) : bool :=
  match ev with
  | EvCall (PageScreenshot _ _) _ => true
  | _ => false
  end.

Definition is_log (ev : Event) : bool :=
  match ev with
  | EvLog _ _ => true
  | _ => false
  end.

(** Number of navigation attempts: the [page.goto] calls of a trace. *)
Definition attempts (tr : Trace) : nat := List.length (filter is_goto tr).

(** The wait-until condition of each [page.goto] call, in order. *)
Fixpoint goto_conditions (tr : Trace) : list string :=
  match tr with
  | [] => []
  | EvCall (PageGoto _ o) _ :: tr' => waitUntil o :: goto_conditions tr'
  | _ :: tr' => goto_conditions tr'
  end.

(** Milliseconds of a [page.waitForTimeout] call, 0 for any other event. *)
Definition timer_ms (ev : Event) : Z :=
  match ev with
  | EvCall (PageWaitForTimeout ms) _ => ms
  | _ => 0
  end.

(** The waits between successive navigation attempts: for each pair of
    consecutive [page.goto] calls, the total of the timer waits in between.
    [started] says whether a [page.goto] has been seen, [acc] is the total
    since the last one. *)
Fixpoint waits_between_from (started : bool) (acc : Z) (tr : Trace) : list Z :=
  match tr with
  | [] => []
  | ev :: tr' =>
      if is_goto ev
      then (if started then [acc] else []) ++ waits_between_from true 0 tr'
      else waits_between_from started (acc + timer_ms ev) tr'
  end.

Definition waits_between (tr : Trace) : list Z := waits_between_from false 0 tr.


(* ===================================================================== *)
(** ** The monad of page-object methods *)
(* ===================================================================== *)

Section PageObjects.

(** The browser: any state type, any deterministic answer to each call. *)
Variable W : Type.
Variable perform : forall T : Type, Call T -> W -> Outcome T * W.

(** The state a method runs in: the browser, and the one page-object field
    the modelled methods reassign ([FormPage]'s [this.formNameInput]). *)
Record Store := mkStore { browser : W; formNameInput : Locator }.

(** A method maps a store to its outcome, the store it leaves (also when
    it throws) and the events it produced. *)
Definition M (A : Type) : Type := Store -> Outcome A * Store * Trace.

Definition ret {A} (a : A) : M A := fun st => (Ok a, st, []).

Definition throw {A} (e : Js.Error) : M A := fun st => (Throw e, st, []).

Definition bind {A B} (m : M A) (k : A -> M B) : M B :=
  fun st =>
    match m st with
    | (Ok a, st1, tr1) =>
        match k a st1 with
        | (r, st2, tr2) => (r, st2, (tr1 ++ tr2)%list)
        end
    | (Throw e, st1, tr1) => (Throw e, st1, tr1)
    end.

(** [try { m } catch (error) { h error }] *)
Definition try_catch {A} (m : M A) (h : Js.Error -> M A) : M A :=
  fun st =>
    match m st with
    | (Ok a, st1, tr1) => (Ok a, st1, tr1)
    | (Throw e, st1, tr1) =>
        match h e st1 with
        | (r, st2, tr2) => (r, st2, (tr1 ++ tr2)%list)
        end
    end.

(** [await] of a library call. *)
Definition call {T} (c : Call T) : M T :=
  fun st =>
    match perform T c (browser st) with
    | (r, w') => (r, mkStore w' (formNameInput st), [EvCall c r])
    end.

(** Modelled from the spec: the logger ([utils/logger]), which is not
    among the sources; logging is an external collaborator there.
    [logger.debug], [logger.info], [logger.warn] and [logger.error] record
    their line and do not throw. *)
Definition log (lvl : Level) (msg : string) : M unit :=
  fun st => (Ok tt, st, [EvLog lvl msg]).

(** [this.formNameInput] and [this.formNameInput = l]. *)
Definition get_formNameInput : M Locator :=
  fun st => (Ok (formNameInput st), st, []).

Definition set_formNameInput (l : Locator) : M unit :=
  fun st => (Ok tt, mkStore (browser st) l, []).

Notation "x <- m ;; k" := (bind m (fun x => k))
  (at level 100, m at next level, right associativity).
Notation "m ;; k" := (bind m (fun _ => k))
  (at level 100, right associativity).

Definition outcome_of {A} (r : Outcome A * Store * Trace) : Outcome A := fst (fst r).
Definition store_of {A} (r : Outcome A * Store * Trace) : Store := snd (fst r).
Definition trace_of {A} (r : Outcome A * Store * Trace) : Trace := snd r.

(* =================================================================== *)
(** ** BasePage *)
(* =================================================================== *)

(** What one pass through the body of a [for] loop asks for: go on with
    the next iteration (carrying the loop's mutable variables), or
    [return] from the method. *)
Inductive Flow (S : Type) :=
| Continue (s : S)
| Return.
Arguments Continue {S} s.
Arguments Return {S}.

(** The test of the [catch] block of [goto]. *)
Definition isNetworkError (error : Js.Error) : bool :=
  let errorMessage := Js.toLowerCase (Js.message error) in
  Js.includes errorMessage "err_http2_protocol_error" ||
  Js.includes errorMessage "net::" ||
  Js.includes errorMessage "navigation timeout" ||
  Js.includes errorMessage "timeout" ||
  Js.includes errorMessage "err_connection" ||
  Js.includes errorMessage "timeout exceeded" ||
  Js.includes errorMessage "page.goto" ||
  String.eqb (Js.name error) "TimeoutError".

(** The wait-until condition chosen at the head of the [try] block. *)
Definition attempt_waitUntil (attempt : Z) : string :=
  let w :=
    if attempt =? 1 then "domcontentloaded"
    else if attempt =? 2 then "load"
    else "networkidle" in
  if attempt >? 3 then "networkidle" else w.

(** [Math.min(attempt * 2000, 10000)] *)
Definition waitTime (attempt : Z) : Z := Z.min (attempt * 2000) 10000.

(** One iteration of the [for] loop of [goto].  The assignments to
    [gotoOptions.waitUntil] open the [try] block and cannot throw, so the
    handler sees them; they are made before the [try] here. *)
Definition goto_attempt (url : string) (maxRetries : Js.Num) (attempt : Z)
    (gotoOptions : GotoOptions) : M (Flow GotoOptions) :=
  let gotoOptions :=
    mkGotoOptions (timeout gotoOptions) (attempt_waitUntil attempt) in
  try_catch
    (call (PageGoto url gotoOptions) ;;
     log Info ("Successfully navigated to: " ++ url) ;;
     try_catch (call (PageWaitForLoadState "domcontentloaded" 10000))
               (fun _ => ret tt) ;;
     ret Return)
    (fun error =>
       let errorMessage := Js.toLowerCase (Js.message error) in
       if isNetworkError error && Js.lt_num attempt maxRetries then
         let waitTime := waitTime attempt in
         log Warn ("Navigation attempt " ++ Js.num attempt ++ " failed: "
                   ++ Js.message error ++ ". Retrying in "
                   ++ Js.num waitTime ++ "ms...") ;;
         gotoOptions <-
           (if Js.includes errorMessage "timeout" then
              let gotoOptions :=
                mkGotoOptions (Z.max 60000 (timeout gotoOptions - 20000))
                              (waitUntil gotoOptions) in
              log Info ("Reduced timeout to " ++ Js.num (timeout gotoOptions)
                        ++ "ms for retry attempt " ++ Js.num (attempt + 1)) ;;
              ret gotoOptions
            else ret gotoOptions) ;;
         (if Js.includes errorMessage "err_http2_protocol_error"
          then call (PageWaitForTimeout 2000)
          else ret tt) ;;
         (if Js.includes (Js.message error) "ERR_CONNECTION_RESET"
          then call (PageWaitForTimeout (waitTime * 2))
          else call (PageWaitForTimeout waitTime)) ;;
         ret (Continue gotoOptions)
       else if Js.ge_num attempt maxRetries then
         log Err ("Failed to navigate to " ++ url ++ " after "
                  ++ Js.num_text maxRetries ++ " attempts: "
                  ++ Js.message error) ;;
         throw error
       else
         throw error).

(** [for (let attempt = 1; attempt <= maxRetries; attempt++)], entered at
    [attempt]; [fuel] bounds the number of iterations and
    [Z.to_nat (Js.floor maxRetries - attempt + 1)] is enough
    ([goto_loop_fuel_enough]).  Falling out of the loop returns. *)
Fixpoint goto_loop (fuel : nat) (url : string) (maxRetries : Js.Num)
    (attempt : Z) (gotoOptions : GotoOptions) : M unit :=
  match fuel with
  | O => ret tt
  | S fuel' =>
      if Js.le_num attempt maxRetries then
        flow <- goto_attempt url maxRetries attempt gotoOptions ;;
        match flow with
        | Return => ret tt
        | Continue gotoOptions' =>
            goto_loop fuel' url maxRetries (attempt + 1) gotoOptions'
        end
      else ret tt
  end.

(** [options.retries || 3] *)
Definition maxRetries_of (options : NavOptions) : Js.Num :=
  Js.number_or (nav_retries options) (Js.Whole 3).

Definition goto (url : string) (options : NavOptions) : M unit :=
  let maxRetries := maxRetries_of options in
  let gotoOptions :=
    mkGotoOptions (Js.num_or (nav_timeout options) 120000)
                  (Js.str_or (nav_waitUntil options) "domcontentloaded") in
  goto_loop (Z.to_nat (Js.floor maxRetries)) url maxRetries 1 gotoOptions.

(** [waitForElement(locator, timeout = 30000)] *)
Definition waitForElement (locator : Locator) (timeout : option Z) : M unit :=
  let timeout := match timeout with Some t => t | None => 30000 end in
  try_catch
    (call (LocWaitFor locator "visible" (Some timeout)) ;;
     log Info ("Element is visible: " ++ locator_text locator))
    (fun error =>
       log Err ("Element not visible within " ++ Js.num timeout ++ "ms: "
                ++ Js.message error) ;;
       throw (Js.new_Error ("Element wait timeout: " ++ Js.message error))).

(** [isElementVisible(locator, timeout = 5000)] *)
Definition isElementVisible (locator : Locator) (timeout : option Z) : M bool :=
  let timeout := match timeout with Some t => t | None => 5000 end in
  try_catch
    (call (LocWaitFor locator "visible" (Some timeout)) ;;
     log Debug ("Element is visible: " ++ locator_text locator) ;;
     ret true)
    (fun error =>
       log Debug ("Element not visible: " ++ Js.message error) ;;
       ret false).

Definition validation_error (text enteredValue : string) : Js.Error :=
  Js.new_Error ("Input validation failed. Expected: " ++ Js.q text
                ++ ", Got: " ++ Js.q enteredValue).

(** [fillInput(locator, text, options = {})] *)
Definition fillInput (locator : Locator) (text : string)
    (options : FillOptions) : M unit :=
  try_catch
    (waitForElement locator (fill_timeout options) ;;
     call (LocClear locator) ;;
     call (LocFill locator text) ;;
     (if Js.strict_not_false (fill_validate options) then
        enteredValue <- call (LocInputValue locator) ;;
        if negb (String.eqb enteredValue text)
        then throw (validation_error text enteredValue)
        else ret tt
      else ret tt) ;;
     log Info ("Successfully filled input with: "
               ++ Js.substring0 50 text
               ++ (if (50 <? String.length text)%nat then "..." else EmptyString)))
    (fun error =>
       log Err ("Failed to fill input: " ++ Js.message error) ;;
       throw error).

(** [fillInput(locator, text)]: [options] takes its default [{}]. *)
Definition default_fill : FillOptions := mkFillOptions Js.Undefined None.

(** [clickElement(locator, options = {})] *)
Definition clickElement (locator : Locator) (options : ClickOptions) : M unit :=
  try_catch
    (waitForElement locator (click_timeout options) ;;
     (if Js.falsy (click_force options) then
        call (LocWaitFor locator "attached" None) ;;
        isEnabled <- call (LocIsEnabled locator) ;;
        if negb isEnabled
        then throw (Js.new_Error "Element is not enabled")
        else ret tt
      else ret tt) ;;
     call (LocClick locator options) ;;
     log Info ("Successfully clicked element: " ++ locator_text locator))
    (fun error =>
       log Err ("Failed to click element: " ++ Js.message error) ;;
       throw error).

Definition default_click : ClickOptions := mkClickOptions None None.

(* =================================================================== *)
(** ** LoginPage *)
(* =================================================================== *)

(** The locators the constructor stores. *)
Definition usernameInput : Locator :=
  first (page_locator ("input[name=" ++ Js.q "username" ++ "], input[name="
     ++ Js.q "email" ++ "], input[type=" ++ Js.q "email" ++ "], input[id*="
     ++ Js.q "username" ++ " i], input[id*=" ++ Js.q "email"
     ++ " i], input[id*=" ++ Js.q "user" ++ " i], input[placeholder*="
     ++ Js.q "username" ++ " i], input[placeholder*=" ++ Js.q "email"
     ++ " i], input[placeholder*=" ++ Js.q "user" ++ " i], input[aria-label*="
     ++ Js.q "username" ++ " i], input[aria-label*=" ++ Js.q "email"
     ++ " i]")).

Definition passwordInput : Locator :=
  first (page_locator ("input[name=" ++ Js.q "password" ++ "], input[type="
     ++ Js.q "password" ++ "], input[id*=" ++ Js.q "password"
     ++ " i], input[id*=" ++ Js.q "pass" ++ " i], input[placeholder*="
     ++ Js.q "password" ++ " i], input[placeholder*=" ++ Js.q "Password"
     ++ " i], input[aria-label*=" ++ Js.q "password"
     ++ " i], input[aria-label*=" ++ Js.q "Password" ++ " i]")).

Definition loginButton : Locator :=
  first (page_locator ("button[type=" ++ Js.q "submit"
     ++ "], button:has-text(" ++ Js.q "Log in" ++ "), button:has-text("
     ++ Js.q "Sign in" ++ "), button:has-text(" ++ Js.q "Login"
     ++ "), button:has-text(" ++ Js.q "log in" ++ "), button:has-text("
     ++ Js.q "Sign In" ++ "), button[id*=" ++ Js.q "login"
     ++ " i], button[id*=" ++ Js.q "signin" ++ " i], button[class*="
     ++ Js.q "login" ++ " i], button[class*=" ++ Js.q "signin"
     ++ " i], input[type=" ++ Js.q "submit" ++ "][value*=" ++ Js.q "Log"
     ++ " i], input[type=" ++ Js.q "submit" ++ "][value*=" ++ Js.q "Sign"
     ++ " i]")).

Definition usernameSelectors : list Locator :=
  [ usernameInput;
    page_locator ("input[type=" ++ Js.q "email" ++ "]");
    page_locator ("input[name*=" ++ Js.q "user" ++ " i]");
    page_locator ("input[name*=" ++ Js.q "email" ++ " i]");
    page_locator ("input[id*=" ++ Js.q "user" ++ " i]");
    page_locator ("input[id*=" ++ Js.q "email" ++ " i]");
    page_locator ("input[placeholder*=" ++ Js.q "user" ++ " i]");
    page_locator ("input[placeholder*=" ++ Js.q "email" ++ " i]") ].

Definition passwordSelectors : list Locator :=
  [ passwordInput;
    page_locator ("input[type=" ++ Js.q "password" ++ "]");
    first (page_locator ("input[type=" ++ Js.q "password" ++ "]"));
    page_locator ("input[name*=" ++ Js.q "pass" ++ " i]");
    page_locator ("input[id*=" ++ Js.q "pass" ++ " i]");
    page_locator ("input[placeholder*=" ++ Js.q "password" ++ " i]");
    page_locator ("input[placeholder*=" ++ Js.q "Password" ++ " i]");
    page_locator ("input[aria-label*=" ++ Js.q "password" ++ " i]");
    page_locator ("input[aria-label*=" ++ Js.q "Password" ++ " i]") ].

Definition loginButtonSelectors : list Locator :=
  [ loginButton;
    page_locator ("button[type=" ++ Js.q "submit" ++ "]");
    page_locator ("input[type=" ++ Js.q "submit" ++ "]");
    page_locator ("button:has-text(" ++ Js.q "Log" ++ ")");
    page_locator ("button:has-text(" ++ Js.q "Sign" ++ ")") ].

(** The loop over [usernameSelectors] of [login], entered at index [i]
    with the candidates from [i] on; [Some selector] is the [break] with
    [usernameField = selector], [None] is the loop running out. *)
Fixpoint findUsernameField (i : nat) (selectors : list Locator)
    : M (option Locator) :=
  match selectors with
  | [] => ret None
  | selector :: rest =>
      usernameField <-
        try_catch
          (call (LocWaitFor selector "visible" (Some 10000)) ;;
           log Info ("Username field found using selector "
                     ++ Js.num (Z.of_nat i + 1)) ;;
           ret (Some selector))
          (fun error =>
             log Debug ("Username selector " ++ Js.num (Z.of_nat i + 1)
                        ++ " not found, trying next...") ;;
             ret None) ;;
      match usernameField with
      | Some _ => ret usernameField
      | None => findUsernameField (S i) rest
      end
  end.

Definition username_not_found : Js.Error :=
  Js.new_Error "Username field not found on the page".

(** The resolution of the username field: the loop, then the last
    resort of [if (!usernameField)]. *)
Definition resolveUsernameField (selectors : list Locator) : M Locator :=
  usernameField <- findUsernameField 0 selectors ;;
  match usernameField with
  | Some l => ret l
  | None =>
      emailInputs <- call (LocCount (page_locator ("input[type=" ++ Js.q "email" ++ "]"))) ;;
      if emailInputs >? 0
      then ret (first (page_locator ("input[type=" ++ Js.q "email" ++ "]")))
      else throw username_not_found
  end.

(** [inputType === 'password'] *)
Definition is_password (inputType : option string) : bool :=
  match inputType with
  | Some s => String.eqb s "password"
  | None => false
  end.

(** The loop over [passwordSelectors], entered at index [i]. *)
Fixpoint findPasswordField (i : nat) (selectors : list Locator)
    : M (option Locator) :=
  match selectors with
  | [] => ret None
  | selector :: rest =>
      let waitTime := Z.min (5000 + Z.of_nat i * 1000) 20000 in
      passwordField <-
        try_catch
          (try_catch
             (call (LocWaitFor selector "visible" (Some waitTime)))
             (fun e => call (LocWaitFor selector "attached" (Some waitTime))) ;;
           inputType <-
             try_catch (call (LocGetAttribute selector "type"))
                       (fun _ => ret (Some EmptyString)) ;;
           isPassword <-
             try_catch (call (LocEvaluateTypeIsPassword selector))
                       (fun e => ret (is_password inputType)) ;;
           if isPassword || is_password inputType
           then
             log Info ("Password field found using selector "
                       ++ Js.num (Z.of_nat i + 1)) ;;
             ret (Some selector)
           else ret None)
          (fun error =>
             log Debug ("Password selector " ++ Js.num (Z.of_nat i + 1)
                        ++ " not found, trying next...") ;;
             ret None) ;;
      match passwordField with
      | Some _ => ret passwordField
      | None => findPasswordField (S i) rest
      end
  end.

(** [for (const frame of iframes)] of the password fall-back. *)
Fixpoint findPasswordInFrames (frames : list nat) : M (option Locator) :=
  match frames with
  | [] => ret None
  | frame :: rest =>
      passwordField <-
        try_catch
          (framePasswordInputs <-
             call (LocCount (frame_locator frame ("input[type=" ++ Js.q "password" ++ "]"))) ;;
           if framePasswordInputs >? 0 then
             log Info "Found password field in iframe" ;;
             ret (Some (first (frame_locator frame ("input[type=" ++ Js.q "password" ++ "]"))))
           else ret None)
          (fun e => ret None) ;;
      match passwordField with
      | Some _ => ret passwordField
      | None => findPasswordInFrames rest
      end
  end.

Definition password_not_found : Js.Error :=
  Js.new_Error "Password field not found on the page after trying all selectors".

(** The resolution of the password field: the loop, then
    [if (!passwordField)] with its fall-back, the screenshot and the
    throw. *)
Definition resolvePasswordField (selectors : list Locator) : M Locator :=
  passwordField <- findPasswordField 0 selectors ;;
  match passwordField with
  | Some l => ret l
  | None =>
      passwordField <-
        try_catch
          (allPasswordInputs <-
             call (LocCount (page_locator ("input[type=" ++ Js.q "password" ++ "]"))) ;;
           if allPasswordInputs >? 0 then
             log Info "Found password field using fallback method" ;;
             ret (Some (first (page_locator ("input[type=" ++ Js.q "password" ++ "]"))))
           else
             iframes <- call PageFrames ;;
             findPasswordInFrames (seq 0 iframes))
          (fun e => ret None) ;;
      match passwordField with
      | Some l => ret l
      | None =>
          call (PageScreenshot "test-results/password-field-not-found.png" true) ;;
          throw password_not_found
      end
  end.

(** [for (const selector of selectors)] with
    [if (await this.isElementVisible(selector, 3000)) { found = selector; break; }]
    inside a [try] with an empty [catch]: the loops over
    [loginButtonSelectors] and over [descInputSelectors]. *)
Fixpoint findVisible (selectors : list Locator) : M (option Locator) :=
  match selectors with
  | [] => ret None
  | selector :: rest =>
      found <-
        try_catch
          (visible <- isElementVisible selector (Some 3000) ;;
           if visible then ret (Some selector) else ret None)
          (fun e => ret None) ;;
      match found with
      | Some _ => ret found
      | None => findVisible rest
      end
  end.

(** [for (let i = 0; i < 15; i++)] of the wait for the URL to change,
    with [n] iterations left; the result is [urlChanged]. *)
Fixpoint waitForUrlChange (n : nat) (initialUrl : string) : M bool :=
  match n with
  | O => ret false
  | S n' =>
      call (PageWaitForTimeout 1000) ;;
      currentUrl <- call PageUrl ;;
      if negb (String.eqb currentUrl initialUrl)
         || negb (Js.includes currentUrl "#/login")
      then log Info "URL changed after login" ;; ret true
      else waitForUrlChange n' initialUrl
  end.

(** [login(username, password)], over the three candidate lists. *)
Definition login_over (usernameSelectors passwordSelectors
    loginButtonSelectors : list Locator) (username password : string)
    : M unit :=
  call (PageWaitForLoadState "domcontentloaded" 30000) ;;
  usernameField <- resolveUsernameField usernameSelectors ;;
  fillInput usernameField username default_fill ;;
  call (PageWaitForTimeout 500) ;;
  passwordField <- resolvePasswordField passwordSelectors ;;
  fillInput passwordField password default_fill ;;
  call (PageWaitForTimeout 500) ;;
  loginBtn <- findVisible loginButtonSelectors ;;
  match loginBtn with
  | Some l => clickElement l default_click
  | None => call (LocPress passwordField "Enter")
  end ;;
  try_catch
    (initialUrl <- call PageUrl ;;
     urlChanged <- waitForUrlChange 15 initialUrl ;;
     (if negb urlChanged
      then log Info "URL did not change, but continuing..."
      else ret tt) ;;
     call (PageWaitForLoadState "domcontentloaded" 15000) ;;
     call (PageWaitForTimeout 2000))
    (fun error =>
       log Info "Load state timeout after login, using domcontentloaded as fallback" ;;
       call (PageWaitForLoadState "domcontentloaded" 10000) ;;
       call (PageWaitForTimeout 2000)).

Definition login (username password : string) : M unit :=
  login_over usernameSelectors passwordSelectors loginButtonSelectors
             username password.

(* =================================================================== *)
(** ** FormPage *)
(* =================================================================== *)

Definition formDescriptionInput : Locator :=
  first (page_locator ("textarea[name*=" ++ Js.q "description"
     ++ " i], textarea[id*=" ++ Js.q "description"
     ++ " i], textarea[placeholder*=" ++ Js.q "description" ++ " i]")).

(** The state after [new FormPage(page)]: the constructor's
    [this.formNameInput]. *)
Definition new_FormPage (page : W) : Store :=
  mkStore page
    (first (page_locator
       ("input[name*=" ++ Js.q "name" ++ " i], input[id*=" ++ Js.q "name"
        ++ " i], input[placeholder*=" ++ Js.q "name"
        ++ " i], input[aria-label*=" ++ Js.q "name" ++ " i]"))).

(** [nameInputSelectors]; its head is the current [this.formNameInput]. *)
Definition nameInputSelectors (formNameInput : Locator) : list Locator :=
  [ formNameInput;
    first (page_locator ("input[name*=" ++ Js.q "name" ++ " i]"));
    first (page_locator ("input[placeholder*=" ++ Js.q "name" ++ " i]"));
    first (page_locator ("input[placeholder*=" ++ Js.q "Name" ++ " i]"));
    first (page_locator ("input[placeholder*=" ++ Js.q "Untitled" ++ " i]"));
    first (page_locator ("input[id*=" ++ Js.q "name" ++ " i]"));
    first (page_locator ("input[type=" ++ Js.q "text" ++ "]"));
    first (page_locator "input") ].

Definition descInputSelectors : list Locator :=
  [ formDescriptionInput;
    first (page_locator ("textarea[name*=" ++ Js.q "description" ++ " i]"));
    first (page_locator ("textarea[id*=" ++ Js.q "description" ++ " i]"));
    first (page_locator ("textarea[placeholder*=" ++ Js.q "description" ++ " i]"));
    first (page_locator "textarea") ].

(** The loop over [nameInputSelectors], entered at index [i];
    [Some selector] is the [break] with [nameInput = selector] and
    [nameInputFound = true]. *)
Fixpoint findNameInput (i : nat) (selectors : list Locator)
    : M (option Locator) :=
  match selectors with
  | [] => ret None
  | selector :: rest =>
      nameInput <-
        try_catch
          (isVisible <-
             try_catch (call (LocIsVisible selector 5000))
                       (fun _ => ret false) ;;
           if isVisible then
             log Info ("Found Form name input using selector "
                       ++ Js.num (Z.of_nat i + 1)) ;;
             ret (Some selector)
           else ret None)
          (fun e => ret None) ;;
      match nameInput with
      | Some _ => ret nameInput
      | None => findNameInput (S i) rest
      end
  end.

Definition form_name_not_found : Js.Error :=
  Js.new_Error "Form name input field not found. Form may not have loaded.".

(** The resolution of the name input: the loop, then
    [if (!nameInputFound || !nameInput)] with the screenshot, whose
    rejection [.catch(() => {})] drops, and the throw. *)
Definition resolveNameInput (selectors : list Locator) : M Locator :=
  nameInput <- findNameInput 0 selectors ;;
  match nameInput with
  | Some l => ret l
  | None =>
      try_catch
        (call (PageScreenshot "test-results/form-input-not-found.png" true))
        (fun _ => ret tt) ;;
      throw form_name_not_found
  end.

(** [if (description)] for an optional string. *)
Definition truthy (description : option string) : bool :=
  match description with
  | Some EmptyString => false
  | Some _ => true
  | None => false
  end.

(** [fillFormCreationForm(name, description)], over the candidate list of
    the name input. *)
Definition fillFormCreationForm_over
    (nameInputSelectors : Locator -> list Locator)
    (name : string) (description : option string) : M unit :=
  log Info "Waiting for Form creation form to appear..." ;;
  call (PageWaitForTimeout 2000) ;;
  formNameInput <- get_formNameInput ;;
  nameInput <- resolveNameInput (nameInputSelectors formNameInput) ;;
  set_formNameInput nameInput ;;
  call (LocClear nameInput) ;;
  fillInput nameInput name default_fill ;;
  log Info ("Filled Form name: " ++ name) ;;
  if truthy description then
    let description := match description with Some d => d | None => EmptyString end in
    descInput <- findVisible descInputSelectors ;;
    match descInput with
    | Some l =>
        fillInput l description default_fill ;;
        log Info ("Filled Form description: " ++ description)
    | None => log Warn "Description field not found, skipping description"
    end
  else ret tt.

Definition fillFormCreationForm (name : string) (description : option string)
    : M unit :=
  fillFormCreationForm_over nameInputSelectors name description.

End PageObjects.

Arguments mkStore {W} browser formNameInput.
Arguments new_FormPage {W} page.
Arguments browser {W} s.
Arguments formNameInput {W} s.
Arguments outcome_of {W A} r.
Arguments store_of {W A} r.
Arguments trace_of {W A} r.
Arguments Continue {S} s.
Arguments Return {S}.
Arguments goto_attempt {W} perform url maxRetries attempt gotoOptions _.
Arguments goto_loop {W} perform fuel url maxRetries attempt gotoOptions _.
Arguments goto {W} perform url options _.
Arguments waitForElement {W} perform locator timeout _.
Arguments isElementVisible {W} perform locator timeout _.
Arguments fillInput {W} perform locator text options _.
Arguments clickElement {W} perform locator options _.
Arguments findUsernameField {W} perform i selectors _.
Arguments resolveUsernameField {W} perform selectors _.
Arguments findPasswordField {W} perform i selectors _.
Arguments findPasswordInFrames {W} perform frames _.
Arguments resolvePasswordField {W} perform selectors _.
Arguments findVisible {W} perform selectors _.
Arguments waitForUrlChange {W} perform n initialUrl _.
Arguments login_over {W} perform usernameSelectors passwordSelectors
  loginButtonSelectors username password _.
Arguments login {W} perform username password _.
Arguments findNameInput {W} perform i selectors _.
Arguments resolveNameInput {W} perform selectors _.
Arguments fillFormCreationForm_over {W} perform nameInputSelectors name description _.
Arguments fillFormCreationForm {W} perform name description _.

(* ===================================================================== *)
(** ** More observations on traces *)
(* ===================================================================== *)

(** The errors thrown by the [page.goto] calls of a trace, in order. *)
Fixpoint goto_errors (tr : Trace) : list Js.Error :=
  match tr with
  | [] => []
  | EvCall (PageGoto _ _) (Throw e) :: tr' => e :: goto_errors tr'
  | _ :: tr' => goto_errors tr'
  end.

(** Each [waitFor] probe with whether it resolved. *)
Fixpoint waitFor_results (tr : Trace) : list (Locator * bool) :=
  match tr with
  | [] => []
  | EvCall (LocWaitFor l _ _) (Ok _) :: tr' => (l, true) :: waitFor_results tr'
  | EvCall (LocWaitFor l _ _) (Throw _) :: tr' => (l, false) :: waitFor_results tr'
  | _ :: tr' => waitFor_results tr'
  end.

(** Each [isVisible] probe with whether it answered [true]. *)
Fixpoint isVisible_results (tr : Trace) : list (Locator * bool) :=
  match tr with
  | [] => []
  | EvCall (LocIsVisible l _) (Ok b) :: tr' => (l, b) :: isVisible_results tr'
  | EvCall (LocIsVisible l _) (Throw _) :: tr' => (l, false) :: isVisible_results tr'
  | _ :: tr' => isVisible_results tr'
  end.

(** The outcomes of the [inputValue] read-backs of a trace. *)
Fixpoint read_backs (tr : Trace) : list (Outcome string) :=
  match tr with
  | [] => []
  | EvCall (LocInputValue _) r :: tr' => r :: read_backs tr'
  | _ :: tr' => read_backs tr'
  end.

(** The answers of the [isEnabled] checks of a trace. *)
Fixpoint enabled_checks (tr : Trace) : list (Outcome bool) :=
  match tr with
  | [] => []
  | EvCall (LocIsEnabled _) r :: tr' => r :: enabled_checks tr'
  | _ :: tr' => enabled_checks tr'
  end.

(** The outcomes of the [click] calls of a trace. *)
Fixpoint click_outcomes (tr : Trace) : list (Outcome unit) :=
  match tr with
  | [] => []
  | EvCall (LocClick _ _) r :: tr' => r :: click_outcomes tr'
  | _ :: tr' => click_outcomes tr'
  end.

(** The outcomes of the [page.screenshot] calls of a trace. *)
Fixpoint screenshot_outcomes (tr : Trace) : list (Outcome unit) :=
  match tr with
  | [] => []
  | EvCall (PageScreenshot _ _) r :: tr' => r :: screenshot_outcomes tr'
  | _ :: tr' => screenshot_outcomes tr'
  end.

(** The events that follow the last [page.screenshot] call of a trace (the
    whole trace when there is none). *)
Fixpoint after_screenshot (tr : Trace) : Trace :=
  match tr with
  | [] => []
  | ev :: tr' =>
      if existsb is_screenshot tr' then after_screenshot tr'
      else if is_screenshot ev then tr' else ev :: tr'
  end.

(** The outcomes of the [count] queries of a trace. *)
Fixpoint count_results (tr : Trace) : list (Outcome Z) :=
  match tr with
  | [] => []
  | EvCall (LocCount _) r :: tr' => r :: count_results tr'
  | _ :: tr' => count_results tr'
  end.

(** The candidates of a list, each with the mark of a failed probe. *)
Definition all_missed (selectors : list Locator) : list (Locator * bool) :=
  map (fun l => (l, false)) selectors.

(** The total of the timer waits of a trace. *)
Definition timer_total (tr : Trace) : Z :=
  fold_right (fun ev s => timer_ms ev + s) 0 tr.

(* ===================================================================== *)
(** ** Error classes and the backoff schedule *)
(* ===================================================================== *)

(** The two tests of the [catch] block of [goto] that decide how long it
    waits: [errorMessage.includes('err_http2_protocol_error')] on the
    lower-cased message, and [error.message.includes('ERR_CONNECTION_RESET')]
    on the message as it is. *)
Definition is_http2_error (error : Js.Error) : bool :=
  Js.includes (Js.toLowerCase (Js.message error)) "err_http2_protocol_error".

Definition is_connection_reset (error : Js.Error) : bool :=
  Js.includes (Js.message error) "ERR_CONNECTION_RESET".

(** The total wait the [catch] block makes before the next attempt, by
    the answers of the two tests. *)
Definition backoff (http2 reset : bool) (attempt : Z) : Z :=
  (if http2 then 2000 else 0)
  + (if reset then waitTime attempt * 2 else waitTime attempt).

(** The error classes the specification names for a navigation: network,
    timeout and protocol; [ClassPermanent] is for an error that is not
    retried. *)
Inductive SpecClass :=
| ClassProtocol
| ClassTimeout
| ClassNetwork
| ClassPermanent.

(** The class of an error in the specification's words, by the words the
    [catch] block looks for: a protocol error is an HTTP/2 protocol
    error, a timeout error is another error that mentions a timeout or is
    named [TimeoutError], a network error is another error that mentions
    [net::] or [err_connection].  A reset connection and a refused one
    are both network errors. *)
Definition spec_class (error : Js.Error) : SpecClass :=
  let errorMessage := Js.toLowerCase (Js.message error) in
  if is_http2_error error then ClassProtocol
  else if Js.includes errorMessage "timeout"
          || String.eqb (Js.name error) "TimeoutError"
  then ClassTimeout
  else if Js.includes errorMessage "net::"
          || Js.includes errorMessage "err_connection"
  then ClassNetwork
  else ClassPermanent.

(** [l] is non-decreasing and starts at [b] or above. *)
Fixpoint nondecreasing_from (b : Z) (l : list Z) : Prop :=
  match l with
  | [] => True
  | x :: l' => b <= x /\ nondecreasing_from x l'
  end.

(** The escalation of the wait-until condition as the specification words
    it: content loaded for attempt 1, full load for attempt 2, network idle
    from attempt 3 on. *)
Definition escalation (n : nat) : string :=
  match n with
  | 1%nat => "domcontentloaded"
  | 2%nat => "load"
  | _ => "networkidle"
  end.

(* ===================================================================== *)
(** ** Assumptions on the page under test *)
(* ===================================================================== *)

Section Pages.

Variable W : Type.
Variable perform : forall T : Type, Call T -> W -> Outcome T * W.

(** Every navigation fails, with an error of the retried kind. *)
Definition always_transient : Prop :=
  forall url o w, exists e w',
    perform unit (PageGoto url o) w = (Throw e, w')
    /\ isNetworkError e = true.

(** The timer of the page works. *)
Definition timers_fire : Prop :=
  forall ms w, exists w', perform unit (PageWaitForTimeout ms) w = (Ok tt, w').

(** [l] never becomes visible: waiting for it times out. *)
Definition never_appears (l : Locator) : Prop :=
  forall state timeout w, exists e w',
    perform unit (LocWaitFor l state timeout) w = (Throw e, w').

(** [l] is visible: waiting for it resolves. *)
Definition appears (l : Locator) : Prop :=
  forall state timeout w, exists w',
    perform unit (LocWaitFor l state timeout) w = (Ok tt, w').

(** [isVisible] on [l] answers [false] or throws. *)
Definition not_visible (l : Locator) : Prop :=
  forall timeout w,
    (exists w', perform bool (LocIsVisible l timeout) w = (Ok false, w'))
    \/ (exists e w', perform bool (LocIsVisible l timeout) w = (Throw e, w')).

(** [isVisible] on [l] answers [true]. *)
Definition is_visible (l : Locator) : Prop :=
  forall timeout w, exists w',
    perform bool (LocIsVisible l timeout) w = (Ok true, w').

End Pages.

Arguments always_transient {W} perform.
Arguments timers_fire {W} perform.
Arguments never_appears {W} perform l.
Arguments appears {W} perform l.
Arguments not_visible {W} perform l.
Arguments is_visible {W} perform l.

(* ===================================================================== *)
(** ** A simulated browser, for concrete runs *)
(* ===================================================================== *)

Module Sim.

Fixpoint locator_eqb (a b : Locator) : bool :=
  match a, b with
  | page_locator s, page_locator t => String.eqb s t
  | frame_locator n s, frame_locator m t => Nat.eqb n m && String.eqb s t
  | first a', first b' => locator_eqb a' b'
  | _, _ => false
  end.

(** The page under test: how each navigation ends (by its position among
    the [page.goto] calls, from 0), which locators are visible (and
    attached), enabled or malformed, how many elements a locator matches,
    whether a screenshot can be written, and what an input makes of the
    text typed into it. *)
Record Page := mkPage {
  navigation : nat -> option Js.Error;
  visible : Locator -> bool;
  enabled : Locator -> bool;
  malformed : Locator -> bool;
  matched : Locator -> Z;
  snapshot : option Js.Error;
  keeps : string -> string
}.

(** The state of the simulation: navigations made, text of the input. *)
Record State := mkState { navigations : nat; value : string }.

Definition start : State := mkState 0 EmptyString.

Definition timeout_error : Js.Error :=
  Js.mkError "TimeoutError" "locator.waitFor: Timeout exceeded.".

Definition syntax_error : Js.Error :=
  Js.mkError "Error" "Unexpected token while parsing selector".

Definition answer {T} (s : State) (o : option Js.Error) (a : T)
    : Outcome T * State :=
  match o with
  | Some e => (Throw e, s)
  | None => (Ok a, s)
  end.

(** The error of a probe of [l], if any. *)
Definition probe (p : Page) (l : Locator) : option Js.Error :=
  if malformed p l then Some syntax_error
  else if visible p l then None
  else Some timeout_error.

Definition perform (p : Page) (T : Type) (c : Call T) (s : State)
    : Outcome T * State :=
  match c in Call T return Outcome T * State with
  | PageGoto _ _ =>
      answer (mkState (S (navigations s)) (value s))
             (navigation p (navigations s)) tt
  | PageWaitForLoadState _ _ => (Ok tt, s)
  | PageWaitForTimeout _ => (Ok tt, s)
  | PageScreenshot _ _ => answer s (snapshot p) tt
  | PageUrl => (Ok "https://example.test/#/login", s)
  | PageFrames => (Ok 1%nat, s)
  | LocWaitFor l _ _ => answer s (probe p l) tt
  | LocIsVisible l _ =>
      answer s (if malformed p l then Some syntax_error else None)
             (visible p l)
  | LocIsEnabled l => (Ok (enabled p l), s)
  | LocCount l => (Ok (matched p l), s)
  | LocGetAttribute _ _ => (Ok None, s)
  | LocEvaluateTypeIsPassword _ => (Ok false, s)
  | LocClear _ => (Ok tt, mkState (navigations s) EmptyString)
  | LocFill _ text => (Ok tt, mkState (navigations s) (keeps p text))
  | LocInputValue _ => (Ok (value s), s)
  | LocClick _ _ => (Ok tt, s)
  | LocPress _ _ => (Ok tt, s)
  end.

Definition navigation_timeout : Js.Error :=
  Js.mkError "TimeoutError" "page.goto: Timeout 120000ms exceeded.".

Definition connection_reset : Js.Error :=
  Js.mkError "Error" "page.goto: net::ERR_CONNECTION_RESET at /#/login".

Definition connection_refused : Js.Error :=
  Js.mkError "Error" "page.goto: net::ERR_CONNECTION_REFUSED at /#/login".

Definition crashed : Js.Error := Js.mkError "Error" "Target crashed".

Definition invalid_url : Js.Error :=
  Js.mkError "Error"
    "page.goto: Protocol error (Page.navigate): Cannot navigate to invalid URL".

Definition disk_full : Js.Error :=
  Js.mkError "Error" "ENOSPC: no space left on device".

(** A page where nothing is found and everything else works. *)
Definition blank : Page :=
  mkPage (fun _ => None) (fun _ => false) (fun _ => true) (fun _ => false)
         (fun _ => 0) None (fun text => text).

Definition navigating (f : nat -> option Js.Error) (p : Page) : Page :=
  mkPage f (visible p) (enabled p) (malformed p) (matched p) (snapshot p)
         (keeps p).

Definition showing (f : Locator -> bool) (p : Page) : Page :=
  mkPage (navigation p) f (enabled p) (malformed p) (matched p) (snapshot p)
         (keeps p).

Definition rejecting (f : Locator -> bool) (p : Page) : Page :=
  mkPage (navigation p) (visible p) (enabled p) f (matched p) (snapshot p)
         (keeps p).

Definition matching (f : Locator -> Z) (p : Page) : Page :=
  mkPage (navigation p) (visible p) (enabled p) (malformed p) f (snapshot p)
         (keeps p).

Definition without_disk (p : Page) : Page :=
  mkPage (navigation p) (visible p) (enabled p) (malformed p) (matched p)
         (Some disk_full) (keeps p).

Definition keeping (f : string -> string) (p : Page) : Page :=
  mkPage (navigation p) (visible p) (enabled p) (malformed p) (matched p)
         (snapshot p) f.

(** Every navigation times out. *)
Definition unreachable : Page :=
  navigating (fun _ => Some navigation_timeout) blank.

(** The first navigation fails for good. *)
Definition broken : Page :=
  navigating (fun n => match n with O => Some crashed | _ => None end) blank.

(** No navigation can succeed: the URL is not valid. *)
Definition nowhere : Page :=
  navigating (fun _ => Some invalid_url) blank.

(** The second navigation is reset, the others are refused. *)
Definition flaky : Page :=
  navigating (fun n => match n with
                       | 1%nat => Some connection_reset
                       | _ => Some connection_refused
                       end) blank.

(** Only [c] is visible. *)
Definition only (c : Locator) : Page := showing (locator_eqb c) blank.

(** [c] is visible and keeps two characters of what is typed. *)
Definition clipping (c : Locator) : Page :=
  keeping (Js.substring0 2) (only c).

(** [c] is visible and disabled. *)
Definition disabled (c : Locator) : Page :=
  mkPage (navigation blank) (locator_eqb c) (fun _ => false)
         (malformed blank) (matched blank) (snapshot blank) (keeps blank).

(** The first navigation fails for good, and [c] is visible and
    disabled. *)
Definition broken_with_disabled (c : Locator) : Page :=
  navigating (navigation broken) (disabled c).

(** The first candidate cannot be parsed. *)
Definition garbled (c : Locator) : Page := rejecting (locator_eqb c) blank.

(** No candidate is visible, yet the page has an e-mail input. *)
Definition hidden_email : Page :=
  matching (fun l => if locator_eqb l (page_locator ("input[type=" ++ Js.q "email" ++ "]"))
                     then 1 else 0) blank.

(** A login page with a username field, no password field, and no room
    for a screenshot. *)
Definition login_without_password : Page :=
  without_disk (only usernameInput).

Definition no_options : NavOptions := mkNavOptions None None None.

Definition a : Locator := page_locator "#a".
Definition b : Locator := page_locator "#b".
Definition c : Locator := page_locator "#c".
Definition d : Locator := page_locator "#d".

Definition store : Store State := new_FormPage start.

End Sim.

(** The simulated browser with a given address and given password
    inputs: [page.url()] answers [url], [el.type === 'password'] answers
    [password l], and an element has no text. *)
Module SimLogin.

Definition perform (url : string) (password : Locator -> bool)
    (p : Sim.Page) (T : Type) (c : Call T) (s : Sim.State)
    : Outcome T * Sim.State :=
  match c in Call T return Outcome T * Sim.State with
  | PageUrl => (Ok url, s)
  | LocEvaluateTypeIsPassword l => (Ok (password l), s)
  | c' => Sim.perform p _ c' s
  end.

Definition textContent (l : Locator) (s : Sim.State)
    : Outcome (option string) * Sim.State :=
  (Ok None, s).

Definition login_url : string := "https://example.test/#/login".

Definition home_url : string := "https://example.test/#/home".

(** Both [x] and [y] are visible. *)
Definition both (x y : Locator) : Sim.Page :=
  Sim.showing (fun l => Sim.locator_eqb x l || Sim.locator_eqb y l) Sim.blank.

End SimLogin.

(* ===================================================================== *)
(** ** Observations for the rest of the page objects *)
(* ===================================================================== *)

(** The outcomes of the [page.goto] calls of a trace, in order. *)
Fixpoint goto_outcomes (tr : Trace) : list (Outcome unit) :=
  match tr with
  | [] => []
  | EvCall (PageGoto _ _) r :: tr' => r :: goto_outcomes tr'
  | _ :: tr' => goto_outcomes tr'
  end.

(** The timeout of each [page.goto] call, in order. *)
Fixpoint goto_timeouts (tr : Trace) : list Z :=
  match tr with
  | [] => []
  | EvCall (PageGoto _ o) _ :: tr' => timeout o :: goto_timeouts tr'
  | _ :: tr' => goto_timeouts tr'
  end.

(** The answers of [page.url()], in order. *)
Fixpoint url_results (tr : Trace) : list (Outcome string) :=
  match tr with
  | [] => []
  | EvCall PageUrl r :: tr' => r :: url_results tr'
  | _ :: tr' => url_results tr'
  end.

(** Each [page.waitForLoadState] call with whether it resolved. *)
Fixpoint loadState_results (tr : Trace) : list (string * bool) :=
  match tr with
  | [] => []
  | EvCall (PageWaitForLoadState state _) (Ok _) :: tr' =>
      (state, true) :: loadState_results tr'
  | EvCall (PageWaitForLoadState state _) (Throw _) :: tr' =>
      (state, false) :: loadState_results tr'
  | _ :: tr' => loadState_results tr'
  end.

(** Each [waitFor] call with the state it waits for and whether it
    resolved. *)
Fixpoint waitFor_states (tr : Trace) : list (Locator * string * bool) :=
  match tr with
  | [] => []
  | EvCall (LocWaitFor l state _) (Ok _) :: tr' =>
      (l, state, true) :: waitFor_states tr'
  | EvCall (LocWaitFor l state _) (Throw _) :: tr' =>
      (l, state, false) :: waitFor_states tr'
  | _ :: tr' => waitFor_states tr'
  end.

(** What a trace holds before its first [click]. *)
Fixpoint before_click (tr : Trace) : Trace :=
  match tr with
  | [] => []
  | EvCall (LocClick _ _) _ :: _ => []
  | ev :: tr' => ev :: before_click tr'
  end.

(** The timeouts of the [waitFor] probes that were given one, in order. *)
Fixpoint waitFor_timeouts (tr : Trace) : list Z :=
  match tr with
  | [] => []
  | EvCall (LocWaitFor _ _ (Some t)) _ :: tr' => t :: waitFor_timeouts tr'
  | _ :: tr' => waitFor_timeouts tr'
  end.

(** The locators a trace shows to be password inputs: [evaluate] answered
    that the type is password, or the [type] attribute read [password]. *)
Fixpoint password_evidence (tr : Trace) : list Locator :=
  match tr with
  | [] => []
  | EvCall (LocEvaluateTypeIsPassword l) (Ok true) :: tr' =>
      l :: password_evidence tr'
  | EvCall (LocGetAttribute l attr) (Ok (Some v)) :: tr' =>
      if String.eqb attr "type" && String.eqb v "password"
      then l :: password_evidence tr'
      else password_evidence tr'
  | _ :: tr' => password_evidence tr'
  end.

(** An event that types into an input or reads it: [clear], [fill],
    [inputValue]. *)
Definition is_typing (ev : Event) : bool :=
  match ev with
  | EvCall (LocClear _) _ => true
  | EvCall (LocFill _ _) _ => true
  | EvCall (LocInputValue _) _ => true
  | _ => false
  end.

(** A read-back of an input: [inputValue]. *)
Definition is_readBack (ev : Event) : bool :=
  match ev with
  | EvCall (LocInputValue _) _ => true
  | _ => false
  end.

(** An event that submits the login form: a click or a key press. *)
Definition is_submit (ev : Event) : bool :=
  match ev with
  | EvCall (LocClick _ _) _ => true
  | EvCall (LocPress _ _) _ => true
  | _ => false
  end.

(** Number of events of a trace that satisfy [f]. *)
Definition count (f : Event -> bool) (tr : Trace) : nat :=
  List.length (filter f tr).

(** [l] is non-increasing and starts at [b] or below. *)
Fixpoint nonincreasing_from (b : Z) (l : list Z) : Prop :=
  match l with
  | [] => True
  | x :: l' => x <= b /\ nonincreasing_from x l'
  end.

(** [url.includes('#/login') || url.includes('/login')] *)
Definition on_login_page (url : string) : bool :=
  Js.includes url "#/login" || Js.includes url "/login".

(** The object [verifyTextboxUIElements] returns. *)
Record TextboxUI := mkTextboxUI {
  labelInputVisible : bool;
  placeholderInputVisible : bool;
  requiredCheckboxVisible : bool;
  valueInputVisible : bool
}.

(** The object [verifyFileUploadUIElements] returns. *)
Record FileUploadUI := mkFileUploadUI {
  file_labelInputVisible : bool;
  acceptInputVisible : bool;
  fileInputVisible : bool;
  uploadButtonVisible : bool
}.

(* ===================================================================== *)
(** ** The rest of the page objects *)
(* ===================================================================== *)

Section MorePageObjects.

Variable W : Type.
Variable perform : forall T : Type, Call T -> W -> Outcome T * W.

(** The answer of [locator.textContent()], the one library call below
    that [Call] does not list; it changes the browser like any call, and
    leaves no event in the trace. *)
Variable textContent : Locator -> W -> Outcome (option string) * W.

Local Arguments ret {W A} a _.
Local Arguments throw {W A} e _.
Local Arguments bind {W A B} m k _.
Local Arguments try_catch {W A} m h _.
Local Arguments call {W} perform {T} c _.
Local Arguments log {W} lvl msg _.

Local Notation "x <- m ;; k" := (bind m (fun x => k))
  (at level 100, m at next level, right associativity).
Local Notation "m ;; k" := (bind m (fun _ => k))
  (at level 100, right associativity).

(** [await locator.textContent()] *)
Definition call_textContent (locator : Locator) : M W (option string) :=
  fun st =>
    match textContent locator (browser st) with
    | (r, w') => (r, mkStore w' (formNameInput st), [])
    end.

(* ------------------------------------------------------------------- *)
(** *** BasePage *)
(* ------------------------------------------------------------------- *)

(** [getText(locator)]: [await locator.textContent() || ''] *)
Definition getText (locator : Locator) : M W string :=
  waitForElement perform locator None ;;
  text <- call_textContent locator ;;
  ret (match text with Some s => s | None => EmptyString end).

(* ------------------------------------------------------------------- *)
(** *** LoginPage *)
(* ------------------------------------------------------------------- *)

Definition errorMessage : Locator :=
  page_locator
     (".error, .alert-error, [role=" ++ Js.q "alert" ++ "], [class*="
        ++ Js.q "error" ++ " i], [class*=" ++ Js.q "alert" ++ " i], [id*="
        ++ Js.q "error" ++ " i]").

(** The body of the loop over [passwordSelectors] for the candidate at
    index [i], as [findPasswordField] has it
    ([findPasswordField_unfold]). *)
Definition passwordProbe (i : nat) (selector : Locator) : M W (option Locator) :=
  let waitTime := Z.min (5000 + Z.of_nat i * 1000) 20000 in
  try_catch
    (try_catch
       (call perform (LocWaitFor selector "visible" (Some waitTime)))
       (fun e => call perform (LocWaitFor selector "attached" (Some waitTime))) ;;
     inputType <-
       try_catch (call perform (LocGetAttribute selector "type"))
                 (fun _ => ret (Some EmptyString)) ;;
     isPassword <-
       try_catch (call perform (LocEvaluateTypeIsPassword selector))
                 (fun e => ret (is_password inputType)) ;;
     if isPassword || is_password inputType
     then
       log Info ("Password field found using selector "
                 ++ Js.num (Z.of_nat i + 1)) ;;
       ret (Some selector)
     else ret None)
    (fun error =>
       log Debug ("Password selector " ++ Js.num (Z.of_nat i + 1)
                  ++ " not found, trying next...") ;;
       ret None).

(** The block [if (!passwordField) { ... }] of [login], as
    [resolvePasswordField] has it ([resolvePasswordField_unfold]). *)
Definition passwordLastResort : M W Locator :=
  passwordField <-
    try_catch
      (allPasswordInputs <-
         call perform (LocCount (page_locator ("input[type=" ++ Js.q "password" ++ "]"))) ;;
       if allPasswordInputs >? 0 then
         log Info "Found password field using fallback method" ;;
         ret (Some (first (page_locator ("input[type=" ++ Js.q "password" ++ "]"))))
       else
         iframes <- call perform PageFrames ;;
         findPasswordInFrames perform (seq 0 iframes))
      (fun e => ret None) ;;
  match passwordField with
  | Some l => ret l
  | None =>
      call perform (PageScreenshot "test-results/password-field-not-found.png" true) ;;
      throw password_not_found
  end.

(** [navigateToLogin()] *)
Definition navigateToLogin : M W unit :=
  goto perform "/#/login"
       (mkNavOptions (Some (Js.Whole 3)) (Some 90000)
                     (Some "domcontentloaded")) ;;
  try_catch (call perform (PageWaitForTimeout 2000))
            (fun error => log Debug "Wait timeout, continuing").

(** [getErrorMessage()] *)
Definition getErrorMessage : M W string :=
  visible <- isElementVisible perform errorMessage None ;;
  if visible then getText errorMessage else ret EmptyString.

Definition dashboardIndicators : list Locator :=
  [ page_locator
       ("button:has-text(" ++ Js.q "+ Create" ++ "), button:has-text("
          ++ Js.q "Create" ++ ")");
    page_locator "nav >> text=Automation";
    page_locator
       ("[class*=" ++ Js.q "sidebar" ++ " i] >> text=Automation");
    page_locator ("[class*=" ++ Js.q "dashboard" ++ " i]");
    page_locator ("[data-testid*=" ++ Js.q "dashboard" ++ " i]") ].

(** [for (const indicator of dashboardIndicators)] of [isLoggedIn], with
    [foundIndicators] so far. *)
Fixpoint countIndicators (foundIndicators : Z) (indicators : list Locator)
    : M W Z :=
  match indicators with
  | [] => ret foundIndicators
  | indicator :: rest =>
      foundIndicators <-
        try_catch
          (visible <- isElementVisible perform indicator (Some 3000) ;;
           if visible then
             log Debug ("Found dashboard indicator: " ++ locator_text indicator) ;;
             ret (foundIndicators + 1)
           else ret foundIndicators)
          (fun e => ret foundIndicators) ;;
      countIndicators foundIndicators rest
  end.

(** [if (isOnLoginPage) { ... }] of [isLoggedIn], with the wait and the
    reading of the URL before it: [Some false] is a [return false], [None]
    is falling out of the block. *)
Definition loginPageCheck : M W (option bool) :=
  call perform (PageWaitForTimeout 1000) ;;
  currentUrl <- call perform PageUrl ;;
  let isOnLoginPage := on_login_page currentUrl in
  if isOnLoginPage then
    log Debug "Still on login page, login may have failed" ;;
    errorMessage <- getErrorMessage ;;
    if negb (String.eqb errorMessage EmptyString) then
      log Warn ("Login error detected: " ++ errorMessage) ;;
      ret (Some false)
    else
      loginFormVisible <-
        (u <- isElementVisible perform usernameInput (Some 2000) ;;
         if u then ret true else
         p <- isElementVisible perform passwordInput (Some 2000) ;;
         if p then ret true else
         isElementVisible perform loginButton (Some 2000)) ;;
      if loginFormVisible then
        log Debug "Login form still visible, login failed" ;;
        ret (Some false)
      else
        call perform (PageWaitForTimeout 2000) ;;
        newUrl <- call perform PageUrl ;;
        if on_login_page newUrl then
          log Debug "Still on login page after wait, login failed" ;;
          ret (Some false)
        else ret None
  else ret None.

(** [isLoggedIn()], over the list of dashboard indicators. *)
Definition isLoggedIn_over (dashboardIndicators : list Locator) : M W bool :=
  early <- loginPageCheck ;;
  match early with
  | Some b => ret b
  | None =>
      foundIndicators <- countIndicators 0 dashboardIndicators ;;
      if foundIndicators =? 0 then
        finalUrl <- call perform PageUrl ;;
        let notOnLoginPage :=
          negb (Js.includes finalUrl "#/login")
          && negb (Js.includes finalUrl "/login") in
        let notOnErrorPage :=
          negb (Js.includes finalUrl "error")
          && negb (Js.includes finalUrl "unauthorized") in
        loginFormStillPresent <-
          (u <- isElementVisible perform usernameInput (Some 1000) ;;
           if u then ret true
           else isElementVisible perform passwordInput (Some 1000)) ;;
        if notOnLoginPage && notOnErrorPage && negb loginFormStillPresent then
          log Info "Login successful - URL changed from login page and no login form" ;;
          ret true
        else
          log Warn "Login verification failed - no strong indicators found" ;;
          ret false
      else
        log Info ("Login successful - found " ++ Js.num foundIndicators
                  ++ " dashboard indicator(s)") ;;
        ret true
  end.

Definition isLoggedIn : M W bool := isLoggedIn_over dashboardIndicators.

(* ------------------------------------------------------------------- *)
(** *** FormPage *)
(* ------------------------------------------------------------------- *)

Definition createButton : Locator :=
  first (page_locator
     ("button:has-text(" ++ Js.q "Create" ++ "), button[type="
        ++ Js.q "submit" ++ "]:has-text(" ++ Js.q "Create"
        ++ "), button[id*=" ++ Js.q "create" ++ " i]")).

Definition successMessage : Locator :=
  first (page_locator
     (".success, .alert-success, [role=" ++ Js.q "alert" ++ "]:has-text("
        ++ Js.q "success" ++ " i), [class*=" ++ Js.q "success" ++ " i]")).

Definition textboxElement : Locator :=
  first (page_locator
     ("text=Textbox, text=Text Box, [title*=" ++ Js.q "Textbox"
        ++ " i], [aria-label*=" ++ Js.q "Textbox" ++ " i], [data-element="
        ++ Js.q "textbox" ++ "], [data-type=" ++ Js.q "textbox" ++ "]")).

Definition selectFileElement : Locator :=
  first (page_locator
     ("text=Select File, text=File Upload, text=File, [title*="
        ++ Js.q "File" ++ " i], [aria-label*=" ++ Js.q "File"
        ++ " i], [data-element=" ++ Js.q "file" ++ "], [data-type="
        ++ Js.q "file" ++ "]")).

Definition textboxLabelInput : Locator :=
  first (page_locator
     ("input[name*=" ++ Js.q "label" ++ " i], input[id*=" ++ Js.q "label"
        ++ " i], input[placeholder*=" ++ Js.q "label" ++ " i]")).

Definition textboxPlaceholderInput : Locator :=
  first (page_locator
     ("input[name*=" ++ Js.q "placeholder" ++ " i], input[id*="
        ++ Js.q "placeholder" ++ " i], input[placeholder*="
        ++ Js.q "placeholder" ++ " i]")).

Definition textboxRequiredCheckbox : Locator :=
  first (page_locator
     ("input[type=" ++ Js.q "checkbox" ++ "][name*=" ++ Js.q "required"
        ++ " i], input[type=" ++ Js.q "checkbox" ++ "][id*="
        ++ Js.q "required" ++ " i], input[type=" ++ Js.q "checkbox"
        ++ "][aria-label*=" ++ Js.q "required" ++ " i]")).

Definition textboxValueInput : Locator :=
  first (page_locator
     ("input[type=" ++ Js.q "text" ++ "], input[type=" ++ Js.q "input"
        ++ "], textarea, input:not([type=" ++ Js.q "hidden"
        ++ "]):not([type=" ++ Js.q "file" ++ "])")).

Definition fileUploadLabelInput : Locator :=
  first (page_locator
     ("input[name*=" ++ Js.q "label" ++ " i], input[id*=" ++ Js.q "label"
        ++ " i], input[placeholder*=" ++ Js.q "label" ++ " i]")).

Definition fileUploadAcceptInput : Locator :=
  first (page_locator
     ("input[name*=" ++ Js.q "accept" ++ " i], input[id*=" ++ Js.q "accept"
        ++ " i], select[name*=" ++ Js.q "accept"
        ++ " i], input[placeholder*=" ++ Js.q "accept" ++ " i]")).

Definition fileInput : Locator :=
  first (page_locator ("input[type=" ++ Js.q "file" ++ "]")).

Definition uploadButton : Locator :=
  first (page_locator
     ("button:has-text(" ++ Js.q "Upload" ++ "), button:has-text("
        ++ Js.q "Choose File" ++ "), button[type=" ++ Js.q "button"
        ++ "], input[type=" ++ Js.q "file" ++ "] + button")).

Definition uploadStatus : Locator :=
  first (page_locator
     ("[class*=" ++ Js.q "status" ++ " i], [class*=" ++ Js.q "Status"
        ++ " i], [class*=" ++ Js.q "upload-status" ++ " i], [class*="
        ++ Js.q "uploaded" ++ " i]")).

Definition uploadedFileName : Locator :=
  first (page_locator
     ("[class*=" ++ Js.q "filename" ++ " i], [class*=" ++ Js.q "file-name"
        ++ " i], text=/.*\.(pdf|doc|docx|txt)/, [data-filename]")).

Definition saveFormButton : Locator :=
  first (page_locator
     ("button:has-text(" ++ Js.q "Save" ++ "), button[type="
        ++ Js.q "submit" ++ "]:has-text(" ++ Js.q "Save"
        ++ "), button[id*=" ++ Js.q "save" ++ " i]")).

(** The statements of [fillFormCreationForm] that follow
    [this.formNameInput = nameInput], as [fillFormCreationForm_over] has
    them ([fillFormCreationForm_unfold]). *)
Definition formTail (nameInput : Locator) (name : string)
    (description : option string) : M W unit :=
  call perform (LocClear nameInput) ;;
  fillInput perform nameInput name default_fill ;;
  log Info ("Filled Form name: " ++ name) ;;
  if truthy description then
    let description := match description with Some d => d | None => EmptyString end in
    descInput <- findVisible perform descInputSelectors ;;
    match descInput with
    | Some l =>
        fillInput perform l description default_fill ;;
        log Info ("Filled Form description: " ++ description)
    | None => log Warn "Description field not found, skipping description"
    end
  else ret tt.

(** The end of [createForm] and of [saveForm]: wait for the load event,
    and for the content when that fails. *)
Definition waitForLoad : M W unit :=
  try_catch (call perform (PageWaitForLoadState "load" 10000))
            (fun error => call perform (PageWaitForLoadState "domcontentloaded" 5000)).

(** [createForm()] *)
Definition createForm : M W unit :=
  waitForElement perform createButton None ;;
  clickElement perform createButton default_click ;;
  waitForLoad.

(** [saveForm()] *)
Definition saveForm : M W unit :=
  waitForElement perform saveFormButton None ;;
  clickElement perform saveFormButton default_click ;;
  waitForLoad.

(** [clickTextboxElement()] *)
Definition clickTextboxElement : M W unit :=
  let textboxOnCanvas :=
    first (page_locator
       ("[class*=" ++ Js.q "textbox" ++ "], [data-type=" ++ Js.q "textbox"
          ++ "], input[type=" ++ Js.q "text" ++ "]")) in
  visible <- isElementVisible perform textboxOnCanvas None ;;
  (if visible then clickElement perform textboxOnCanvas default_click
   else clickElement perform textboxElement default_click) ;;
  call perform (PageWaitForTimeout 500).

(** [clickFileUploadElement()] *)
Definition clickFileUploadElement : M W unit :=
  let fileOnCanvas :=
    first (page_locator
       ("[class*=" ++ Js.q "file" ++ "], [data-type=" ++ Js.q "file"
          ++ "], input[type=" ++ Js.q "file" ++ "]")) in
  visible <- isElementVisible perform fileOnCanvas None ;;
  (if visible then clickElement perform fileOnCanvas default_click
   else clickElement perform selectFileElement default_click) ;;
  call perform (PageWaitForTimeout 500).

(** [verifyTextboxUIElements()] *)
Definition verifyTextboxUIElements : M W TextboxUI :=
  l <- isElementVisible perform textboxLabelInput None ;;
  p <- isElementVisible perform textboxPlaceholderInput None ;;
  r <- isElementVisible perform textboxRequiredCheckbox None ;;
  v <- isElementVisible perform textboxValueInput None ;;
  ret (mkTextboxUI l p r v).

(** [verifyFileUploadUIElements()] *)
Definition verifyFileUploadUIElements : M W FileUploadUI :=
  l <- isElementVisible perform fileUploadLabelInput None ;;
  a <- isElementVisible perform fileUploadAcceptInput None ;;
  f <- isElementVisible perform fileInput None ;;
  u <- isElementVisible perform uploadButton None ;;
  ret (mkFileUploadUI l a f u).

(** [enterTextInTextbox(text)] *)
Definition enterTextInTextbox (text : string) : M W unit :=
  clickTextboxElement ;;
  visible <- isElementVisible perform textboxValueInput None ;;
  if visible then fillInput perform textboxValueInput text default_fill
  else ret tt.

Definition statusIndicators : list Locator :=
  [ uploadStatus;
    uploadedFileName;
    page_locator "text=/uploaded|success|complete/i";
    page_locator
       ("[class*=" ++ Js.q "success" ++ "], [class*=" ++ Js.q "complete"
          ++ "]") ].

(** [for (const indicator of statusIndicators)] of [verifyFileUploaded]:
    [return true] at the first visible indicator, [return false] after
    the loop. *)
Fixpoint anyVisible (indicators : list Locator) : M W bool :=
  match indicators with
  | [] => ret false
  | indicator :: rest =>
      visible <- isElementVisible perform indicator None ;;
      if visible then ret true else anyVisible rest
  end.

(** [verifyFileUploaded()] *)
Definition verifyFileUploaded : M W bool := anyVisible statusIndicators.

(** [isFormSaved()] *)
Definition isFormSaved : M W bool :=
  isElementVisible perform successMessage None.

End MorePageObjects.

Arguments call_textContent {W} textContent locator _.
Arguments getText {W} perform textContent locator _.
Arguments passwordProbe {W} perform i selector _.
Arguments passwordLastResort {W} perform _.
Arguments navigateToLogin {W} perform _.
Arguments getErrorMessage {W} perform textContent _.
Arguments countIndicators {W} perform foundIndicators indicators _.
Arguments loginPageCheck {W} perform textContent _.
Arguments isLoggedIn_over {W} perform textContent dashboardIndicators _.
Arguments isLoggedIn {W} perform textContent _.
Arguments formTail {W} perform nameInput name description _.
Arguments waitForLoad {W} perform _.
Arguments createForm {W} perform _.
Arguments saveForm {W} perform _.
Arguments clickTextboxElement {W} perform _.
Arguments clickFileUploadElement {W} perform _.
Arguments verifyTextboxUIElements {W} perform _.
Arguments verifyFileUploadUIElements {W} perform _.
Arguments enterTextInTextbox {W} perform text _.
Arguments anyVisible {W} perform indicators _.
Arguments verifyFileUploaded {W} perform _.
Arguments isFormSaved {W} perform _.

(** An [isVisible] probe. *)
Definition is_isVisible (ev : Event) : bool :=
  match ev with
  | EvCall (LocIsVisible _ _) _ => true
  | _ => false
  end.

(** From any state, [m] produces no event that satisfies [f]. *)
Definition quiet {W A} (f : Event -> bool) (m : M W A) : Prop :=
  forall st, count f (trace_of (m st)) = 0%nat.

(** From any state, [m] produces at most [n] events that satisfy [f]. *)
Definition atmost {W A} (f : Event -> bool) (n : nat) (m : M W A) : Prop :=
  forall st, (count f (trace_of (m st)) <= n)%nat.

(** From any state, [m] leaves [this.formNameInput] as it is. *)
Definition keeps_formNameInput {W A} (m : M W A) : Prop :=
  forall st, formNameInput (store_of (m st)) = formNameInput st.

(* ===================================================================== *)
(** ** Properties *)
(* ===================================================================== *)

Section Properties.

Local Open Scope list_scope.

Variable W : Type.
Variable perform : forall T : Type, Call T -> W -> Outcome T * W.

(** Unfolds the monad and splits on the answer of the next library call. *)
Ltac unfold_monad :=
  unfold bind, try_catch, call, log, ret, throw,
    get_formNameInput, set_formNameInput,
    outcome_of, store_of, trace_of in *.

Ltac next_call :=
  match goal with
  | |- context [perform ?T ?c ?w] =>
      let r := fresh "r" in
      let w' := fresh "w" in
      let E := fresh "E" in
      destruct (perform T c w) as [r w'] eqn:E; destruct r; simpl
  end.

Ltac next_branch :=
  match goal with
  | |- context [if negb ?b then _ else _] => is_var b; destruct b; simpl
  | |- context [if ?b then _ else _] => is_var b; destruct b; simpl
  end.

Ltac run := unfold_monad; simpl; repeat (first [next_call | next_branch]).

(** The same on a hypothesis that equates a run with its result. *)
Ltac invert_run H :=
  unfold_monad; simpl in H;
  repeat match type of H with
         | context [perform ?T ?c ?w] =>
             let r := fresh "r" in
             let w' := fresh "w" in
             let E := fresh "E" in
             destruct (perform T c w) as [r w'] eqn:E; destruct r; simpl in H
         | context [if ?b then _ else _] =>
             let E := fresh "C" in
             destruct b eqn:E; simpl in H
         end;
  inversion H; subst; clear H.

Local Arguments String.append : simpl never.
Local Arguments Js.includes : simpl never.
Local Arguments Js.toLowerCase : simpl never.
Local Arguments isNetworkError : simpl never.
Local Arguments Js.num : simpl never.
Local Arguments Z.mul : simpl never.
Local Arguments Z.add : simpl never.
Local Arguments Z.sub : simpl never.

(** *** isElementVisible *)

(** C9. [isElementVisible] is total: for every locator, timeout and
    state it returns a boolean and never throws; the boolean is [true]
    exactly when the wait for visibility resolved, and [false] when the
    wait threw, whatever the error. *)
Theorem isElementVisible_total :
  forall (locator : Locator) (timeout : option Z) (st : Store W),
    exists (b : bool) (st' : Store W) (tr : Trace),
      isElementVisible perform locator timeout st = (Ok b, st', tr)
      /\ (b = true <->
          exists w',
            perform unit
              (LocWaitFor locator "visible"
                 (Some (match timeout with Some t => t | None => 5000 end)))
              (browser st) = (Ok tt, w'))
      /\ (b = false <->
          exists e w',
            perform unit
              (LocWaitFor locator "visible"
                 (Some (match timeout with Some t => t | None => 5000 end)))
              (browser st) = (Throw e, w')).
Proof.
  intros locator timeout st.
  unfold isElementVisible. run.
  - destruct a. eexists true, _, _. split; [reflexivity|].
    split; split; intros H; try reflexivity; try discriminate.
    + eexists; reflexivity.
    + destruct H as (e & w' & H). discriminate.
  - eexists false, _, _. split; [reflexivity|].
    split; split; intros H; try reflexivity; try discriminate.
    + destruct H as (w' & H). discriminate.
    + eexists _, _; reflexivity.
Qed.

(** *** fillInput *)

(** C10. Unless the caller passes [validate === false], [fillInput]
    reads the value back after filling: when it returns, the read-back
    directly followed the fill and gave the requested text, and a
    read-back that gives another value makes it throw the validation
    error.  With [validate === false], and only then, nothing is read
    back. *)
Theorem fillInput_validates :
  forall (locator : Locator) (text : string) (options : FillOptions)
         (st : Store W),
    let r := fillInput perform locator text options st in
    (fill_validate options <> Js.Boolean false ->
       (forall u, outcome_of r = Ok u ->
          read_backs (trace_of r) = [Ok text]
          /\ exists tr1 tr2,
               trace_of r =
                 (tr1 ++ [EvCall (LocFill locator text) (Ok tt);
                          EvCall (LocInputValue locator) (Ok text)]
                      ++ tr2)%list)
       /\ (forall v, In (Ok v) (read_backs (trace_of r)) -> v <> text ->
             outcome_of r = Throw (validation_error text v)))
    /\ (fill_validate options = Js.Boolean false ->
          read_backs (trace_of r) = []).
Proof.
  intros locator text options st r. subst r.
  unfold fillInput, waitForElement.
  split.
  - intros Hv.
    assert (Hs : Js.strict_not_false (fill_validate options) = true).
    { destruct (fill_validate options) as [| |[|]| |]; try reflexivity.
      contradiction Hv; reflexivity. }
    rewrite Hs. split.
    + intros u. run; try discriminate.
      destruct (String.eqb_spec a2 text) as [->|Hne]; simpl; try discriminate.
      intros _. split; [reflexivity|].
      destruct a0, a1.
      eexists (cons _ (cons _ (cons _ nil))), (cons _ nil). reflexivity.
    + intros v. run;
        try match goal with
            | |- context [String.eqb ?a text] =>
                destruct (String.eqb_spec a text) as [->|Hne]; simpl
            end;
        intros Hin Hv'; simpl in Hin;
        repeat match goal with
               | H : _ \/ _ |- _ => destruct H
               | H : False |- _ => destruct H
               | H : Ok _ = Ok _ |- _ => injection H as ->
               | H : Throw _ = Ok _ |- _ => discriminate H
               end;
        try contradiction; reflexivity.
  - intros Hv. rewrite Hv. run; reflexivity.
Qed.

(** *** Traces of goto *)

Lemma filter_goto_app (t1 t2 : Trace) :
  filter is_goto (t1 ++ t2) = (filter is_goto t1 ++ filter is_goto t2)%list.
Proof. apply filter_app. Qed.

Lemma attempts_app (t1 t2 : Trace) :
  attempts (t1 ++ t2) = (attempts t1 + attempts t2)%nat.
Proof. unfold attempts. rewrite filter_app, length_app. reflexivity. Qed.

Lemma no_goto_conditions (tr : Trace) :
  filter is_goto tr = [] -> goto_conditions tr = [] /\ goto_errors tr = [].
Proof.
  induction tr as [|ev tr IH]; simpl; [auto|].
  destruct ev as [T c r|lvl msg]; simpl; [|exact IH].
  destruct c; simpl; try exact IH; discriminate.
Qed.

Lemma goto_conditions_app (t1 t2 : Trace) :
  goto_conditions (t1 ++ t2) = (goto_conditions t1 ++ goto_conditions t2)%list.
Proof.
  induction t1 as [|ev t1 IH]; simpl; [reflexivity|].
  destruct ev as [T c r|lvl msg]; simpl; [|exact IH].
  destruct c; simpl; try exact IH. rewrite IH. reflexivity.
Qed.

Lemma goto_errors_app (t1 t2 : Trace) :
  goto_errors (t1 ++ t2) = (goto_errors t1 ++ goto_errors t2)%list.
Proof.
  induction t1 as [|ev t1 IH]; simpl; [reflexivity|].
  destruct ev as [T c r|lvl msg]; simpl; [|exact IH].
  destruct c; simpl; try exact IH. destruct r; simpl; rewrite IH; reflexivity.
Qed.

Lemma waits_between_quiet (started : bool) (acc : Z) (t1 t2 : Trace) :
  filter is_goto t1 = [] ->
  waits_between_from started acc (t1 ++ t2)
  = waits_between_from started (acc + timer_total t1) t2.
Proof.
  revert acc. induction t1 as [|ev t1 IH]; intros acc H; simpl.
  - f_equal. lia.
  - simpl in H. destruct (is_goto ev); [discriminate|].
    rewrite IH by exact H. f_equal. lia.
Qed.

Lemma waits_between_no_goto (started : bool) (acc : Z) (tr : Trace) :
  filter is_goto tr = [] -> waits_between_from started acc tr = [].
Proof.
  intros H. rewrite <- (app_nil_r tr).
  rewrite waits_between_quiet by exact H. reflexivity.
Qed.

(** One iteration of the loop of [goto]: it starts with the [page.goto]
    call, made with the wait-until condition of the attempt, and makes no
    other; what follows depends on the outcome of that call. *)
Lemma goto_attempt_inv :
  forall url maxRetries attempt o (st : Store W) flow st1 tr1,
    goto_attempt perform url maxRetries attempt o st = (flow, st1, tr1) ->
    let o1 := mkGotoOptions (timeout o) (attempt_waitUntil attempt) in
    exists g w1 rest,
      perform unit (PageGoto url o1) (browser st) = (g, w1)
      /\ tr1 = EvCall (PageGoto url o1) g :: rest
      /\ filter is_goto rest = []
      /\ match g with
         | Ok _ => flow = Ok Return /\ filter is_timer rest = []
         | Throw e =>
             if isNetworkError e && Js.lt_num attempt maxRetries
             then (exists o', flow = Ok (Continue o')
                              /\ timer_total rest
                                 = backoff (is_http2_error e)
                                           (is_connection_reset e) attempt)
                  \/ (exists e' ms w2 w3,
                        perform unit (PageWaitForTimeout ms) w2 = (Throw e', w3)
                        /\ flow = Throw e')
             else flow = Throw e /\ filter is_timer rest = []
         end.
Proof.
  intros url maxRetries attempt o st flow st1 tr1 H o1.
  unfold goto_attempt in H. fold o1 in H.
  invert_run H;
    (eexists _, _, _; split; [reflexivity|]; split; [reflexivity|];
     split; [reflexivity|]);
    try (split; reflexivity);
    try rewrite C; try rewrite C0;
    try (split; reflexivity);
    try (left; eexists; split; [reflexivity|];
         unfold backoff, is_http2_error, is_connection_reset, timer_total;
         simpl;
         repeat match goal with H : Js.includes _ _ = _ |- _ => rewrite H end;
         unfold waitTime; lia);
    try (right; eexists _, _, _, _; split; [eassumption|reflexivity]).
Qed.

(** The loop of [goto], one iteration unfolded. *)
Lemma goto_loop_step :
  forall fuel url maxRetries attempt o (st : Store W),
    goto_loop perform (S fuel) url maxRetries attempt o st =
    if Js.le_num attempt maxRetries then
      match goto_attempt perform url maxRetries attempt o st with
      | (Ok (Continue o'), st1, tr1) =>
          match goto_loop perform fuel url maxRetries (attempt + 1) o' st1 with
          | (r, st2, tr2) => (r, st2, tr1 ++ tr2)
          end
      | (Ok Return, st1, tr1) => (Ok tt, st1, tr1 ++ [])
      | (Throw e, st1, tr1) => (Throw e, st1, tr1)
      end
    else (Ok tt, st, []).
Proof.
  intros. simpl. destruct (Js.le_num attempt maxRetries); [|reflexivity].
  unfold bind.
  destruct (goto_attempt perform url maxRetries attempt o st)
    as [[[[o'|]|e] st1] tr1]; reflexivity.
Qed.

(** The loop never needs more fuel than the iterations that are left. *)
Lemma goto_loop_fuel_enough :
  forall fuel url maxRetries attempt o (st : Store W),
    (Z.to_nat (Js.floor maxRetries - attempt + 1) <= fuel)%nat ->
    goto_loop perform fuel url maxRetries attempt o st
    = goto_loop perform (Z.to_nat (Js.floor maxRetries - attempt + 1)) url
                maxRetries attempt o st.
Proof.
  induction fuel as [|fuel IH]; intros url maxRetries attempt o st Hle.
  - replace (Z.to_nat (Js.floor maxRetries - attempt + 1)) with O by lia.
    reflexivity.
  - destruct (Z.leb_spec attempt (Js.floor maxRetries)) as [Ha|Ha].
    + replace (Z.to_nat (Js.floor maxRetries - attempt + 1))
        with (S (Z.to_nat (Js.floor maxRetries - (attempt + 1) + 1))) by lia.
      rewrite !goto_loop_step.
      destruct (Js.le_num attempt maxRetries); [|reflexivity].
      destruct (goto_attempt perform url maxRetries attempt o st)
        as [[[[o'|]|e] st1] tr1]; try reflexivity.
      rewrite IH by lia. reflexivity.
    + replace (Z.to_nat (Js.floor maxRetries - attempt + 1)) with O by lia.
      rewrite goto_loop_step. unfold Js.le_num.
      destruct (Z.leb_spec attempt (Js.floor maxRetries)); [lia|reflexivity].
Qed.

(** The fuel [goto] starts with covers the whole loop: with any amount
    more, the run is the same. *)
Lemma goto_fuel_irrelevant :
  forall extra url options (st : Store W),
    goto_loop perform (Z.to_nat (Js.floor (maxRetries_of options)) + extra)
      url (maxRetries_of options) 1
      (mkGotoOptions (Js.num_or (nav_timeout options) 120000)
         (Js.str_or (nav_waitUntil options) "domcontentloaded")) st
    = goto perform url options st.
Proof.
  intros extra url options st. unfold goto.
  rewrite goto_loop_fuel_enough by lia.
  symmetry. apply goto_loop_fuel_enough. lia.
Qed.

(** *** Wait-until escalation *)

Lemma attempt_waitUntil_escalation (n : nat) :
  (1 <= n)%nat -> attempt_waitUntil (Z.of_nat n) = escalation n.
Proof.
  intros H. unfold attempt_waitUntil, escalation.
  destruct n as [|[|[|n]]]; try lia; try reflexivity.
  destruct (Z.eqb_spec (Z.of_nat (S (S (S n)))) 1); [lia|].
  destruct (Z.eqb_spec (Z.of_nat (S (S (S n)))) 2); [lia|].
  destruct (Z.of_nat (S (S (S n))) >? 3); reflexivity.
Qed.

Lemma goto_loop_conditions :
  forall fuel url maxRetries (n : nat) o (st : Store W),
    (1 <= n)%nat ->
    let tr := trace_of (goto_loop perform fuel url maxRetries (Z.of_nat n) o st) in
    goto_conditions tr = map escalation (seq n (attempts tr)).
Proof.
  induction fuel as [|fuel IH]; intros url maxRetries n o st Hn; [reflexivity|].
  cbv zeta. rewrite goto_loop_step.
  destruct (Js.le_num (Z.of_nat n) maxRetries); [|reflexivity].
  destruct (goto_attempt perform url maxRetries (Z.of_nat n) o st)
    as [[flow st1] tr1] eqn:Hstep.
  destruct (goto_attempt_inv _ _ _ _ _ _ _ _ Hstep)
    as (g & w1 & rest & _ & -> & Hquiet & _).
  destruct (no_goto_conditions _ Hquiet) as [Hc _].
  assert (Hone : forall tr2 : Trace,
             goto_conditions ((EvCall (PageGoto url
                 (mkGotoOptions (timeout o) (attempt_waitUntil (Z.of_nat n)))) g
                 :: rest) ++ tr2)
             = escalation n :: goto_conditions tr2
             /\ attempts ((EvCall (PageGoto url
                 (mkGotoOptions (timeout o) (attempt_waitUntil (Z.of_nat n)))) g
                 :: rest) ++ tr2) = S (attempts tr2)).
  { intros tr2. split.
    - rewrite goto_conditions_app. simpl. rewrite Hc.
      rewrite attempt_waitUntil_escalation by exact Hn. reflexivity.
    - rewrite attempts_app. unfold attempts at 2. simpl. rewrite Hquiet.
      reflexivity. }
  destruct flow as [[o'|]|e].
  - specialize (IH url maxRetries (S n) o' st1 ltac:(lia)). cbv zeta in IH.
    replace (Z.of_nat (S n)) with (Z.of_nat n + 1) in IH by lia.
    destruct (goto_loop perform fuel url maxRetries (Z.of_nat n + 1) o' st1)
      as [[r st2] tr2].
    unfold trace_of in *. cbn [snd fst] in IH |- *.
    destruct (Hone tr2) as [-> ->]. simpl. rewrite IH. reflexivity.
  - unfold trace_of. cbn [snd fst]. destruct (Hone []) as [-> ->]. reflexivity.
  - unfold trace_of. cbn [snd fst]. rewrite <- (app_nil_r (_ :: rest)).
    destruct (Hone []) as [-> ->]. reflexivity.
Qed.

(** C6. Whatever the outcomes of the attempts, the [page.goto] calls of a
    [goto] use the escalating wait-until conditions: content loaded for
    the first call, full load for the second, network idle for the third
    and every later one. *)
Theorem goto_escalates_waitUntil :
  forall (url : string) (options : NavOptions) (st : Store W),
    let tr := trace_of (goto perform url options st) in
    goto_conditions tr = map escalation (seq 1 (attempts tr)).
Proof.
  intros url options st. unfold goto.
  apply (goto_loop_conditions _ url (maxRetries_of options) 1%nat). lia.
Qed.

(** *** Backoff *)

Lemma waitTime_mono (a b : Z) : a <= b -> waitTime a <= waitTime b.
Proof. unfold waitTime. lia. Qed.

Lemma backoff_mono (http2 reset : bool) (a b : Z) :
  a <= b -> backoff http2 reset a <= backoff http2 reset b.
Proof.
  intros H. pose proof (waitTime_mono a b H). unfold backoff.
  destruct http2, reset; lia.
Qed.

Lemma backoff_nonneg (http2 reset : bool) (a : Z) :
  1 <= a -> 0 <= backoff http2 reset a.
Proof.
  intros H. unfold backoff, waitTime.
  destruct http2, reset; lia.
Qed.

Lemma nondecreasing_from_weaken (b b' : Z) (l : list Z) :
  b' <= b -> nondecreasing_from b l -> nondecreasing_from b' l.
Proof. destruct l as [|x l]; simpl; [auto|]. intros H [H1 H2]. split; [lia|auto]. Qed.

Lemma nondecreasing_from_sorted (b : Z) (l : list Z) :
  nondecreasing_from b l -> Sorted Z.le l /\ Forall (fun d => b <= d) l.
Proof.
  revert b. induction l as [|x l IH]; intros b H; simpl in H.
  - split; constructor.
  - destruct H as [Hb Hx]. destruct (IH x Hx) as [Hs Hf]. split.
    + constructor; [exact Hs|]. destruct l as [|y l]; constructor.
      simpl in Hx. tauto.
    + constructor; [exact Hb|].
      eapply Forall_impl; [|exact Hf]. simpl. intros; lia.
Qed.

Lemma goto_loop_waits :
  forall fuel url maxRetries attempt o (st : Store W) http2 reset,
    1 <= attempt ->
    let tr := trace_of (goto_loop perform fuel url maxRetries attempt o st) in
    Forall (fun e => is_http2_error e = http2 /\ is_connection_reset e = reset)
           (goto_errors tr) ->
    forall started acc, exists l,
      nondecreasing_from (backoff http2 reset attempt) l
      /\ (waits_between_from started acc tr = []
          \/ waits_between_from started acc tr
             = (if started then [acc] else []) ++ l).
Proof.
  induction fuel as [|fuel IH];
    intros url maxRetries attempt o st http2 reset Ha; cbv zeta.
  - intros _ started acc. exists []. simpl. auto.
  - rewrite goto_loop_step.
    destruct (Js.le_num attempt maxRetries);
      [|intros _ started acc; exists []; simpl; auto].
    destruct (goto_attempt perform url maxRetries attempt o st)
      as [[flow st1] tr1] eqn:Hstep.
    destruct (goto_attempt_inv _ _ _ _ _ _ _ _ Hstep)
      as (g & w1 & rest & _ & -> & Hquiet & Hcase).
    destruct (no_goto_conditions _ Hquiet) as [_ Herr].
    destruct flow as [[o'|]|e].
    + (* the attempt failed and the loop goes on *)
      destruct g as [u|e]; [destruct Hcase; discriminate|].
      destruct (isNetworkError e && Js.lt_num attempt maxRetries);
        [|destruct Hcase; discriminate].
      destruct Hcase as [(o'' & _ & Htotal)|(e' & ms & w2 & w3 & _ & Habs)];
        [|discriminate].
      specialize (IH url maxRetries (attempt + 1) o' st1 http2 reset
                     ltac:(lia)).
      cbv zeta in IH.
      destruct (goto_loop perform fuel url maxRetries (attempt + 1) o' st1)
        as [[r st2] tr2].
      unfold trace_of in *. cbn [snd fst] in IH |- *.
      intros Hcls started acc.
      rewrite goto_errors_app in Hcls. simpl in Hcls. rewrite Herr in Hcls.
      simpl in Hcls. inversion Hcls as [|? ? [Hh Hr] Hcls2]; subst.
      destruct (IH Hcls2 true
                   (0 + backoff (is_http2_error e) (is_connection_reset e)
                                attempt))
        as (l' & Hl' & Hwb).
      change ((EvCall (PageGoto url {| timeout := timeout o;
                  waitUntil := attempt_waitUntil attempt |}) (Throw e)
               :: rest) ++ tr2)
        with (EvCall (PageGoto url {| timeout := timeout o;
                  waitUntil := attempt_waitUntil attempt |}) (Throw e)
               :: (rest ++ tr2)).
      cbn [waits_between_from is_goto].
      rewrite waits_between_quiet by exact Hquiet. rewrite Htotal.
      destruct Hwb as [-> | ->].
      * exists []. split; [exact I|]. right. reflexivity.
      * exists ((0 + backoff (is_http2_error e) (is_connection_reset e)
                             attempt) :: l').
        split; [|right; reflexivity].
        simpl. split; [lia|].
        apply nondecreasing_from_weaken with (2 := Hl').
        pose proof (backoff_mono (is_http2_error e) (is_connection_reset e)
                                 attempt (attempt + 1)). lia.
    + (* the attempt succeeded *)
      intros _ started acc. exists []. split; [exact I|]. right.
      unfold trace_of. cbn [snd fst]. rewrite app_nil_r.
      cbn [waits_between_from is_goto].
      rewrite waits_between_no_goto by exact Hquiet. reflexivity.
    + (* the attempt failed for good *)
      intros _ started acc. exists []. split; [exact I|]. right.
      unfold trace_of. cbn [snd fst].
      cbn [waits_between_from is_goto].
      rewrite waits_between_no_goto by exact Hquiet. reflexivity.
Qed.

(** An error of the protocol class is an HTTP/2 protocol error, and no
    other is. *)
Lemma spec_class_http2 (e : Js.Error) (cls : SpecClass) :
  spec_class e = cls ->
  is_http2_error e = match cls with ClassProtocol => true | _ => false end.
Proof.
  unfold spec_class. cbv zeta. intros <-.
  destruct (is_http2_error e); [reflexivity|].
  destruct (Js.includes (Js.toLowerCase (Js.message e)) "timeout"
            || String.eqb (Js.name e) "TimeoutError"); [reflexivity|].
  destruct (Js.includes (Js.toLowerCase (Js.message e)) "net::"
            || Js.includes (Js.toLowerCase (Js.message e)) "err_connection");
    reflexivity.
Qed.

(** C5, as the code has it.  When the failed attempts of a [goto] all
    have the same error class, and are all connection resets or none of
    them is, the waits made between successive attempts are non-negative
    and non-decreasing from one attempt to the next. *)
Theorem goto_backoff_nondecreasing :
  forall (url : string) (options : NavOptions) (st : Store W)
         (cls : SpecClass) (reset : bool),
    let tr := trace_of (goto perform url options st) in
    Forall (fun e => spec_class e = cls /\ is_connection_reset e = reset)
           (goto_errors tr) ->
    Sorted Z.le (waits_between tr)
    /\ Forall (fun d => 0 <= d) (waits_between tr).
Proof.
  intros url options st cls reset tr Hcls. subst tr. unfold goto in *.
  set (http2 := match cls with ClassProtocol => true | _ => false end).
  assert (Htests : Forall (fun e => is_http2_error e = http2
                                    /\ is_connection_reset e = reset)
                     (goto_errors (trace_of
                        (goto_loop perform
                           (Z.to_nat (Js.floor (maxRetries_of options))) url
                           (maxRetries_of options) 1
                           (mkGotoOptions
                              (Js.num_or (nav_timeout options) 120000)
                              (Js.str_or (nav_waitUntil options)
                                         "domcontentloaded")) st)))).
  { eapply Forall_impl; [|exact Hcls]. cbv beta. intros e [Hc Hr].
    split; [exact (spec_class_http2 e cls Hc)|exact Hr]. }
  destruct (goto_loop_waits _ url (maxRetries_of options) 1 _ st http2 reset
              ltac:(lia) Htests false 0) as (l & Hl & Hwb).
  unfold waits_between.
  destruct Hwb as [-> | ->]; [split; constructor|].
  simpl. destruct (nondecreasing_from_sorted _ _ Hl) as [Hs Hf].
  split; [exact Hs|].
  eapply Forall_impl; [|exact Hf]. simpl. intros d Hd.
  pose proof (backoff_nonneg http2 reset 1). lia.
Qed.

(** *** Number of attempts *)

Lemma goto_loop_exhausts :
  always_transient perform -> timers_fire perform ->
  forall fuel url N attempt o (st : Store W),
    attempt <= N ->
    fuel = Z.to_nat (N - attempt + 1) ->
    exists e earlier st' tr,
      goto_loop perform fuel url (Js.Whole N) attempt o st = (Throw e, st', tr)
      /\ isNetworkError e = true
      /\ attempts tr = fuel
      /\ goto_errors tr = earlier ++ [e]
      /\ S (List.length earlier) = fuel.
Proof.
  intros Hnav Htimer.
  induction fuel as [|fuel IH]; intros url N attempt o st Hle Hfuel; [lia|].
  rewrite goto_loop_step. unfold Js.le_num. cbn [Js.floor].
  destruct (Z.leb_spec attempt N) as [_|]; [|lia].
  destruct (goto_attempt perform url (Js.Whole N) attempt o st)
    as [[flow st1] tr1] eqn:Hstep.
  destruct (goto_attempt_inv _ _ _ _ _ _ _ _ Hstep)
    as (g & w1 & rest & Hg & -> & Hquiet & Hcase).
  destruct (no_goto_conditions _ Hquiet) as [_ Herr].
  destruct (Hnav url (mkGotoOptions (timeout o) (attempt_waitUntil attempt))
              (browser st)) as (e & w' & Hthrow & Hnet).
  rewrite Hthrow in Hg. injection Hg as <- <-.
  rewrite Hnet in Hcase. unfold Js.lt_num in Hcase. cbn [Js.ceil] in Hcase.
  simpl in Hcase.
  destruct (Z.ltb_spec attempt N) as [Hlt|Hge].
  - destruct Hcase as [(o' & -> & Htotal)|(e' & ms & w2 & w3 & Habs & _)].
    + destruct (IH url N (attempt + 1) o' st1 ltac:(lia) ltac:(lia))
        as (e2 & earlier & st2 & tr2 & -> & Hnet2 & Hatt & Hlast & Hlen).
      exists e2, (e :: earlier). eexists _, _.
      split; [reflexivity|]. split; [exact Hnet2|]. split; [|split].
      * rewrite attempts_app. unfold attempts at 1. simpl. rewrite Hquiet.
        simpl. rewrite Hatt. reflexivity.
      * rewrite goto_errors_app. simpl. rewrite Herr, Hlast. reflexivity.
      * simpl. rewrite Hlen. reflexivity.
    + destruct (Htimer ms w2) as (w4 & Hok). congruence.
  - destruct Hcase as [-> Hnotimer].
    exists e, []. eexists _, _.
    split; [reflexivity|]. split; [exact Hnet|].
    assert (fuel = O) by lia. subst fuel. split; [|split].
    + unfold attempts. simpl. rewrite Hquiet. reflexivity.
    + simpl. rewrite Herr. reflexivity.
    + reflexivity.
Qed.

(** C1, as the code has it.  With [N = options.retries || 3] a whole
    number that is at least 1, on a page where every navigation fails
    with an error of the retried kind (and the timer works), [goto] makes
    exactly [N] calls of [page.goto], the first attempt and [N - 1]
    retries, and then throws the error of the last of them: the [N]
    calls have all failed, and what [goto] throws is the error of the
    [N]th. *)
Theorem goto_exhausts_after_maxRetries_attempts :
  forall (url : string) (options : NavOptions) (st : Store W) (N : Z),
    always_transient perform ->
    timers_fire perform ->
    maxRetries_of options = Js.Whole N ->
    1 <= N ->
    exists e earlier,
      outcome_of (goto perform url options st) = Throw e
      /\ isNetworkError e = true
      /\ attempts (trace_of (goto perform url options st)) = Z.to_nat N
      /\ goto_errors (trace_of (goto perform url options st))
         = earlier ++ [e]
      /\ List.length earlier = Z.to_nat (N - 1).
Proof.
  intros url options st N Hnav Htimer Hwhole HN. unfold goto.
  rewrite Hwhole. cbn [Js.floor].
  destruct (goto_loop_exhausts Hnav Htimer (Z.to_nat N) url N 1
              (mkGotoOptions (Js.num_or (nav_timeout options) 120000)
                 (Js.str_or (nav_waitUntil options) "domcontentloaded"))
              st ltac:(lia) ltac:(lia))
    as (e & earlier & st' & tr & -> & Hnet & Hatt & Hlast & Hlen).
  exists e, earlier. repeat split; auto. lia.
Qed.

(** *** Failures that are not retried *)

Lemma goto_fails_fast :
  forall (url : string) (options : NavOptions) (st : Store W) e w',
    1 <= Js.floor (maxRetries_of options) ->
    perform unit
      (PageGoto url (mkGotoOptions (Js.num_or (nav_timeout options) 120000)
                                   "domcontentloaded"))
      (browser st) = (Throw e, w') ->
    isNetworkError e = false ->
    let r := goto perform url options st in
    outcome_of r = Throw e
    /\ attempts (trace_of r) = 1%nat
    /\ filter is_timer (trace_of r) = [].
Proof.
  intros url options st e w' HN Hthrow Hnet r. subst r. unfold goto.
  destruct (Z.to_nat (Js.floor (maxRetries_of options))) as [|fuel] eqn:Hfuel;
    [lia|].
  rewrite goto_loop_step. unfold Js.le_num.
  destruct (Z.leb_spec 1 (Js.floor (maxRetries_of options))) as [_|]; [|lia].
  match goal with
  | |- context [goto_attempt perform ?u ?m ?a ?o ?s] =>
      destruct (goto_attempt perform u m a o s) as [[flow st1] tr1] eqn:Hstep
  end.
  destruct (goto_attempt_inv _ _ _ _ _ _ _ _ Hstep)
    as (g & w1 & rest & Hg & -> & Hquiet & Hcase).
  simpl in Hg. change (attempt_waitUntil 1) with "domcontentloaded" in Hg.
  rewrite Hthrow in Hg. injection Hg as <- <-.
  rewrite Hnet in Hcase. simpl in Hcase. destruct Hcase as [-> Hnotimer].
  unfold outcome_of, trace_of, attempts. simpl.
  rewrite Hquiet, Hnotimer. auto.
Qed.

Lemma clickElement_once :
  forall (locator : Locator) (options : ClickOptions) (st : Store W),
    let r := clickElement perform locator options st in
    (List.length (click_outcomes (trace_of r)) <= 1)%nat
    /\ filter is_timer (trace_of r) = []
    /\ (In (Ok false) (enabled_checks (trace_of r)) ->
          outcome_of r = Throw (Js.new_Error "Element is not enabled")
          /\ click_outcomes (trace_of r) = [])
    /\ (forall e, In (Throw e) (click_outcomes (trace_of r)) ->
          outcome_of r = Throw e).
Proof.
  intros locator options st r. subst r.
  unfold clickElement, waitForElement.
  destruct (Js.falsy (click_force options)); run;
    (split; [lia|]); (split; [reflexivity|]);
    (split; [intros H|intros e0 H]); simpl in H;
    repeat match goal with
           | H : _ \/ _ |- _ => destruct H
           | H : False |- _ => destruct H
           | H : Ok true = Ok false |- _ => discriminate H
           | H : Throw _ = Ok _ |- _ => discriminate H
           | H : Ok _ = Throw _ |- _ => discriminate H
           | H : Throw _ = Throw _ |- _ => injection H as ->
           end;
    auto.
Qed.

(** C4, as the code has it.  A failure that fails the test of the
    [catch] block of [goto] is passed on at once: when the first
    [page.goto] throws an error for which [isNetworkError] is false, one
    whose name is not [TimeoutError] and whose message holds none of the
    words the test looks for, [page.goto] among them, [goto] throws that
    error after this single attempt, without a backoff wait.
    [clickElement] never retries: it clicks at most once and never waits
    on the timer; when the element is found disabled it throws without
    clicking, and when the click is rejected it throws the rejection. *)
Theorem rejected_action_fails_fast :
  forall (url : string) (options : NavOptions) (st : Store W) e w',
    1 <= Js.floor (maxRetries_of options) ->
    perform unit
      (PageGoto url (mkGotoOptions (Js.num_or (nav_timeout options) 120000)
                                   "domcontentloaded"))
      (browser st) = (Throw e, w') ->
    isNetworkError e = false ->
    (let r := goto perform url options st in
     outcome_of r = Throw e
     /\ attempts (trace_of r) = 1%nat
     /\ filter is_timer (trace_of r) = [])
    /\ (forall (locator : Locator) (copts : ClickOptions) (st0 : Store W),
          let r := clickElement perform locator copts st0 in
          (List.length (click_outcomes (trace_of r)) <= 1)%nat
          /\ filter is_timer (trace_of r) = []
          /\ (In (Ok false) (enabled_checks (trace_of r)) ->
                outcome_of r = Throw (Js.new_Error "Element is not enabled")
                /\ click_outcomes (trace_of r) = [])
          /\ (forall e0, In (Throw e0) (click_outcomes (trace_of r)) ->
                outcome_of r = Throw e0)).
Proof.
  intros url options st e w' HN Hthrow Hnet. split.
  - exact (goto_fails_fast url options st e w' HN Hthrow Hnet).
  - intros locator copts st0. exact (clickElement_once locator copts st0).
Qed.

(** *** Candidate resolution *)

(** The loop over the username candidates, one iteration unfolded. *)
Lemma findUsernameField_step :
  forall i c rest (st : Store W),
    findUsernameField perform i (c :: rest) st =
    match perform unit (LocWaitFor c "visible" (Some 10000)) (browser st) with
    | (Ok u, w') =>
        (Ok (Some c), mkStore w' (formNameInput st),
         [EvCall (LocWaitFor c "visible" (Some 10000)) (Ok u);
          EvLog Info ("Username field found using selector "
                      ++ Js.num (Z.of_nat i + 1))%string])
    | (Throw e, w') =>
        match findUsernameField perform (S i) rest
                (mkStore w' (formNameInput st)) with
        | (r, st2, tr2) =>
            (r, st2,
             EvCall (LocWaitFor c "visible" (Some 10000)) (Throw e)
             :: EvLog Debug ("Username selector " ++ Js.num (Z.of_nat i + 1)
                             ++ " not found, trying next...")%string
             :: tr2)
        end
    end.
Proof.
  intros i c rest st. simpl. unfold_monad.
  destruct (perform unit (LocWaitFor c "visible" (Some 10000)) (browser st))
    as [[u|e] w']; simpl; [reflexivity|].
  destruct (findUsernameField perform (S i) rest
              {| browser := w'; formNameInput := formNameInput st |})
    as [[r st2] tr2]. reflexivity.
Qed.

(** The loop over the name-input candidates, one iteration unfolded. *)
Lemma findNameInput_step :
  forall i c rest (st : Store W),
    findNameInput perform i (c :: rest) st =
    match perform bool (LocIsVisible c 5000) (browser st) with
    | (Ok true, w') =>
        (Ok (Some c), mkStore w' (formNameInput st),
         [EvCall (LocIsVisible c 5000) (Ok true);
          EvLog Info ("Found Form name input using selector "
                      ++ Js.num (Z.of_nat i + 1))%string])
    | (r0, w') =>
        match findNameInput perform (S i) rest
                (mkStore w' (formNameInput st)) with
        | (r, st2, tr2) => (r, st2, EvCall (LocIsVisible c 5000) r0 :: tr2)
        end
    end.
Proof.
  intros i c rest st. simpl. unfold_monad.
  destruct (perform bool (LocIsVisible c 5000) (browser st))
    as [[[|]|e] w']; simpl; [reflexivity| |];
    destruct (findNameInput perform (S i) rest
                {| browser := w'; formNameInput := formNameInput st |})
      as [[r st2] tr2]; reflexivity.
Qed.

(** Neither loop throws. *)
Lemma findUsernameField_total :
  forall sels i (st : Store W),
    exists res st' tr, findUsernameField perform i sels st = (Ok res, st', tr).
Proof.
  induction sels as [|c rest IH]; intros i st.
  - eexists _, _, _. reflexivity.
  - rewrite findUsernameField_step.
    destruct (perform unit (LocWaitFor c "visible" (Some 10000)) (browser st))
      as [[u|e] w'].
    + eexists _, _, _. reflexivity.
    + destruct (IH (S i) (mkStore w' (formNameInput st)))
        as (res & st' & tr & ->).
      eexists _, _, _. reflexivity.
Qed.

Lemma findNameInput_total :
  forall sels i (st : Store W),
    exists res st' tr, findNameInput perform i sels st = (Ok res, st', tr).
Proof.
  induction sels as [|c rest IH]; intros i st.
  - eexists _, _, _. reflexivity.
  - rewrite findNameInput_step.
    destruct (perform bool (LocIsVisible c 5000) (browser st))
      as [[[|]|e] w'].
    + eexists _, _, _. reflexivity.
    + destruct (IH (S i) (mkStore w' (formNameInput st)))
        as (res & st' & tr & ->).
      eexists _, _, _. reflexivity.
    + destruct (IH (S i) (mkStore w' (formNameInput st)))
        as (res & st' & tr & ->).
      eexists _, _, _. reflexivity.
Qed.

(** C8. A candidate whose probe throws counts as not found, for that
    candidate only.  In the username loop of [login] and in the
    name-input loop of [fillFormCreationForm], when the probe of the
    first candidate throws, the loop goes on with the remaining
    candidates and ends as the loop over them ends; and neither loop
    ever throws, whatever the probes do. *)
Theorem throwing_probe_is_skipped :
  forall (i : nat) (c : Locator) (rest : list Locator) (st : Store W)
         (e1 e2 : Js.Error) (w1 w2 : W),
    perform unit (LocWaitFor c "visible" (Some 10000)) (browser st)
      = (Throw e1, w1) ->
    perform bool (LocIsVisible c 5000) (browser st) = (Throw e2, w2) ->
    (let r := findUsernameField perform (S i) rest
                (mkStore w1 (formNameInput st)) in
     findUsernameField perform i (c :: rest) st
     = (outcome_of r, store_of r,
        EvCall (LocWaitFor c "visible" (Some 10000)) (Throw e1)
        :: EvLog Debug ("Username selector " ++ Js.num (Z.of_nat i + 1)
                        ++ " not found, trying next...")%string
        :: trace_of r))
    /\ (let r := findNameInput perform (S i) rest
                   (mkStore w2 (formNameInput st)) in
        findNameInput perform i (c :: rest) st
        = (outcome_of r, store_of r,
           EvCall (LocIsVisible c 5000) (Throw e2) :: trace_of r))
    /\ (forall sels j (st0 : Store W),
          exists res st' tr,
            findUsernameField perform j sels st0 = (Ok res, st', tr))
    /\ (forall sels j (st0 : Store W),
          exists res st' tr,
            findNameInput perform j sels st0 = (Ok res, st', tr)).
Proof.
  intros i c rest st e1 e2 w1 w2 H1 H2.
  split; [|split; [|split]].
  - cbv zeta. rewrite findUsernameField_step, H1.
    destruct (findUsernameField perform (S i) rest (mkStore w1 (formNameInput st)))
      as [[r st2] tr2]. reflexivity.
  - cbv zeta. rewrite findNameInput_step, H2.
    destruct (findNameInput perform (S i) rest (mkStore w2 (formNameInput st)))
      as [[r st2] tr2]. reflexivity.
  - exact findUsernameField_total.
  - exact findNameInput_total.
Qed.

(** The probes of the username loop follow the list, stop at the first
    candidate that is found, and return it. *)
Lemma findUsernameField_in_order :
  forall sels i (st : Store W),
    let r := findUsernameField perform i sels st in
    match outcome_of r with
    | Ok (Some c) =>
        exists pre post,
          sels = pre ++ c :: post
          /\ waitFor_results (trace_of r) = all_missed pre ++ [(c, true)]
    | Ok None => waitFor_results (trace_of r) = all_missed sels
    | Throw _ => False
    end.
Proof.
  induction sels as [|c rest IH]; intros i st; cbv zeta; [reflexivity|].
  rewrite findUsernameField_step.
  destruct (perform unit (LocWaitFor c "visible" (Some 10000)) (browser st))
    as [[u|e] w'].
  - exists [], rest. split; reflexivity.
  - specialize (IH (S i) (mkStore w' (formNameInput st))). cbv zeta in IH.
    destruct (findUsernameField perform (S i) rest (mkStore w' (formNameInput st)))
      as [[[[c'|]|e'] st2] tr2]; unfold outcome_of, trace_of in *;
      cbn [fst snd] in *.
    + destruct IH as (pre & post & -> & Htr).
      exists (c :: pre), post. split; [reflexivity|].
      simpl. rewrite Htr. reflexivity.
    + simpl. rewrite IH. reflexivity.
    + exact IH.
Qed.

Lemma findNameInput_in_order :
  forall sels i (st : Store W),
    let r := findNameInput perform i sels st in
    match outcome_of r with
    | Ok (Some c) =>
        exists pre post,
          sels = pre ++ c :: post
          /\ isVisible_results (trace_of r) = all_missed pre ++ [(c, true)]
    | Ok None => isVisible_results (trace_of r) = all_missed sels
    | Throw _ => False
    end.
Proof.
  induction sels as [|c rest IH]; intros i st; cbv zeta; [reflexivity|].
  rewrite findNameInput_step.
  destruct (perform bool (LocIsVisible c 5000) (browser st))
    as [[[|]|e] w'].
  - exists [], rest. split; reflexivity.
  - specialize (IH (S i) (mkStore w' (formNameInput st))). cbv zeta in IH.
    destruct (findNameInput perform (S i) rest (mkStore w' (formNameInput st)))
      as [[[[c'|]|e'] st2] tr2]; unfold outcome_of, trace_of in *;
      cbn [fst snd] in *.
    + destruct IH as (pre & post & -> & Htr).
      exists (c :: pre), post. split; [reflexivity|].
      simpl. rewrite Htr. reflexivity.
    + simpl. rewrite IH. reflexivity.
    + exact IH.
  - specialize (IH (S i) (mkStore w' (formNameInput st))). cbv zeta in IH.
    destruct (findNameInput perform (S i) rest (mkStore w' (formNameInput st)))
      as [[[[c'|]|e'] st2] tr2]; unfold outcome_of, trace_of in *;
      cbn [fst snd] in *.
    + destruct IH as (pre & post & -> & Htr).
      exists (c :: pre), post. split; [reflexivity|].
      simpl. rewrite Htr. reflexivity.
    + simpl. rewrite IH. reflexivity.
    + exact IH.
Qed.

(** When the candidates before [c] are not found and [c] is, the
    username loop probes them in order, then [c], and returns [c]. *)
Lemma findUsernameField_first_match :
  forall pre c post i (st : Store W),
    (forall l, In l pre -> never_appears perform l) ->
    appears perform c ->
    let r := findUsernameField perform i (pre ++ c :: post) st in
    outcome_of r = Ok (Some c)
    /\ waitFor_results (trace_of r) = all_missed pre ++ [(c, true)].
Proof.
  induction pre as [|p pre IH]; intros c post i st Hpre Hc; cbv zeta.
  - simpl app. rewrite findUsernameField_step.
    destruct (Hc "visible" (Some 10000) (browser st)) as (w' & ->).
    split; reflexivity.
  - simpl app. rewrite findUsernameField_step.
    destruct (Hpre p (or_introl eq_refl) "visible" (Some 10000) (browser st))
      as (e & w' & ->).
    destruct (IH c post (S i) (mkStore w' (formNameInput st))
                (fun l H => Hpre l (or_intror H)) Hc) as [Ho Ht].
    destruct (findUsernameField perform (S i) (pre ++ c :: post)
                (mkStore w' (formNameInput st))) as [[r st2] tr2].
    unfold outcome_of, trace_of in *. cbn [fst snd] in *.
    split; [exact Ho|]. simpl. rewrite Ht. reflexivity.
Qed.

Lemma findNameInput_first_match :
  forall pre c post i (st : Store W),
    (forall l, In l pre -> not_visible perform l) ->
    is_visible perform c ->
    let r := findNameInput perform i (pre ++ c :: post) st in
    outcome_of r = Ok (Some c)
    /\ isVisible_results (trace_of r) = all_missed pre ++ [(c, true)].
Proof.
  induction pre as [|p pre IH]; intros c post i st Hpre Hc; cbv zeta.
  - simpl app. rewrite findNameInput_step.
    destruct (Hc 5000 (browser st)) as (w' & ->).
    split; reflexivity.
  - simpl app. rewrite findNameInput_step.
    destruct (Hpre p (or_introl eq_refl) 5000 (browser st))
      as [(w' & ->)|(e & w' & ->)];
      destruct (IH c post (S i) (mkStore w' (formNameInput st))
                  (fun l H => Hpre l (or_intror H)) Hc) as [Ho Ht];
      destruct (findNameInput perform (S i) (pre ++ c :: post)
                  (mkStore w' (formNameInput st))) as [[r st2] tr2];
      unfold outcome_of, trace_of in *; cbn [fst snd] in *;
      (split; [exact Ho|]); simpl; rewrite Ht; reflexivity.
Qed.

(** C7. Resolution probes the candidates in list order and stops at the
    first one that is found.  For a list [pre ++ c :: post] in which the
    candidates of [pre] are not found and [c] is, both the username loop
    of [login] and the name-input loop of [fillFormCreationForm] probe
    the candidates of [pre] in order, then [c], return [c] and probe no
    candidate of [post], wherever [c] stands in the list.  On any page
    at all, the probes of a run are an initial part of the list that
    ends at the returned candidate, or the whole list when none is
    returned. *)
Theorem resolution_in_order_first_match :
  forall (pre : list Locator) (c : Locator) (post : list Locator)
         (i : nat) (st : Store W),
    (forall l, In l pre -> never_appears perform l /\ not_visible perform l) ->
    appears perform c ->
    is_visible perform c ->
    (let r := findUsernameField perform i (pre ++ c :: post) st in
     outcome_of r = Ok (Some c)
     /\ waitFor_results (trace_of r) = all_missed pre ++ [(c, true)])
    /\ (let r := findNameInput perform i (pre ++ c :: post) st in
        outcome_of r = Ok (Some c)
        /\ isVisible_results (trace_of r) = all_missed pre ++ [(c, true)])
    /\ (forall sels j (st0 : Store W),
          let r := findUsernameField perform j sels st0 in
          match outcome_of r with
          | Ok (Some c') =>
              exists pre' post',
                sels = pre' ++ c' :: post'
                /\ waitFor_results (trace_of r)
                   = all_missed pre' ++ [(c', true)]
          | Ok None => waitFor_results (trace_of r) = all_missed sels
          | Throw _ => False
          end)
    /\ (forall sels j (st0 : Store W),
          let r := findNameInput perform j sels st0 in
          match outcome_of r with
          | Ok (Some c') =>
              exists pre' post',
                sels = pre' ++ c' :: post'
                /\ isVisible_results (trace_of r)
                   = all_missed pre' ++ [(c', true)]
          | Ok None => isVisible_results (trace_of r) = all_missed sels
          | Throw _ => False
          end).
Proof.
  intros pre c post i st Hpre Hc1 Hc2.
  split; [|split; [|split]].
  - apply findUsernameField_first_match; [|exact Hc1].
    intros l Hl. exact (proj1 (Hpre l Hl)).
  - apply findNameInput_first_match; [|exact Hc2].
    intros l Hl. exact (proj2 (Hpre l Hl)).
  - exact findUsernameField_in_order.
  - exact findNameInput_in_order.
Qed.

(** *** Resolution that finds nothing *)

Ltac observation_app t1 :=
  let IH := fresh "IH" in
  induction t1 as [|[T c r|lvl msg] t1 IH]; simpl;
  [ reflexivity
  | destruct c; try destruct r; simpl; rewrite ?IH; reflexivity
  | exact IH ].

Lemma waitFor_results_app (t1 t2 : Trace) :
  waitFor_results (t1 ++ t2) = waitFor_results t1 ++ waitFor_results t2.
Proof. observation_app t1. Qed.

Lemma isVisible_results_app (t1 t2 : Trace) :
  isVisible_results (t1 ++ t2) = isVisible_results t1 ++ isVisible_results t2.
Proof. observation_app t1. Qed.

Lemma count_results_app (t1 t2 : Trace) :
  count_results (t1 ++ t2) = count_results t1 ++ count_results t2.
Proof. observation_app t1. Qed.

Lemma screenshot_outcomes_app (t1 t2 : Trace) :
  screenshot_outcomes (t1 ++ t2)
  = screenshot_outcomes t1 ++ screenshot_outcomes t2.
Proof. observation_app t1. Qed.

Lemma after_last_screenshot (tr : Trace) (ev : Event) :
  is_screenshot ev = true -> after_screenshot (tr ++ [ev]) = [].
Proof.
  intros Hev. induction tr as [|x tr IH]; simpl.
  - rewrite Hev. reflexivity.
  - rewrite existsb_app. simpl. rewrite Hev, orb_true_r. exact IH.
Qed.

(** The username loop makes no [count] query. *)
Lemma findUsernameField_no_count :
  forall sels i (st : Store W),
    count_results (trace_of (findUsernameField perform i sels st)) = [].
Proof.
  induction sels as [|c rest IH]; intros i st; [reflexivity|].
  rewrite findUsernameField_step.
  destruct (perform unit (LocWaitFor c "visible" (Some 10000)) (browser st))
    as [[u|e] w']; [reflexivity|].
  specialize (IH (S i) (mkStore w' (formNameInput st))).
  destruct (findUsernameField perform (S i) rest (mkStore w' (formNameInput st)))
    as [[r st2] tr2]. exact IH.
Qed.

(** The name-input loop takes no screenshot and leaves
    [this.formNameInput] as it is. *)
Lemma findNameInput_no_screenshot :
  forall sels i (st : Store W),
    let r := findNameInput perform i sels st in
    screenshot_outcomes (trace_of r) = []
    /\ formNameInput (store_of r) = formNameInput st.
Proof.
  induction sels as [|c rest IH]; intros i st; cbv zeta; [split; reflexivity|].
  rewrite findNameInput_step.
  destruct (perform bool (LocIsVisible c 5000) (browser st))
    as [[[|]|e] w']; [split; reflexivity| |];
    specialize (IH (S i) (mkStore w' (formNameInput st))); cbv zeta in IH;
    destruct (findNameInput perform (S i) rest (mkStore w' (formNameInput st)))
      as [[r st2] tr2]; exact IH.
Qed.

(** Without a match the username loop probes every candidate, in order,
    and returns nothing. *)
Lemma findUsernameField_none :
  forall sels i (st : Store W),
    (forall l, In l sels -> never_appears perform l) ->
    let r := findUsernameField perform i sels st in
    outcome_of r = Ok None
    /\ waitFor_results (trace_of r) = all_missed sels.
Proof.
  induction sels as [|c rest IH]; intros i st Hnone; cbv zeta;
    [split; reflexivity|].
  rewrite findUsernameField_step.
  destruct (Hnone c (or_introl eq_refl) "visible" (Some 10000) (browser st))
    as (e & w' & ->).
  destruct (IH (S i) (mkStore w' (formNameInput st))
              (fun l H => Hnone l (or_intror H))) as [Ho Ht].
  destruct (findUsernameField perform (S i) rest (mkStore w' (formNameInput st)))
    as [[r st2] tr2].
  unfold outcome_of, trace_of in *. cbn [fst snd] in *.
  split; [exact Ho|]. simpl. rewrite Ht. reflexivity.
Qed.

Lemma findNameInput_none :
  forall sels i (st : Store W),
    (forall l, In l sels -> not_visible perform l) ->
    let r := findNameInput perform i sels st in
    outcome_of r = Ok None
    /\ isVisible_results (trace_of r) = all_missed sels.
Proof.
  induction sels as [|c rest IH]; intros i st Hnone; cbv zeta;
    [split; reflexivity|].
  rewrite findNameInput_step.
  destruct (Hnone c (or_introl eq_refl) 5000 (browser st))
    as [(w' & ->)|(e & w' & ->)];
    destruct (IH (S i) (mkStore w' (formNameInput st))
                (fun l H => Hnone l (or_intror H))) as [Ho Ht];
    destruct (findNameInput perform (S i) rest (mkStore w' (formNameInput st)))
      as [[r st2] tr2];
    unfold outcome_of, trace_of in *; cbn [fst snd] in *;
    (split; [exact Ho|]); simpl; rewrite Ht; reflexivity.
Qed.

(** Without a match the resolution of the name input probes every
    candidate, attempts one screenshot, and throws the fixed error,
    whether the screenshot is written or not. *)
Lemma resolveNameInput_none :
  forall sels (st : Store W),
    (forall l, In l sels -> not_visible perform l) ->
    let r := resolveNameInput perform sels st in
    outcome_of r = Throw form_name_not_found
    /\ isVisible_results (trace_of r) = all_missed sels
    /\ exists tr0 shot,
         trace_of r =
           tr0 ++ [EvCall (PageScreenshot
                             "test-results/form-input-not-found.png" true) shot]
         /\ screenshot_outcomes tr0 = [].
Proof.
  intros sels st Hnone. cbv zeta. unfold resolveNameInput.
  destruct (findNameInput_none sels 0 st Hnone) as [Ho Ht].
  destruct (findNameInput_no_screenshot sels 0 st) as [Hs _].
  unfold_monad.
  destruct (findNameInput perform 0 sels st) as [[r st1] tr1].
  cbn [fst snd] in *. subst r. simpl.
  destruct (perform unit
              (PageScreenshot "test-results/form-input-not-found.png" true)
              (browser st1)) as [[u|e] w']; simpl;
    rewrite ?app_nil_r;
    (split; [reflexivity|]);
    (split; [rewrite isVisible_results_app, Ht; simpl; apply app_nil_r|]);
    (eexists tr1, _; split; [reflexivity|exact Hs]).
Qed.

(** Without a match the resolution of the username field probes every
    candidate, then asks how many e-mail inputs the page has, and ends
    by that answer. *)
Lemma resolveUsernameField_none :
  forall sels (st : Store W),
    (forall l, In l sels -> never_appears perform l) ->
    let r := resolveUsernameField perform sels st in
    waitFor_results (trace_of r) = all_missed sels
    /\ match count_results (trace_of r) with
       | [Ok emailInputs] =>
           outcome_of r =
             if emailInputs >? 0
             then Ok (first (page_locator ("input[type=" ++ Js.q "email" ++ "]")%string))
             else Throw username_not_found
       | [Throw e] => outcome_of r = Throw e
       | _ => False
       end.
Proof.
  intros sels st Hnone. cbv zeta. unfold resolveUsernameField.
  destruct (findUsernameField_none sels 0 st Hnone) as [Ho Ht].
  pose proof (findUsernameField_no_count sels 0 st) as Hc.
  unfold_monad.
  destruct (findUsernameField perform 0 sels st) as [[r st1] tr1].
  cbn [fst snd] in *. subst r. cbn iota beta.
  match goal with
  | |- context [perform Z ?c ?w] =>
      destruct (perform Z c w) as [[n|e] w'] eqn:Hcount
  end; cbn iota beta.
  - destruct (n >? 0) eqn:Hn; cbn [fst snd];
      rewrite waitFor_results_app, count_results_app, Ht, Hc; simpl;
      rewrite Hn, app_nil_r; split; reflexivity.
  - cbn [fst snd].
    rewrite waitFor_results_app, count_results_app, Ht, Hc; simpl.
    rewrite app_nil_r; split; reflexivity.
Qed.

(** C3, as the code has it.  When no candidate of the list is found,
    resolution probes every candidate once, in list order, so the probes
    are as many as the candidates; the failure it ends with is an [Error]
    with a fixed message, which does not list the candidates.  The
    name-input resolution of [fillFormCreationForm] throws that error.
    The username resolution of [login] first asks for the number of
    e-mail inputs: it returns the first of them when there is one,
    throws the fixed error when there is none, and passes on the error
    of the query when the query throws. *)
Theorem unresolved_candidates_all_probed :
  forall (sels : list Locator) (st : Store W),
    (forall l, In l sels -> never_appears perform l /\ not_visible perform l) ->
    (let r := resolveNameInput perform sels st in
     outcome_of r = Throw form_name_not_found
     /\ isVisible_results (trace_of r) = all_missed sels
     /\ List.length (isVisible_results (trace_of r)) = List.length sels)
    /\ (let r := resolveUsernameField perform sels st in
        waitFor_results (trace_of r) = all_missed sels
        /\ List.length (waitFor_results (trace_of r)) = List.length sels
        /\ match count_results (trace_of r) with
           | [Ok emailInputs] =>
               outcome_of r =
                 if emailInputs >? 0
                 then Ok (first (page_locator
                                   ("input[type=" ++ Js.q "email" ++ "]")%string))
                 else Throw username_not_found
           | [Throw e] => outcome_of r = Throw e
           | _ => False
           end).
Proof.
  intros sels st Hnone. split.
  - destruct (resolveNameInput_none sels st
                (fun l H => proj2 (Hnone l H))) as (Ho & Ht & _).
    cbv zeta. rewrite Ht. unfold all_missed. rewrite length_map. auto.
  - destruct (resolveUsernameField_none sels st
                (fun l H => proj1 (Hnone l H))) as (Ht & Hc).
    cbv zeta. rewrite Ht. unfold all_missed. rewrite length_map. auto.
Qed.

(** *** Diagnostic capture *)

(** C2, as the code has it.  In [fillFormCreationForm], when no
    candidate for the name input is visible (and the timer works), one
    screenshot is attempted and nothing follows it, no log line either:
    whether the screenshot is written or rejected, the caller receives
    the original error that the name input was not found. *)
Theorem form_capture_failure_is_swallowed :
  forall (sels : Locator -> list Locator) (name : string)
         (description : option string) (st : Store W),
    timers_fire perform ->
    (forall l, In l (sels (formNameInput st)) -> not_visible perform l) ->
    let r := fillFormCreationForm_over perform sels name description st in
    outcome_of r = Throw form_name_not_found
    /\ List.length (screenshot_outcomes (trace_of r)) = 1%nat
    /\ after_screenshot (trace_of r) = [].
Proof.
  intros sels name description st Htimer Hnone. cbv zeta.
  unfold fillFormCreationForm_over. unfold_monad. simpl.
  destruct (Htimer 2000 (browser st)) as (w' & ->). cbn iota beta.
  cbn [browser formNameInput].
  destruct (resolveNameInput_none (sels (formNameInput st))
              (mkStore w' (formNameInput st)) Hnone)
    as (Ho & _ & tr0 & shot & Htr & Hs).
  destruct (resolveNameInput perform (sels (formNameInput st))
              (mkStore w' (formNameInput st))) as [[r st1] tr1].
  unfold outcome_of, trace_of in *. cbn [fst snd] in *. subst r tr1.
  cbn iota beta. cbn [fst snd].
  split; [reflexivity|]. split.
  - simpl. rewrite screenshot_outcomes_app, Hs. reflexivity.
  - change (after_screenshot
              ((EvLog Info "Waiting for Form creation form to appear..."
                :: EvCall (PageWaitForTimeout 2000) (Ok tt) :: tr0)
               ++ [EvCall (PageScreenshot
                             "test-results/form-input-not-found.png" true)
                          shot]) = []).
    apply after_last_screenshot. reflexivity.
Qed.

(* ===================================================================== *)
(** ** Further properties of [goto] *)
(* ===================================================================== *)

Lemma no_goto_outcomes (tr : Trace) :
  filter is_goto tr = [] -> goto_outcomes tr = [] /\ goto_timeouts tr = [].
Proof.
  induction tr as [|ev tr IH]; simpl; [auto|].
  destruct ev as [T c r|lvl msg]; simpl; [|exact IH].
  destruct c; simpl; try exact IH; discriminate.
Qed.

Lemma goto_outcomes_app (t1 t2 : Trace) :
  goto_outcomes (t1 ++ t2) = goto_outcomes t1 ++ goto_outcomes t2.
Proof. observation_app t1. Qed.

Lemma goto_timeouts_app (t1 t2 : Trace) :
  goto_timeouts (t1 ++ t2) = goto_timeouts t1 ++ goto_timeouts t2.
Proof. observation_app t1. Qed.

Lemma goto_loop_attempts_le :
  forall fuel url maxRetries attempt o (st : Store W),
    (attempts (trace_of (goto_loop perform fuel url maxRetries attempt o st))
     <= fuel)%nat.
Proof.
  induction fuel as [|fuel IH]; intros url maxRetries attempt o st;
    [unfold attempts, trace_of; simpl; lia|].
  rewrite goto_loop_step.
  destruct (Js.le_num attempt maxRetries);
    [|unfold attempts, trace_of; simpl; lia].
  destruct (goto_attempt perform url maxRetries attempt o st)
    as [[flow st1] tr1] eqn:Hstep.
  destruct (goto_attempt_inv _ _ _ _ _ _ _ _ Hstep)
    as (g & w1 & rest & _ & -> & Hquiet & _).
  assert (Hone : forall tr2 : Trace,
             attempts ((EvCall (PageGoto url
                 (mkGotoOptions (timeout o) (attempt_waitUntil attempt))) g
                 :: rest) ++ tr2) = S (attempts tr2)).
  { intros tr2. rewrite attempts_app. unfold attempts at 1. simpl.
    rewrite Hquiet. reflexivity. }
  destruct flow as [[o'|]|e].
  - specialize (IH url maxRetries (attempt + 1) o' st1).
    destruct (goto_loop perform fuel url maxRetries (attempt + 1) o' st1)
      as [[r st2] tr2].
    unfold trace_of in *. cbn [snd fst] in *. rewrite Hone. lia.
  - unfold trace_of. cbn [snd fst]. rewrite Hone.
    unfold attempts. simpl. lia.
  - unfold trace_of. cbn [snd fst]. rewrite <- (app_nil_r (_ :: rest)).
    rewrite Hone. unfold attempts. simpl. lia.
Qed.

(** X1. Whatever the page does, [goto] calls [page.goto] at most
    [options.retries || 3] times: at most the whole part of that number
    when it is not whole. *)
Theorem goto_attempts_bounded :
  forall (url : string) (options : NavOptions) (st : Store W),
    (attempts (trace_of (goto perform url options st))
     <= Z.to_nat (Js.floor (maxRetries_of options)))%nat.
Proof. intros url options st. unfold goto. apply goto_loop_attempts_le. Qed.

Lemma floor_below_ceil (n : Js.Num) :
  Js.floor n < Js.ceil n <-> Js.is_whole n = false.
Proof.
  destruct n as [z|below text]; simpl; split; try lia; try discriminate;
    reflexivity.
Qed.

Lemma goto_loop_normal_return :
  forall fuel url maxRetries attempt o (st : Store W),
    fuel = Z.to_nat (Js.floor maxRetries - attempt + 1) ->
    let r := goto_loop perform fuel url maxRetries attempt o st in
    (In (Ok tt) (goto_outcomes (trace_of r)) -> outcome_of r = Ok tt)
    /\ (Js.floor maxRetries < attempt -> outcome_of r = Ok tt)
    /\ (outcome_of r = Ok tt ->
        In (Ok tt) (goto_outcomes (trace_of r))
        \/ (attempts (trace_of r) = fuel
            /\ (Js.floor maxRetries < attempt
                \/ Js.floor maxRetries < Js.ceil maxRetries))).
Proof.
  induction fuel as [|fuel IH]; intros url maxRetries attempt o st Hfuel;
    cbv zeta.
  - simpl. split; [intros []|]. split; [reflexivity|].
    intros _. right. split; [reflexivity|]. left. lia.
  - rewrite goto_loop_step. unfold Js.le_num.
    destruct (Z.leb_spec attempt (Js.floor maxRetries)) as [Hle|]; [|lia].
    destruct (goto_attempt perform url maxRetries attempt o st)
      as [[flow st1] tr1] eqn:Hstep.
    destruct (goto_attempt_inv _ _ _ _ _ _ _ _ Hstep)
      as (g & w1 & rest & _ & -> & Hquiet & Hcase).
    destruct (no_goto_outcomes _ Hquiet) as [Hout _].
    assert (Hone : forall tr2 : Trace,
               attempts ((EvCall (PageGoto url
                   (mkGotoOptions (timeout o) (attempt_waitUntil attempt))) g
                   :: rest) ++ tr2) = S (attempts tr2)).
    { intros tr2. rewrite attempts_app. unfold attempts at 1. simpl.
      rewrite Hquiet. reflexivity. }
    destruct g as [[]|e].
    + (* the navigation succeeded *)
      destruct Hcase as [-> _]. unfold outcome_of, trace_of. cbn [fst snd].
      split; [reflexivity|]. split; [reflexivity|].
      intros _. left. simpl. auto.
    + destruct (isNetworkError e && Js.lt_num attempt maxRetries) eqn:Hretry.
      * destruct Hcase as [(o' & -> & _)|(e' & ms & w2 & w3 & _ & ->)].
        -- apply andb_prop in Hretry. destruct Hretry as [_ Hlt].
           unfold Js.lt_num in Hlt. apply Z.ltb_lt in Hlt.
           specialize (IH url maxRetries (attempt + 1) o' st1 ltac:(lia)).
           cbv zeta in IH. destruct IH as (IH1 & _ & IH3).
           destruct (goto_loop perform fuel url maxRetries (attempt + 1) o' st1)
             as [[r st2] tr2].
           unfold outcome_of, trace_of in *. cbn [fst snd] in *.
           rewrite Hone, goto_outcomes_app. simpl. rewrite Hout. simpl.
           split; [|split].
           ++ intros [H|H]; [discriminate|auto].
           ++ lia.
           ++ intros H. destruct (IH3 H) as [Hin|[Hatt Hwhy]]; [auto|].
              right. split; [now rewrite Hatt|]. right.
              destruct Hwhy; lia.
        -- unfold outcome_of, trace_of. cbn [fst snd]. simpl. rewrite Hout.
           split; [intros [H|[]]; discriminate|].
           split; [lia|discriminate].
      * destruct Hcase as [-> _]. unfold outcome_of, trace_of. cbn [fst snd].
        simpl. rewrite Hout.
        split; [intros [H|[]]; discriminate|].
        split; [lia|discriminate].
Qed.

(** X2. [goto] returns normally whenever one of its [page.goto] calls
    succeeded, so a failure of the wait for the load state that follows a
    successful navigation does not make [goto] fail; and it returns
    normally, without a call, when [options.retries || 3] is below 1.
    Apart from these, [goto] returns normally only by running out of its
    loop after as many failed calls as the whole part of that number,
    which takes a number that is not whole; with a whole number of at
    least 1 a normal return means a navigation succeeded. *)
Theorem goto_normal_return :
  forall (url : string) (options : NavOptions) (st : Store W),
    let r := goto perform url options st in
    let maxRetries := maxRetries_of options in
    (In (Ok tt) (goto_outcomes (trace_of r)) -> outcome_of r = Ok tt)
    /\ (Js.floor maxRetries <= 0 -> outcome_of r = Ok tt)
    /\ (outcome_of r = Ok tt ->
        In (Ok tt) (goto_outcomes (trace_of r))
        \/ (attempts (trace_of r) = Z.to_nat (Js.floor maxRetries)
            /\ (Js.floor maxRetries <= 0
                \/ Js.is_whole maxRetries = false))).
Proof.
  intros url options st. cbv zeta. unfold goto.
  destruct (goto_loop_normal_return
              (Z.to_nat (Js.floor (maxRetries_of options))) url
              (maxRetries_of options) 1
              (mkGotoOptions (Js.num_or (nav_timeout options) 120000)
                 (Js.str_or (nav_waitUntil options) "domcontentloaded"))
              st ltac:(lia)) as (H1 & H2 & H3).
  split; [exact H1|]. split; [intros H; apply H2; lia|].
  intros H. destruct (H3 H) as [Hin|[Hatt Hwhy]]; [left; exact Hin|].
  right. split; [exact Hatt|].
  destruct Hwhy as [Hlt|Hlt]; [left; lia|right].
  now apply floor_below_ceil.
Qed.

(** The timeout the loop carries on after a failed attempt. *)
Lemma goto_attempt_next_timeout :
  forall url maxRetries attempt o (st : Store W) o' st1 tr1,
    goto_attempt perform url maxRetries attempt o st
    = (Ok (Continue o'), st1, tr1) ->
    exists e w1,
      perform unit
        (PageGoto url (mkGotoOptions (timeout o) (attempt_waitUntil attempt)))
        (browser st) = (Throw e, w1)
      /\ timeout o' =
         if Js.includes (Js.toLowerCase (Js.message e)) "timeout"
         then Z.max 60000 (timeout o - 20000)
         else timeout o.
Proof.
  intros url maxRetries attempt o st o' st1 tr1 H.
  unfold goto_attempt in H.
  invert_run H; eexists _, _; (split; [reflexivity|]);
    repeat match goal with
           | Hc : Js.includes _ "timeout" = _ |- _ => rewrite Hc
           end; reflexivity.
Qed.

Lemma nonincreasing_from_weaken (b b' : Z) (l : list Z) :
  b <= b' -> nonincreasing_from b l -> nonincreasing_from b' l.
Proof.
  destruct l as [|x l]; simpl; [auto|]. intros H [H1 H2]. split; [lia|auto].
Qed.

Lemma nonincreasing_from_sorted (b : Z) (l : list Z) :
  nonincreasing_from b l -> Sorted Z.ge l.
Proof.
  revert b. induction l as [|x l IH]; intros b H; simpl in H; [constructor|].
  destruct H as [_ Hx]. constructor; [exact (IH x Hx)|].
  destruct l as [|y l]; constructor. simpl in Hx. lia.
Qed.

Lemma goto_loop_timeouts :
  forall fuel url maxRetries attempt o (st : Store W) t0,
    Z.min t0 60000 <= timeout o <= Z.max t0 60000 ->
    let ts := goto_timeouts
                (trace_of (goto_loop perform fuel url maxRetries attempt o st)) in
    Forall (fun t => Z.min t0 60000 <= t <= Z.max t0 60000) ts
    /\ hd (timeout o) ts = timeout o
    /\ (60000 <= timeout o -> nonincreasing_from (timeout o) ts).
Proof.
  induction fuel as [|fuel IH]; intros url maxRetries attempt o st t0 Hb;
    cbv zeta.
  - simpl. auto.
  - rewrite goto_loop_step.
    destruct (Js.le_num attempt maxRetries); [|simpl; auto].
    destruct (goto_attempt perform url maxRetries attempt o st)
      as [[flow st1] tr1] eqn:Hstep.
    destruct (goto_attempt_inv _ _ _ _ _ _ _ _ Hstep)
      as (g & w1 & rest & _ & Htr & Hquiet & _).
    destruct (no_goto_outcomes _ Hquiet) as [_ Hts].
    destruct flow as [[o'|]|e].
    + destruct (goto_attempt_next_timeout _ _ _ _ _ _ _ _ Hstep)
        as (e & w2 & _ & Hnext).
      assert (Hb' : Z.min t0 60000 <= timeout o' <= Z.max t0 60000).
      { rewrite Hnext.
        destruct (Js.includes (Js.toLowerCase (Js.message e)) "timeout"); lia. }
      destruct (IH url maxRetries (attempt + 1) o' st1 t0 Hb')
        as (Hall & _ & Hmono).
      destruct (goto_loop perform fuel url maxRetries (attempt + 1) o' st1)
        as [[r st2] tr2].
      unfold trace_of in *. cbn [fst snd] in *. subst tr1.
      rewrite goto_timeouts_app. simpl. rewrite Hts. simpl.
      split; [constructor; [exact Hb|exact Hall]|].
      split; [reflexivity|].
      intros Hfloor. split; [lia|].
      assert (Hle : timeout o' <= timeout o /\ 60000 <= timeout o').
      { rewrite Hnext.
        destruct (Js.includes (Js.toLowerCase (Js.message e)) "timeout"); lia. }
      apply nonincreasing_from_weaken with (b := timeout o'); [lia|].
      apply Hmono. lia.
    + unfold trace_of. cbn [fst snd]. subst tr1. rewrite app_nil_r.
      simpl. rewrite Hts.
      split; [constructor; [exact Hb|constructor]|].
      split; [reflexivity|]. intros _. simpl. split; [lia|exact I].
    + unfold trace_of. cbn [fst snd]. subst tr1. simpl. rewrite Hts.
      split; [constructor; [exact Hb|constructor]|].
      split; [reflexivity|]. intros _. simpl. split; [lia|exact I].
Qed.

(** X3. The timeouts [goto] gives to its [page.goto] calls start at
    [options.timeout || 120000] and stay between that value and 60000;
    when the first is 60000 or more they never increase from one attempt
    to the next. *)
Theorem goto_timeouts_bounded :
  forall (url : string) (options : NavOptions) (st : Store W),
    let t0 := Js.num_or (nav_timeout options) 120000 in
    let ts := goto_timeouts (trace_of (goto perform url options st)) in
    Forall (fun t => Z.min t0 60000 <= t <= Z.max t0 60000) ts
    /\ hd t0 ts = t0
    /\ (60000 <= t0 -> Sorted Z.ge ts).
Proof.
  intros url options st. cbv zeta. unfold goto.
  destruct (goto_loop_timeouts (Z.to_nat (Js.floor (maxRetries_of options)))
              url
              (maxRetries_of options) 1
              (mkGotoOptions (Js.num_or (nav_timeout options) 120000)
                 (Js.str_or (nav_waitUntil options) "domcontentloaded"))
              st (Js.num_or (nav_timeout options) 120000))
    as (Hall & Hhd & Hmono).
  - simpl. lia.
  - split; [exact Hall|]. split; [exact Hhd|].
    intros H. eapply nonincreasing_from_sorted. apply Hmono. exact H.
Qed.

Lemma isNetworkError_of_timeout (e : Js.Error) :
  Js.includes (Js.toLowerCase (Js.message e)) "timeout" = true ->
  isNetworkError e = true.
Proof.
  intros H. unfold isNetworkError. cbv zeta. rewrite H.
  rewrite orb_true_r. reflexivity.
Qed.

(** X4. [goto] does not always reduce the timeout on a retry: when the
    first timeout is below 60000 and the first attempt fails with a
    timeout error, the second attempt is made with 60000, which is more. *)
Theorem goto_short_timeout_is_raised :
  forall (url : string) (options : NavOptions) (st : Store W) e w',
    timers_fire perform ->
    2 <= Js.floor (maxRetries_of options) ->
    Js.num_or (nav_timeout options) 120000 < 60000 ->
    perform unit
      (PageGoto url (mkGotoOptions (Js.num_or (nav_timeout options) 120000)
                                   "domcontentloaded"))
      (browser st) = (Throw e, w') ->
    Js.includes (Js.toLowerCase (Js.message e)) "timeout" = true ->
    nth_error (goto_timeouts (trace_of (goto perform url options st))) 1
    = Some 60000.
Proof.
  intros url options st e w' Htimer HN Ht0 Hthrow Htimeout. unfold goto.
  assert (Hceil : Js.floor (maxRetries_of options)
                  <= Js.ceil (maxRetries_of options))
    by (destruct (maxRetries_of options); simpl; lia).
  destruct (Z.to_nat (Js.floor (maxRetries_of options))) as [|[|fuel]]
    eqn:Hfuel; [lia|lia|].
  rewrite goto_loop_step. unfold Js.le_num.
  destruct (Z.leb_spec 1 (Js.floor (maxRetries_of options))) as [_|]; [|lia].
  match goal with
  | |- context [goto_attempt perform ?u ?m ?a ?o ?s] =>
      destruct (goto_attempt perform u m a o s) as [[flow st1] tr1] eqn:Hstep
  end.
  destruct (goto_attempt_inv _ _ _ _ _ _ _ _ Hstep)
    as (g & w1 & rest & Hg & -> & Hquiet & Hcase).
  simpl in Hg. change (attempt_waitUntil 1) with "domcontentloaded" in Hg.
  rewrite Hthrow in Hg. injection Hg as <- <-.
  rewrite (isNetworkError_of_timeout e Htimeout) in Hcase.
  unfold Js.lt_num in Hcase.
  destruct (Z.ltb_spec 1 (Js.ceil (maxRetries_of options))) as [_|]; [|lia].
  simpl in Hcase.
  destruct Hcase as [(o' & -> & _)|(e' & ms & w2 & w3 & Habs & _)];
    [|destruct (Htimer ms w2) as (w4 & Hok); congruence].
  destruct (goto_attempt_next_timeout _ _ _ _ _ _ _ _ Hstep)
    as (e2 & w2 & Hg & Hnext).
  simpl in Hg. change (attempt_waitUntil 1) with "domcontentloaded" in Hg.
  rewrite Hthrow in Hg. injection Hg as <- <-.
  rewrite Htimeout in Hnext. simpl in Hnext.
  destruct (no_goto_outcomes _ Hquiet) as [_ Hts].
  rewrite goto_loop_step. unfold Js.le_num.
  destruct (Z.leb_spec (1 + 1) (Js.floor (maxRetries_of options))) as [_|];
    [|lia].
  destruct (goto_attempt perform url (maxRetries_of options) (1 + 1) o' st1)
    as [[flow2 st2] tr2] eqn:Hstep2.
  destruct (goto_attempt_inv _ _ _ _ _ _ _ _ Hstep2)
    as (g2 & w3 & rest2 & _ & -> & _ & _).
  assert (Hsecond : forall tr3 : Trace,
             nth_error (goto_timeouts
               ((EvCall (PageGoto url
                   (mkGotoOptions (Js.num_or (nav_timeout options) 120000)
                                  (attempt_waitUntil 1))) (Throw e) :: rest)
                ++ (EvCall (PageGoto url
                      (mkGotoOptions (timeout o') (attempt_waitUntil (1 + 1))))
                      g2 :: rest2) ++ tr3)) 1 = Some 60000).
  { intros tr3. rewrite goto_timeouts_app. simpl. rewrite Hts. simpl.
    f_equal. lia. }
  destruct flow2 as [[o''|]|e3].
  - destruct (goto_loop perform fuel url (maxRetries_of options) (1 + 1 + 1)
                o'' st2) as [[r st3] tr3].
    unfold trace_of. cbn [fst snd]. apply Hsecond.
  - unfold trace_of. cbn [fst snd]. apply Hsecond.
  - unfold trace_of. cbn [fst snd].
    rewrite <- (app_nil_r (_ :: rest2)). apply Hsecond.
Qed.

(* ===================================================================== *)
(** ** Further properties of [fillInput] and [clickElement] *)
(* ===================================================================== *)

(** X5. An element that does not become visible is neither typed into nor
    clicked: [fillInput] and [clickElement] stop at the failed wait, and
    what they throw is a plain [Error] whose message is that of the wait
    error behind [Element wait timeout: ], the name of the wait error
    being lost. *)
Theorem unseen_element_is_left_alone :
  forall (locator : Locator) (text : string) (fopts : FillOptions)
         (copts : ClickOptions) (st : Store W) e1 w1 e2 w2,
    perform unit
      (LocWaitFor locator "visible"
         (Some (match fill_timeout fopts with Some t => t | None => 30000 end)))
      (browser st) = (Throw e1, w1) ->
    perform unit
      (LocWaitFor locator "visible"
         (Some (match click_timeout copts with Some t => t | None => 30000 end)))
      (browser st) = (Throw e2, w2) ->
    (let r := fillInput perform locator text fopts st in
     outcome_of r
       = Throw (Js.new_Error ("Element wait timeout: " ++ Js.message e1)%string)
     /\ count is_typing (trace_of r) = 0%nat
     /\ browser (store_of r) = w1)
    /\ (let r := clickElement perform locator copts st in
        outcome_of r
          = Throw (Js.new_Error ("Element wait timeout: " ++ Js.message e2)%string)
        /\ click_outcomes (trace_of r) = []
        /\ enabled_checks (trace_of r) = []
        /\ browser (store_of r) = w2).
Proof.
  intros locator text fopts copts st e1 w1 e2 w2 H1 H2. split; cbv zeta.
  - unfold fillInput, waitForElement. unfold_monad. simpl. rewrite H1.
    simpl. auto.
  - unfold clickElement, waitForElement. unfold_monad. simpl. rewrite H2.
    simpl. auto.
Qed.

(** X6. [clickElement] clicks only what it has seen visible and, unless
    the caller forces the click, enabled: in a run in which [click] was
    called, the calls before it are a wait for the state [visible] that
    resolved and, without [force], a wait for the state [attached] that
    resolved and one [isEnabled] check that answered [true]; with
    [force] there is no other wait and no check. *)
Theorem clickElement_clicks_only_ready :
  forall (locator : Locator) (options : ClickOptions) (st : Store W),
    let r := clickElement perform locator options st in
    click_outcomes (trace_of r) <> [] ->
    let seen := before_click (trace_of r) in
    waitFor_states seen
    = (locator, "visible", true)
        :: (if Js.falsy (click_force options)
            then [(locator, "attached", true)] else [])
    /\ enabled_checks seen
       = (if Js.falsy (click_force options) then [Ok true] else []).
Proof.
  intros locator options st r. subst r.
  unfold clickElement, waitForElement.
  destruct (click_force options) as [[|]|]; simpl Js.falsy; cbv iota;
    run; intros H; try (contradiction H; reflexivity);
    (split; reflexivity).
Qed.

(* ===================================================================== *)
(** ** Further properties of the resolution loops of [login] *)
(* ===================================================================== *)

Lemma findVisible_step :
  forall c rest (st : Store W),
    findVisible perform (c :: rest) st =
    match perform unit (LocWaitFor c "visible" (Some 3000)) (browser st) with
    | (Ok u, w') =>
        (Ok (Some c), mkStore w' (formNameInput st),
         [EvCall (LocWaitFor c "visible" (Some 3000)) (Ok u);
          EvLog Debug ("Element is visible: " ++ locator_text c)%string])
    | (Throw e, w') =>
        match findVisible perform rest (mkStore w' (formNameInput st)) with
        | (r, st2, tr2) =>
            (r, st2,
             EvCall (LocWaitFor c "visible" (Some 3000)) (Throw e)
             :: EvLog Debug ("Element not visible: " ++ Js.message e)%string
             :: tr2)
        end
    end.
Proof.
  intros c rest st. simpl. unfold isElementVisible. unfold_monad.
  destruct (perform unit (LocWaitFor c "visible" (Some 3000)) (browser st))
    as [[u|e] w']; simpl; [reflexivity|].
  destruct (findVisible perform rest
              {| browser := w'; formNameInput := formNameInput st |})
    as [[r st2] tr2]. reflexivity.
Qed.

(** X7. The loops of [login] over the login buttons and of
    [fillFormCreationForm] over the description inputs never throw; they
    probe the candidates in list order and stop at the first visible one,
    which they return, or probe them all and return nothing. *)
Theorem findVisible_in_order :
  forall (sels : list Locator) (st : Store W),
    let r := findVisible perform sels st in
    match outcome_of r with
    | Ok (Some c) =>
        exists pre post,
          sels = pre ++ c :: post
          /\ waitFor_results (trace_of r) = all_missed pre ++ [(c, true)]
    | Ok None => waitFor_results (trace_of r) = all_missed sels
    | Throw _ => False
    end.
Proof.
  induction sels as [|c rest IH]; intros st; cbv zeta; [reflexivity|].
  rewrite findVisible_step.
  destruct (perform unit (LocWaitFor c "visible" (Some 3000)) (browser st))
    as [[u|e] w'].
  - exists [], rest. split; reflexivity.
  - specialize (IH (mkStore w' (formNameInput st))). cbv zeta in IH.
    destruct (findVisible perform rest (mkStore w' (formNameInput st)))
      as [[[[c'|]|e'] st2] tr2]; unfold outcome_of, trace_of in *;
      cbn [fst snd] in *.
    + destruct IH as (pre & post & -> & Htr).
      exists (c :: pre), post. split; [reflexivity|].
      simpl. rewrite Htr. reflexivity.
    + simpl. rewrite IH. reflexivity.
    + exact IH.
Qed.

Lemma findPasswordField_unfold :
  forall i c rest (st : Store W),
    findPasswordField perform i (c :: rest) st =
    match passwordProbe perform i c st with
    | (Ok (Some l), st1, tr1) => (Ok (Some l), st1, tr1 ++ [])
    | (Ok None, st1, tr1) =>
        match findPasswordField perform (S i) rest st1 with
        | (r, st2, tr2) => (r, st2, tr1 ++ tr2)
        end
    | (Throw e, st1, tr1) => (Throw e, st1, tr1)
    end.
Proof.
  intros i c rest st.
  change (findPasswordField perform i (c :: rest) st)
    with (bind W (passwordProbe perform i c)
            (fun passwordField =>
               match passwordField with
               | Some _ => ret W passwordField
               | None => findPasswordField perform (S i) rest
               end) st).
  unfold bind.
  destruct (passwordProbe perform i c st) as [[[[l|]|e] st1] tr1];
    reflexivity.
Qed.

Lemma password_evidence_app (t1 t2 : Trace) :
  password_evidence (t1 ++ t2) = password_evidence t1 ++ password_evidence t2.
Proof.
  induction t1 as [|[T c r|lvl msg] t1 IH]; simpl; [reflexivity| |exact IH].
  destruct c; try destruct r as [a|e]; simpl; try exact IH.
  - destruct a as [v|]; [|exact IH].
    destruct (String.eqb attr "type" && String.eqb v "password");
      simpl; rewrite IH; reflexivity.
  - destruct a; simpl; rewrite IH; reflexivity.
Qed.

Lemma waitFor_timeouts_app (t1 t2 : Trace) :
  waitFor_timeouts (t1 ++ t2) = waitFor_timeouts t1 ++ waitFor_timeouts t2.
Proof.
  induction t1 as [|[T c r|lvl msg] t1 IH]; simpl; [reflexivity| |exact IH].
  destruct c; simpl; try exact IH.
  match goal with
  | |- context [match ?t with Some _ => _ | None => _ end] =>
      destruct t; simpl; rewrite IH; reflexivity
  end.
Qed.

(** One candidate of the password loop: the probe does not throw; it
    returns the candidate only with evidence that it is a password input;
    and all its waits use the wait time of the candidate's index. *)
Lemma passwordProbe_spec :
  forall i c (st : Store W),
    let r := passwordProbe perform i c st in
    let t := Z.min (5000 + Z.of_nat i * 1000) 20000 in
    match outcome_of r with
    | Ok (Some l) => l = c /\ In c (password_evidence (trace_of r))
    | Ok None => True
    | Throw _ => False
    end
    /\ (waitFor_timeouts (trace_of r) = [t]
        \/ waitFor_timeouts (trace_of r) = [t; t]).
Proof.
  intros i c st. cbv zeta. unfold passwordProbe. unfold_monad. simpl.
  repeat next_call;
    repeat match goal with
           | x : option string |- _ => destruct x as [?v|]; simpl
           | |- context [String.eqb ?v "password"] =>
               is_var v;
               let E := fresh "P" in
               destruct (String.eqb v "password") eqn:E; simpl
           | b : bool |- _ => destruct b; simpl
           end;
    repeat match goal with
           | P : String.eqb _ "password" = _ |- _ => rewrite P; clear P
           end;
    simpl; try discriminate; auto 6.
Qed.

Lemma findPasswordField_spec :
  forall sels i (st : Store W),
    let r := findPasswordField perform i sels st in
    match outcome_of r with
    | Ok (Some l) => In l sels /\ In l (password_evidence (trace_of r))
    | Ok None => True
    | Throw _ => False
    end
    /\ nondecreasing_from (Z.min (5000 + Z.of_nat i * 1000) 20000)
         (waitFor_timeouts (trace_of r))
    /\ Forall (fun t => 5000 <= t <= 20000) (waitFor_timeouts (trace_of r)).
Proof.
  induction sels as [|c rest IH]; intros i st; cbv zeta.
  - simpl. auto.
  - rewrite findPasswordField_unfold.
    destruct (passwordProbe_spec i c st) as [Hres Hts]. cbv zeta in Hres, Hts.
    destruct (passwordProbe perform i c st) as [[[[l|]|e] st1] tr1];
      unfold outcome_of, trace_of in *; cbn [fst snd] in *.
    + destruct Hres as [-> Hev]. rewrite app_nil_r.
      split; [split; [left; reflexivity|exact Hev]|].
      destruct Hts as [-> | ->]; simpl; split;
        try (repeat constructor; lia); repeat split; lia.
    + destruct (IH (S i) st1) as (Hres' & Hmono & Hall). clear IH.
      destruct (findPasswordField perform (S i) rest st1) as [[r st2] tr2].
      cbn [fst snd] in *.
      split; [|split].
      * destruct r as [[l|]|e]; try exact Hres'.
        destruct Hres' as [Hin Hev]. split; [right; exact Hin|].
        rewrite password_evidence_app. apply in_or_app. right. exact Hev.
      * rewrite waitFor_timeouts_app.
        assert (Hweak : nondecreasing_from
                          (Z.min (5000 + Z.of_nat i * 1000) 20000)
                          (waitFor_timeouts tr2)).
        { apply nondecreasing_from_weaken with (2 := Hmono). lia. }
        destruct Hts as [-> | ->]; simpl; repeat split; try lia; exact Hweak.
      * rewrite waitFor_timeouts_app. apply Forall_app. split; [|exact Hall].
        destruct Hts as [-> | ->]; repeat constructor; lia.
    + destruct Hres.
Qed.

Lemma findPasswordInFrames_spec :
  forall frames (st : Store W),
    let r := findPasswordInFrames perform frames st in
    match outcome_of r with
    | Ok (Some l) =>
        exists frame,
          l = first (frame_locator frame
                       ("input[type=" ++ Js.q "password" ++ "]")%string)
    | Ok None => True
    | Throw _ => False
    end.
Proof.
  induction frames as [|frame rest IH]; intros st; cbv zeta; [exact I|].
  simpl. unfold_monad.
  match goal with
  | |- context [perform Z ?c ?w] =>
      destruct (perform Z c w) as [[n|e] w']
  end; simpl.
  - destruct (n >? 0); simpl; [exists frame; reflexivity|].
    specialize (IH (mkStore w' (formNameInput st))). cbv zeta in IH.
    destruct (findPasswordInFrames perform rest (mkStore w' (formNameInput st)))
      as [[r st2] tr2]. exact IH.
  - specialize (IH (mkStore w' (formNameInput st))). cbv zeta in IH.
    destruct (findPasswordInFrames perform rest (mkStore w' (formNameInput st)))
      as [[r st2] tr2]. exact IH.
Qed.

Lemma resolvePasswordField_unfold :
  forall sels (st : Store W),
    resolvePasswordField perform sels st =
    match findPasswordField perform 0 sels st with
    | (Ok (Some l), st1, tr1) => (Ok l, st1, tr1 ++ [])
    | (Ok None, st1, tr1) =>
        match passwordLastResort perform st1 with
        | (r, st2, tr2) => (r, st2, tr1 ++ tr2)
        end
    | (Throw e, st1, tr1) => (Throw e, st1, tr1)
    end.
Proof.
  intros sels st.
  change (resolvePasswordField perform sels st)
    with (bind W (findPasswordField perform 0 sels)
            (fun passwordField =>
               match passwordField with
               | Some l => ret W l
               | None => passwordLastResort perform
               end) st).
  unfold bind.
  destruct (findPasswordField perform 0 sels st) as [[[[l|]|e] st1] tr1];
    reflexivity.
Qed.

(** The last resort returns the first password input of the page or of a
    frame, when it returns. *)
Lemma passwordLastResort_spec :
  forall (st : Store W),
    let r := passwordLastResort perform st in
    match outcome_of r with
    | Ok l =>
        l = first (page_locator ("input[type=" ++ Js.q "password" ++ "]")%string)
        \/ exists frame,
             l = first (frame_locator frame
                          ("input[type=" ++ Js.q "password" ++ "]")%string)
    | Throw _ => True
    end.
Proof.
  intros st. cbv zeta. unfold passwordLastResort. unfold_monad. simpl.
  match goal with
  | |- context [perform Z ?c ?w] =>
      destruct (perform Z c w) as [[n|e] w']
  end; simpl.
  - destruct (n >? 0); simpl; [left; reflexivity|].
    match goal with
    | |- context [perform nat ?c ?w] =>
        destruct (perform nat c w) as [[frames|e] w'']
    end; simpl.
    + pose proof (findPasswordInFrames_spec (seq 0 frames)
                    (mkStore w'' (formNameInput st))) as Hf.
      cbv zeta in Hf. unfold outcome_of in Hf.
      destruct (findPasswordInFrames perform (seq 0 frames)
                  (mkStore w'' (formNameInput st)))
        as [[[[c|]|e] st2] tr2]; cbn [fst snd] in *; simpl.
      * right. exact Hf.
      * next_call; exact I.
      * destruct Hf.
    + next_call; exact I.
  - next_call; exact I.
Qed.

(** X8. The field [login] types the password into is a password input:
    when the resolution of the password field returns a locator, it is a
    candidate for which the run has evidence (the element's type evaluated
    to password, or its [type] attribute read [password]), or it is the
    first [input[type="password"]] of the page or of one of its frames. *)
Theorem resolved_password_field_is_password :
  forall (sels : list Locator) (st : Store W) (l : Locator),
    outcome_of (resolvePasswordField perform sels st) = Ok l ->
    (In l sels
     /\ In l (password_evidence
                (trace_of (resolvePasswordField perform sels st))))
    \/ l = first (page_locator ("input[type=" ++ Js.q "password" ++ "]")%string)
    \/ exists frame,
         l = first (frame_locator frame
                      ("input[type=" ++ Js.q "password" ++ "]")%string).
Proof.
  intros sels st l. rewrite resolvePasswordField_unfold.
  destruct (findPasswordField_spec sels 0 st) as (Hres & _). cbv zeta in Hres.
  destruct (findPasswordField perform 0 sels st) as [[[[c|]|e] st1] tr1];
    unfold outcome_of, trace_of in *; cbn [fst snd] in *.
  - intros H. injection H as <-. left. rewrite app_nil_r. exact Hres.
  - clear Hres. pose proof (passwordLastResort_spec st1) as Hlast.
    cbv zeta in Hlast. unfold outcome_of in Hlast.
    destruct (passwordLastResort perform st1) as [[r st2] tr2].
    cbn [fst snd] in *. intros ->. right. exact Hlast.
  - discriminate.
Qed.

(** X9. The waits of the password loop of [login] grow with the candidate:
    the timeouts of its successive [waitFor] probes never decrease, and
    each lies between 5000 and 20000. *)
Theorem password_probe_timeouts_grow :
  forall (sels : list Locator) (i : nat) (st : Store W),
    let ts := waitFor_timeouts
                (trace_of (findPasswordField perform i sels st)) in
    Sorted Z.le ts /\ Forall (fun t => 5000 <= t <= 20000) ts.
Proof.
  intros sels i st. cbv zeta.
  destruct (findPasswordField_spec sels i st) as (_ & Hmono & Hall).
  split; [|exact Hall].
  exact (proj1 (nondecreasing_from_sorted _ _ Hmono)).
Qed.

(* ===================================================================== *)
(** ** Counting events through the monad *)
(* ===================================================================== *)

Lemma count_app (f : Event -> bool) (t1 t2 : Trace) :
  count f (t1 ++ t2) = (count f t1 + count f t2)%nat.
Proof. unfold count. rewrite filter_app, length_app. reflexivity. Qed.

Lemma quiet_ret {A} f (a : A) : quiet f (ret W a).
Proof. intros st. reflexivity. Qed.

Lemma quiet_throw {A} f e : quiet f (@throw W A e).
Proof. intros st. reflexivity. Qed.

Lemma quiet_log f lvl msg :
  f (EvLog lvl msg) = false -> quiet f (log W lvl msg).
Proof. intros H st. unfold log, trace_of, count. simpl. rewrite H. reflexivity. Qed.

Lemma quiet_call {T} f (c : Call T) :
  (forall r, f (EvCall c r) = false) -> quiet f (call W perform c).
Proof.
  intros H st. unfold call, trace_of, count.
  destruct (perform T c (browser st)) as [r w']. simpl. rewrite H. reflexivity.
Qed.

Lemma quiet_get f : quiet f (get_formNameInput W).
Proof. intros st. reflexivity. Qed.

Lemma quiet_set f l : quiet f (set_formNameInput W l).
Proof. intros st. reflexivity. Qed.

Lemma quiet_bind {A B} f (m : M W A) (k : A -> M W B) :
  quiet f m -> (forall a, quiet f (k a)) -> quiet f (bind W m k).
Proof.
  intros Hm Hk st. unfold bind. specialize (Hm st).
  destruct (m st) as [[[a|e] st1] tr1]; unfold trace_of in *; cbn [snd] in *.
  - specialize (Hk a st1). destruct (k a st1) as [[r st2] tr2].
    unfold trace_of in Hk. cbn [snd] in *. rewrite count_app. lia.
  - exact Hm.
Qed.

Lemma quiet_try_catch {A} f (m : M W A) (h : Js.Error -> M W A) :
  quiet f m -> (forall e, quiet f (h e)) -> quiet f (try_catch W m h).
Proof.
  intros Hm Hh st. unfold try_catch. specialize (Hm st).
  destruct (m st) as [[[a|e] st1] tr1]; unfold trace_of in *; cbn [snd] in *.
  - exact Hm.
  - specialize (Hh e st1). destruct (h e st1) as [[r st2] tr2].
    unfold trace_of in Hh. cbn [snd] in *. rewrite count_app. lia.
Qed.

Lemma atmost_of_quiet {A} f n (m : M W A) : quiet f m -> atmost f n m.
Proof. intros H st. rewrite (H st). lia. Qed.

Lemma atmost_call {T} f (c : Call T) : atmost f 1 (call W perform c).
Proof.
  intros st. unfold call, trace_of, count.
  destruct (perform T c (browser st)) as [r w']. simpl.
  destruct (f (EvCall c r)); simpl; lia.
Qed.

Lemma atmost_bind_l {A B} f n (m : M W A) (k : A -> M W B) :
  quiet f m -> (forall a, atmost f n (k a)) -> atmost f n (bind W m k).
Proof.
  intros Hm Hk st. unfold bind. specialize (Hm st).
  destruct (m st) as [[[a|e] st1] tr1]; unfold trace_of in *; cbn [snd] in *.
  - specialize (Hk a st1). destruct (k a st1) as [[r st2] tr2].
    unfold trace_of in Hk. cbn [snd] in *. rewrite count_app. lia.
  - lia.
Qed.

Lemma atmost_bind_r {A B} f n (m : M W A) (k : A -> M W B) :
  atmost f n m -> (forall a, quiet f (k a)) -> atmost f n (bind W m k).
Proof.
  intros Hm Hk st. unfold bind. specialize (Hm st).
  destruct (m st) as [[[a|e] st1] tr1]; unfold trace_of in *; cbn [snd] in *.
  - specialize (Hk a st1). destruct (k a st1) as [[r st2] tr2].
    unfold trace_of in Hk. cbn [snd] in *. rewrite count_app. lia.
  - exact Hm.
Qed.

Lemma atmost_try_catch {A} f n (m : M W A) (h : Js.Error -> M W A) :
  atmost f n m -> (forall e, quiet f (h e)) -> atmost f n (try_catch W m h).
Proof.
  intros Hm Hh st. unfold try_catch. specialize (Hm st).
  destruct (m st) as [[[a|e] st1] tr1]; unfold trace_of in *; cbn [snd] in *.
  - exact Hm.
  - specialize (Hh e st1). destruct (h e st1) as [[r st2] tr2].
    unfold trace_of in Hh. cbn [snd] in *. rewrite count_app. lia.
Qed.

(** Proves [quiet f m] for a method built from calls that [f] rejects;
    loops come in through the hypotheses. *)
Ltac quiet_auto :=
  repeat first
    [ assumption
    | apply quiet_ret
    | apply quiet_throw
    | apply quiet_get
    | apply quiet_set
    | apply quiet_log; reflexivity
    | apply quiet_call; intros; reflexivity
    | apply quiet_bind; [|intros ?]
    | apply quiet_try_catch; [|intros ?]
    | progress cbv beta zeta
    | match goal with
      | |- quiet _ (if ?b then _ else _) => destruct b
      | |- quiet _ (match ?x with _ => _ end) => destruct x
      | H : forall _, quiet _ _ |- _ => apply H
      | H : forall _ _, quiet _ _ |- _ => apply H
      end ].

Lemma quiet_isElementVisible f l t :
  (forall l s t r, f (EvCall (LocWaitFor l s t) r) = false) ->
  (forall lvl msg, f (EvLog lvl msg) = false) ->
  quiet f (isElementVisible perform l t).
Proof.
  intros Hw Hl. unfold isElementVisible.
  apply quiet_try_catch; [|intros e].
  - apply quiet_bind; [apply quiet_call; intros; apply Hw|intros _].
    apply quiet_bind; [apply quiet_log; apply Hl|intros _]. apply quiet_ret.
  - apply quiet_bind; [apply quiet_log; apply Hl|intros _]. apply quiet_ret.
Qed.

(* ===================================================================== *)
(** ** [login] submits once *)
(* ===================================================================== *)

Lemma quiet_submit_fillInput l t o : quiet is_submit (fillInput perform l t o).
Proof. unfold fillInput, waitForElement. quiet_auto. Qed.

Lemma quiet_submit_findUsernameField sels :
  forall i, quiet is_submit (findUsernameField perform i sels).
Proof. induction sels as [|c rest IH]; intros i; simpl; quiet_auto. Qed.

Lemma quiet_submit_findPasswordField sels :
  forall i, quiet is_submit (findPasswordField perform i sels).
Proof. induction sels as [|c rest IH]; intros i; simpl; quiet_auto. Qed.

Lemma quiet_submit_findPasswordInFrames frames :
  quiet is_submit (findPasswordInFrames perform frames).
Proof. induction frames as [|n rest IH]; simpl; quiet_auto. Qed.

Lemma quiet_submit_findVisible sels :
  quiet is_submit (findVisible perform sels).
Proof.
  induction sels as [|c rest IH]; simpl; unfold isElementVisible; quiet_auto.
Qed.

Lemma quiet_submit_waitForUrlChange n url :
  quiet is_submit (waitForUrlChange perform n url).
Proof. induction n as [|n IH]; simpl; quiet_auto. Qed.

Lemma atmost_submit_clickElement l o :
  atmost is_submit 1 (clickElement perform l o).
Proof.
  unfold clickElement, waitForElement.
  apply atmost_try_catch; [|intros e; quiet_auto].
  apply atmost_bind_l; [quiet_auto|intros _].
  apply atmost_bind_l; [quiet_auto|intros _].
  apply atmost_bind_r; [apply atmost_call|intros _; quiet_auto].
Qed.

(** X10. [login] submits the form at most once: a run has at most one
    click or key press, whatever the page does. *)
Theorem login_submits_at_most_once :
  forall (usernameSelectors passwordSelectors loginButtonSelectors : list Locator)
         (username password : string) (st : Store W),
    (count is_submit
       (trace_of (login_over perform usernameSelectors passwordSelectors
                             loginButtonSelectors username password st))
     <= 1)%nat.
Proof.
  intros usels psels bsels username password.
  change (atmost is_submit 1
            (login_over perform usels psels bsels username password)).
  unfold login_over, resolveUsernameField, resolvePasswordField.
  pose proof quiet_submit_fillInput as Hfill.
  pose proof (quiet_submit_findUsernameField usels) as Hu.
  pose proof (quiet_submit_findPasswordField psels) as Hp.
  pose proof quiet_submit_findPasswordInFrames as Hf.
  pose proof (quiet_submit_findVisible bsels) as Hv.
  pose proof quiet_submit_waitForUrlChange as Hurl.
  apply atmost_bind_l; [quiet_auto|intros _].
  apply atmost_bind_l; [quiet_auto|intros usernameField].
  apply atmost_bind_l; [apply Hfill|intros _].
  apply atmost_bind_l; [quiet_auto|intros _].
  apply atmost_bind_l; [quiet_auto|intros passwordField].
  apply atmost_bind_l; [apply Hfill|intros _].
  apply atmost_bind_l; [quiet_auto|intros _].
  apply atmost_bind_l; [exact Hv|intros loginBtn].
  apply atmost_bind_r.
  - destruct loginBtn as [l|];
      [apply atmost_submit_clickElement|apply atmost_call].
  - intros _. quiet_auto.
Qed.

(* ===================================================================== *)
(** ** Further properties of [fillFormCreationForm] *)
(* ===================================================================== *)

Lemma fillFormCreationForm_unfold :
  forall sels name description (st : Store W),
    fillFormCreationForm_over perform sels name description st =
    match perform unit (PageWaitForTimeout 2000) (browser st) with
    | (Throw e, w') =>
        (Throw e, mkStore w' (formNameInput st),
         [EvLog Info "Waiting for Form creation form to appear...";
          EvCall (PageWaitForTimeout 2000) (Throw e)])
    | (Ok u, w') =>
        match resolveNameInput perform (sels (formNameInput st))
                (mkStore w' (formNameInput st)) with
        | (Throw e, st1, tr1) =>
            (Throw e, st1,
             EvLog Info "Waiting for Form creation form to appear..."
             :: EvCall (PageWaitForTimeout 2000) (Ok u) :: tr1)
        | (Ok nameInput, st1, tr1) =>
            match formTail perform nameInput name description
                    (mkStore (browser st1) nameInput) with
            | (r, st2, tr2) =>
                (r, st2,
                 EvLog Info "Waiting for Form creation form to appear..."
                 :: EvCall (PageWaitForTimeout 2000) (Ok u) :: tr1 ++ tr2)
            end
        end
    end.
Proof.
  intros sels name description st.
  change (fillFormCreationForm_over perform sels name description st)
    with (bind W (log W Info "Waiting for Form creation form to appear...")
            (fun _ =>
             bind W (call W perform (PageWaitForTimeout 2000))
               (fun _ =>
                bind W (get_formNameInput W)
                  (fun formNameInput =>
                   bind W (resolveNameInput perform (sels formNameInput))
                     (fun nameInput =>
                      bind W (set_formNameInput W nameInput)
                        (fun _ => formTail perform nameInput name description)))))
            st).
  unfold bind at 1 2 3. unfold log, call, get_formNameInput.
  destruct (perform unit (PageWaitForTimeout 2000) (browser st))
    as [[u|e] w']; [|reflexivity].
  cbn [browser formNameInput]. unfold bind at 1.
  destruct (resolveNameInput perform (sels (formNameInput st))
              {| browser := w'; formNameInput := formNameInput st |})
    as [[[nameInput|e] st1] tr1]; [|reflexivity].
  unfold bind, set_formNameInput.
  destruct (formTail perform nameInput name description
              {| browser := browser st1; formNameInput := nameInput |})
    as [[r st2] tr2]. reflexivity.
Qed.

Lemma all_missed_no_match (sels : list Locator) (c : Locator) :
  ~ In (c, true) (all_missed sels).
Proof.
  unfold all_missed. intros H. apply in_map_iff in H.
  destruct H as (l & Heq & _). discriminate.
Qed.

(** How the resolution of the name input ends: with the one candidate
    that was seen visible and no screenshot, or with the fixed error and
    no candidate seen visible; [this.formNameInput] is as before. *)
Lemma resolveNameInput_cases :
  forall sels (st : Store W),
    let r := resolveNameInput perform sels st in
    formNameInput (store_of r) = formNameInput st
    /\ match outcome_of r with
       | Ok l =>
           screenshot_outcomes (trace_of r) = []
           /\ forall c, In (c, true) (isVisible_results (trace_of r)) <-> c = l
       | Throw e =>
           e = form_name_not_found
           /\ forall c, ~ In (c, true) (isVisible_results (trace_of r))
       end.
Proof.
  intros sels st. cbv zeta. unfold resolveNameInput.
  pose proof (findNameInput_in_order sels 0 st) as Hord. cbv zeta in Hord.
  destruct (findNameInput_no_screenshot sels 0 st) as [Hs Hkeep].
  unfold_monad.
  destruct (findNameInput perform 0 sels st) as [[[[l|]|e] st1] tr1];
    cbn [fst snd] in *; simpl.
  - rewrite app_nil_r. split; [exact Hkeep|]. split; [exact Hs|].
    destruct Hord as (pre & post & _ & ->). intros c.
    rewrite in_app_iff. simpl. split.
    + intros [H|[H|[]]]; [destruct (all_missed_no_match _ _ H)|].
      injection H as ->. reflexivity.
    + intros ->. right. left. reflexivity.
  - match goal with
    | |- context [perform unit ?c ?w] =>
        destruct (perform unit c w) as [[u|e] w']
    end; simpl; rewrite ?app_nil_r;
      (split; [exact Hkeep|]); (split; [reflexivity|]);
      intros c; rewrite isVisible_results_app, Hord; simpl;
      rewrite app_nil_r; apply all_missed_no_match.
  - destruct Hord.
Qed.

Lemma quiet_findVisible f sels :
  (forall l s t r, f (EvCall (LocWaitFor l s t) r) = false) ->
  (forall lvl msg, f (EvLog lvl msg) = false) ->
  quiet f (findVisible perform sels).
Proof.
  intros Hw Hl. induction sels as [|c rest IH]; simpl; [apply quiet_ret|].
  apply quiet_bind.
  - apply quiet_try_catch; [|intros e; apply quiet_ret].
    apply quiet_bind; [apply quiet_isElementVisible; assumption|].
    intros [|]; apply quiet_ret.
  - intros [l|]; [apply quiet_ret|exact IH].
Qed.

Lemma quiet_screenshot_formTail l name description :
  quiet is_screenshot (formTail perform l name description).
Proof.
  pose proof (quiet_findVisible is_screenshot descInputSelectors
                ltac:(reflexivity) ltac:(reflexivity)) as Hv.
  unfold formTail, fillInput, waitForElement. quiet_auto.
Qed.

Lemma quiet_isVisible_formTail l name description :
  quiet is_isVisible (formTail perform l name description).
Proof.
  pose proof (quiet_findVisible is_isVisible descInputSelectors
                ltac:(reflexivity) ltac:(reflexivity)) as Hv.
  unfold formTail, fillInput, waitForElement. quiet_auto.
Qed.

Lemma screenshot_outcomes_quiet (tr : Trace) :
  count is_screenshot tr = 0%nat -> screenshot_outcomes tr = [].
Proof.
  unfold count. induction tr as [|[T c r|lvl msg] tr IH]; simpl;
    [reflexivity| |exact IH].
  destruct c; simpl; try exact IH. discriminate.
Qed.

Lemma isVisible_results_quiet (tr : Trace) :
  count is_isVisible tr = 0%nat -> isVisible_results tr = [].
Proof.
  unfold count. induction tr as [|[T c r|lvl msg] tr IH]; simpl;
    [reflexivity| |exact IH].
  destruct c; simpl; try exact IH. discriminate.
Qed.

(** X11. [fillFormCreationForm] takes a screenshot only when it gives up
    on the name input: in every run that has a [page.screenshot] call, the
    method throws the error that the name input was not found. *)
Theorem form_screenshot_only_on_failure :
  forall (sels : Locator -> list Locator) (name : string)
         (description : option string) (st : Store W),
    let r := fillFormCreationForm_over perform sels name description st in
    screenshot_outcomes (trace_of r) <> [] ->
    outcome_of r = Throw form_name_not_found.
Proof.
  intros sels name description st. cbv zeta.
  rewrite fillFormCreationForm_unfold.
  destruct (perform unit (PageWaitForTimeout 2000) (browser st))
    as [[u|e] w'].
  - destruct (resolveNameInput_cases (sels (formNameInput st))
                (mkStore w' (formNameInput st))) as [_ Hcase].
    destruct (resolveNameInput perform (sels (formNameInput st))
                (mkStore w' (formNameInput st)))
      as [[[nameInput|e] st1] tr1];
      unfold outcome_of, trace_of in *; cbn [fst snd] in *.
    + destruct Hcase as [Hs _].
      pose proof (quiet_screenshot_formTail nameInput name description
                    (mkStore (browser st1) nameInput)) as Hq.
      destruct (formTail perform nameInput name description
                  (mkStore (browser st1) nameInput)) as [[r st2] tr2].
      unfold trace_of in Hq. cbn [fst snd] in *.
      intros H. contradiction H. simpl.
      rewrite screenshot_outcomes_app, Hs.
      apply screenshot_outcomes_quiet. exact Hq.
    + destruct Hcase as [-> _]. reflexivity.
  - unfold trace_of. cbn [snd]. intros H. contradiction H. reflexivity.
Qed.

Lemma keeps_ret {A} (a : A) : keeps_formNameInput (ret W a).
Proof. intros st. reflexivity. Qed.

Lemma keeps_throw {A} e : keeps_formNameInput (@throw W A e).
Proof. intros st. reflexivity. Qed.

Lemma keeps_log lvl msg : keeps_formNameInput (log W lvl msg).
Proof. intros st. reflexivity. Qed.

Lemma keeps_call {T} (c : Call T) : keeps_formNameInput (call W perform c).
Proof.
  intros st. unfold call, store_of.
  destruct (perform T c (browser st)) as [r w']. reflexivity.
Qed.

Lemma keeps_bind {A B} (m : M W A) (k : A -> M W B) :
  keeps_formNameInput m -> (forall a, keeps_formNameInput (k a)) ->
  keeps_formNameInput (bind W m k).
Proof.
  intros Hm Hk st. unfold bind. specialize (Hm st).
  destruct (m st) as [[[a|e] st1] tr1]; unfold store_of in *; cbn [fst snd] in *.
  - specialize (Hk a st1). destruct (k a st1) as [[r st2] tr2].
    unfold store_of in Hk. cbn [fst snd] in *. congruence.
  - exact Hm.
Qed.

Lemma keeps_try_catch {A} (m : M W A) (h : Js.Error -> M W A) :
  keeps_formNameInput m -> (forall e, keeps_formNameInput (h e)) ->
  keeps_formNameInput (try_catch W m h).
Proof.
  intros Hm Hh st. unfold try_catch. specialize (Hm st).
  destruct (m st) as [[[a|e] st1] tr1]; unfold store_of in *; cbn [fst snd] in *.
  - exact Hm.
  - specialize (Hh e st1). destruct (h e st1) as [[r st2] tr2].
    unfold store_of in Hh. cbn [fst snd] in *. congruence.
Qed.

Ltac keeps_auto :=
  repeat first
    [ assumption
    | apply keeps_ret
    | apply keeps_throw
    | apply keeps_log
    | apply keeps_call
    | apply keeps_bind; [|intros ?]
    | apply keeps_try_catch; [|intros ?]
    | progress cbv beta zeta
    | match goal with
      | |- keeps_formNameInput (if ?b then _ else _) => destruct b
      | |- keeps_formNameInput (match ?x with _ => _ end) => destruct x
      end ].

Lemma keeps_findVisible sels : keeps_formNameInput (findVisible perform sels).
Proof.
  induction sels as [|c rest IH]; simpl; unfold isElementVisible; keeps_auto.
Qed.

Lemma keeps_formTail l name description :
  keeps_formNameInput (formTail perform l name description).
Proof.
  pose proof (keeps_findVisible descInputSelectors) as Hv.
  unfold formTail, fillInput, waitForElement. keeps_auto.
Qed.

(** X12. [fillFormCreationForm] remembers the candidate it found: after a
    run in which a candidate for the name input was seen visible,
    [this.formNameInput] is that candidate, also when the method throws
    later on; after a run in which none was, it is what it was. *)
Theorem form_remembers_the_name_input :
  forall (sels : Locator -> list Locator) (name : string)
         (description : option string) (st : Store W),
    let r := fillFormCreationForm_over perform sels name description st in
    (forall c, In (c, true) (isVisible_results (trace_of r)) ->
               formNameInput (store_of r) = c)
    /\ ((forall c, ~ In (c, true) (isVisible_results (trace_of r))) ->
        formNameInput (store_of r) = formNameInput st).
Proof.
  intros sels name description st. cbv zeta.
  rewrite fillFormCreationForm_unfold.
  destruct (perform unit (PageWaitForTimeout 2000) (browser st))
    as [[u|e] w'].
  - destruct (resolveNameInput_cases (sels (formNameInput st))
                (mkStore w' (formNameInput st))) as [Hkeep Hcase].
    destruct (resolveNameInput perform (sels (formNameInput st))
                (mkStore w' (formNameInput st)))
      as [[[nameInput|e] st1] tr1];
      unfold outcome_of, trace_of, store_of in *; cbn [fst snd] in *.
    + destruct Hcase as [_ Hsee].
      pose proof (keeps_formTail nameInput name description
                    (mkStore (browser st1) nameInput)) as Hk.
      pose proof (quiet_isVisible_formTail nameInput name description
                    (mkStore (browser st1) nameInput)) as Hq.
      destruct (formTail perform nameInput name description
                  (mkStore (browser st1) nameInput)) as [[r st2] tr2].
      unfold store_of, trace_of in *. cbn [fst snd formNameInput] in *.
      assert (Hres : isVisible_results
                       (EvLog Info "Waiting for Form creation form to appear..."
                        :: EvCall (PageWaitForTimeout 2000) (Ok u) :: tr1 ++ tr2)
                     = isVisible_results tr1).
      { simpl. rewrite isVisible_results_app.
        rewrite (isVisible_results_quiet tr2 Hq). apply app_nil_r. }
      rewrite Hres. split.
      * intros c Hc. apply Hsee in Hc. congruence.
      * intros Hnone. destruct (Hnone nameInput). apply Hsee. reflexivity.
    + destruct Hcase as [_ Hnone]. split.
      * intros c Hc. simpl in Hc. destruct (Hnone c Hc).
      * intros _. exact Hkeep.
  - unfold store_of, trace_of. cbn [fst snd]. split.
    + intros c [].
    + reflexivity.
Qed.

(* ===================================================================== *)
(** ** [navigateToLogin], and the checks of [FormPage] *)
(* ===================================================================== *)

Lemma outcome_bind {A B} (m : M W A) (k : A -> M W B) (st : Store W) :
  outcome_of (bind W m k st)
  = match outcome_of (m st) with
    | Ok a => outcome_of (k a (store_of (m st)))
    | Throw e => Throw e
    end.
Proof.
  unfold bind, outcome_of, store_of.
  destruct (m st) as [[[a|e] st1] tr1]; [|reflexivity].
  cbn [fst snd]. destruct (k a st1) as [[r st2] tr2]. reflexivity.
Qed.

Lemma trace_bind {A B} (m : M W A) (k : A -> M W B) (st : Store W) :
  trace_of (bind W m k st)
  = trace_of (m st)
    ++ match outcome_of (m st) with
       | Ok a => trace_of (k a (store_of (m st)))
       | Throw e => []
       end.
Proof.
  unfold bind, outcome_of, store_of, trace_of.
  destruct (m st) as [[[a|e] st1] tr1]; cbn [fst snd].
  - destruct (k a st1) as [[r st2] tr2]. reflexivity.
  - symmetry. apply app_nil_r.
Qed.

(** X13. [navigateToLogin] ends as its navigation ends: its outcome is
    that of [goto] to [/#/login] with 3 as [retries], so it makes at most
    three attempts, and a failure of the wait that follows a successful
    navigation is dropped. *)
Theorem navigateToLogin_ends_as_goto :
  forall (st : Store W),
    let r := navigateToLogin perform st in
    outcome_of r
    = outcome_of (goto perform "/#/login"
                       (mkNavOptions (Some (Js.Whole 3)) (Some 90000)
                                     (Some "domcontentloaded")) st)
    /\ (attempts (trace_of r) <= 3)%nat.
Proof.
  intros st. cbv zeta. unfold navigateToLogin.
  rewrite outcome_bind, trace_bind.
  pose proof (goto_loop_attempts_le 3 "/#/login" (Js.Whole 3) 1
                (mkGotoOptions 90000 "domcontentloaded") st) as Hle.
  change (goto_loop perform 3 "/#/login" (Js.Whole 3) 1
            (mkGotoOptions 90000 "domcontentloaded") st)
    with (goto perform "/#/login"
            (mkNavOptions (Some (Js.Whole 3)) (Some 90000)
                          (Some "domcontentloaded")) st)
    in Hle.
  destruct (goto perform "/#/login"
              (mkNavOptions (Some (Js.Whole 3)) (Some 90000)
                            (Some "domcontentloaded")) st)
    as [[[[]|e] st1] tr1]; unfold outcome_of, trace_of, store_of in *;
    cbn [fst snd] in *.
  - unfold try_catch, call, log.
    destruct (perform unit (PageWaitForTimeout 2000) (browser st1))
      as [[[]|e] w']; cbn [fst snd];
      (split; [reflexivity|]); rewrite attempts_app;
      unfold attempts at 2; simpl; lia.
  - split; [reflexivity|]. rewrite app_nil_r. exact Hle.
Qed.

Lemma anyVisible_step :
  forall c rest (st : Store W),
    anyVisible perform (c :: rest) st =
    match perform unit (LocWaitFor c "visible" (Some 5000)) (browser st) with
    | (Ok u, w') =>
        (Ok true, mkStore w' (formNameInput st),
         [EvCall (LocWaitFor c "visible" (Some 5000)) (Ok u);
          EvLog Debug ("Element is visible: " ++ locator_text c)%string])
    | (Throw e, w') =>
        match anyVisible perform rest (mkStore w' (formNameInput st)) with
        | (r, st2, tr2) =>
            (r, st2,
             EvCall (LocWaitFor c "visible" (Some 5000)) (Throw e)
             :: EvLog Debug ("Element not visible: " ++ Js.message e)%string
             :: tr2)
        end
    end.
Proof.
  intros c rest st. simpl. unfold isElementVisible. unfold_monad.
  destruct (perform unit (LocWaitFor c "visible" (Some 5000)) (browser st))
    as [[u|e] w']; simpl; [reflexivity|].
  destruct (anyVisible perform rest
              {| browser := w'; formNameInput := formNameInput st |})
    as [[r st2] tr2]. reflexivity.
Qed.

Lemma anyVisible_spec :
  forall (indicators : list Locator) (st : Store W),
    let r := anyVisible perform indicators st in
    match outcome_of r with
    | Ok true =>
        exists pre c post,
          indicators = pre ++ c :: post
          /\ waitFor_results (trace_of r) = all_missed pre ++ [(c, true)]
    | Ok false => waitFor_results (trace_of r) = all_missed indicators
    | Throw _ => False
    end.
Proof.
  induction indicators as [|c rest IH]; intros st; cbv zeta; [reflexivity|].
  rewrite anyVisible_step.
  destruct (perform unit (LocWaitFor c "visible" (Some 5000)) (browser st))
    as [[u|e] w'].
  - exists [], c, rest. split; reflexivity.
  - specialize (IH (mkStore w' (formNameInput st))). cbv zeta in IH.
    destruct (anyVisible perform rest (mkStore w' (formNameInput st)))
      as [[[[|]|e'] st2] tr2]; unfold outcome_of, trace_of in *;
      cbn [fst snd] in *.
    + destruct IH as (pre & c' & post & -> & Htr).
      exists (c :: pre), c', post. split; [reflexivity|].
      simpl. rewrite Htr. reflexivity.
    + simpl. rewrite IH. reflexivity.
    + exact IH.
Qed.

(** X14. The loop of [verifyFileUploaded], over its status indicators or
    any other list, never throws.  It answers [true] exactly when one of
    the indicators is seen visible, and then it has probed the indicators
    in order up to that one and no further; it answers [false] after
    probing them all in vain. *)
Theorem verifyFileUploaded_probes_in_order :
  forall (indicators : list Locator) (st : Store W),
    verifyFileUploaded perform st = anyVisible perform statusIndicators st
    /\ let r := anyVisible perform indicators st in
       match outcome_of r with
       | Ok true =>
           exists pre c post,
             indicators = pre ++ c :: post
             /\ waitFor_results (trace_of r) = all_missed pre ++ [(c, true)]
       | Ok false => waitFor_results (trace_of r) = all_missed indicators
       | Throw _ => False
       end.
Proof.
  intros indicators st. split; [reflexivity|].
  exact (anyVisible_spec indicators st).
Qed.

(** X15. The two panel checks of [FormPage] never throw and always probe
    all four of their elements, in the order of the fields: each field of
    the result is the answer of the probe of its element. *)
Theorem panel_checks_probe_everything :
  forall (st : Store W),
    (exists ui st' tr,
        verifyTextboxUIElements perform st = (Ok ui, st', tr)
        /\ waitFor_results tr
           = [ (textboxLabelInput, labelInputVisible ui);
               (textboxPlaceholderInput, placeholderInputVisible ui);
               (textboxRequiredCheckbox, requiredCheckboxVisible ui);
               (textboxValueInput, valueInputVisible ui) ])
    /\ (exists ui st' tr,
           verifyFileUploadUIElements perform st = (Ok ui, st', tr)
           /\ waitFor_results tr
              = [ (fileUploadLabelInput, file_labelInputVisible ui);
                  (fileUploadAcceptInput, acceptInputVisible ui);
                  (fileInput, fileInputVisible ui);
                  (uploadButton, uploadButtonVisible ui) ]).
Proof.
  intros st. split.
  - unfold verifyTextboxUIElements, isElementVisible. run;
      eexists _, _, _; split; reflexivity.
  - unfold verifyFileUploadUIElements, isElementVisible. run;
      eexists _, _, _; split; reflexivity.
Qed.

(** X16. [enterTextInTextbox] can return without having entered
    anything: when it returns, either the text was typed and read back as
    requested, or the value input was not seen visible and nothing was
    typed at all. *)
Theorem enterTextInTextbox_may_skip :
  forall (text : string) (st : Store W),
    let r := enterTextInTextbox perform text st in
    outcome_of r = Ok tt ->
    read_backs (trace_of r) = [Ok text]
    \/ (count is_typing (trace_of r) = 0%nat
        /\ In (textboxValueInput, false) (waitFor_results (trace_of r))).
Proof.
  intros text st r. subst r.
  unfold enterTextInTextbox, clickTextboxElement, clickElement, fillInput,
    waitForElement, isElementVisible.
  run; try discriminate;
    try match goal with
        | |- context [String.eqb ?a text] =>
            destruct (String.eqb_spec a text) as [->|Hne]; simpl
        end;
    try discriminate; intros _;
    first [ left; reflexivity
          | right; split; [reflexivity|simpl; tauto] ].
Qed.

Lemma press_button_spec :
  forall (button : Locator) (st : Store W),
    let r := bind W (waitForElement perform button None)
               (fun _ => bind W (clickElement perform button default_click)
                           (fun _ => waitForLoad perform)) st in
    outcome_of r = Ok tt
    <-> (click_outcomes (trace_of r) = [Ok tt]
         /\ (loadState_results (trace_of r) = [("load", true)]
             \/ loadState_results (trace_of r)
                = [("load", false); ("domcontentloaded", true)])).
Proof.
  intros button st. cbv zeta.
  unfold waitForLoad, clickElement, waitForElement.
  run; repeat match goal with u : unit |- _ => destruct u end;
    split; intros H; try reflexivity; try discriminate; auto;
    try (destruct H as [H1 [H|H]]; discriminate).
Qed.

(** X17. [createForm] and [saveForm] return normally exactly when their
    one click went through and the page then reached the load state or,
    that wait failing, the content-loaded state. *)
Theorem createForm_saveForm_succeed_iff :
  forall (st : Store W),
    (let r := createForm perform st in
     outcome_of r = Ok tt
     <-> (click_outcomes (trace_of r) = [Ok tt]
          /\ (loadState_results (trace_of r) = [("load", true)]
              \/ loadState_results (trace_of r)
                 = [("load", false); ("domcontentloaded", true)])))
    /\ (let r := saveForm perform st in
        outcome_of r = Ok tt
        <-> (click_outcomes (trace_of r) = [Ok tt]
             /\ (loadState_results (trace_of r) = [("load", true)]
                 \/ loadState_results (trace_of r)
                    = [("load", false); ("domcontentloaded", true)]))).
Proof.
  intros st. split.
  - exact (press_button_spec createButton st).
  - exact (press_button_spec saveFormButton st).
Qed.

(* ===================================================================== *)
(** ** What a successful [login] has typed *)
(* ===================================================================== *)

Lemma read_backs_app (t1 t2 : Trace) :
  read_backs (t1 ++ t2) = read_backs t1 ++ read_backs t2.
Proof. observation_app t1. Qed.

Lemma read_backs_quiet (tr : Trace) :
  count is_readBack tr = 0%nat -> read_backs tr = [].
Proof.
  unfold count. induction tr as [|[T c r|lvl msg] tr IH]; simpl;
    [reflexivity| |exact IH].
  destruct c; simpl; try exact IH. discriminate.
Qed.

Lemma quiet_readBack_findUsernameField sels :
  forall i, quiet is_readBack (findUsernameField perform i sels).
Proof. induction sels as [|c rest IH]; intros i; simpl; quiet_auto. Qed.

Lemma quiet_readBack_findPasswordField sels :
  forall i, quiet is_readBack (findPasswordField perform i sels).
Proof. induction sels as [|c rest IH]; intros i; simpl; quiet_auto. Qed.

Lemma quiet_readBack_findPasswordInFrames frames :
  quiet is_readBack (findPasswordInFrames perform frames).
Proof. induction frames as [|n rest IH]; simpl; quiet_auto. Qed.

Lemma quiet_readBack_waitForUrlChange n url :
  quiet is_readBack (waitForUrlChange perform n url).
Proof. induction n as [|n IH]; simpl; quiet_auto. Qed.

Lemma quiet_readBack_clickElement l o :
  quiet is_readBack (clickElement perform l o).
Proof. unfold clickElement, waitForElement. quiet_auto. Qed.

(** A [fillInput] with the default options that returns has read the text
    back. *)
Lemma fillInput_returns_read_back :
  forall l text (st : Store W),
    outcome_of (fillInput perform l text default_fill st) = Ok tt ->
    read_backs (trace_of (fillInput perform l text default_fill st))
    = [Ok text].
Proof.
  intros l text st. unfold fillInput, waitForElement. run; try discriminate.
  match goal with
  | |- context [String.eqb ?a text] =>
      destruct (String.eqb_spec a text) as [->|Hne]; simpl
  end; [reflexivity|discriminate].
Qed.

Lemma outcome_of_mk {A} (o : Outcome A) (st : Store W) (tr : Trace) :
  outcome_of (o, st, tr) = o.
Proof. reflexivity. Qed.

Lemma store_of_mk {A} (o : Outcome A) (st : Store W) (tr : Trace) :
  store_of (o, st, tr) = st.
Proof. reflexivity. Qed.

Lemma trace_of_mk {A} (o : Outcome A) (st : Store W) (tr : Trace) :
  trace_of (o, st, tr) = tr.
Proof. reflexivity. Qed.

(** One step through a method whose run is [bind m k st], where [m]
    reads nothing back: go on with the continuation. *)
Ltac quiet_stage H tac :=
  rewrite outcome_bind in H; rewrite trace_bind, read_backs_app;
  match type of H with
  | match outcome_of (?m ?st) with _ => _ end = _ =>
      let Hq := fresh "Hq" in
      assert (Hq : quiet is_readBack m) by tac;
      rewrite (read_backs_quiet _ (Hq st)); clear Hq;
      let a := fresh "a" in
      let e := fresh "e" in
      let st' := fresh "st" in
      let tr := fresh "tr" in
      destruct (m st) as [[[a|e] st'] tr];
      rewrite ?outcome_of_mk, ?store_of_mk in H |- *;
      cbv beta iota in H |- *; [|discriminate H];
      cbn [app]
  end.

(** The same where [m] is a [fillInput] with the default options. *)
Ltac fill_stage H :=
  rewrite outcome_bind in H; rewrite trace_bind, read_backs_app;
  match type of H with
  | match outcome_of (fillInput perform ?l ?text default_fill ?st) with
    | _ => _ end = _ =>
      let Hf := fresh "Hf" in
      pose proof (fillInput_returns_read_back l text st) as Hf;
      let a := fresh "a" in
      let e := fresh "e" in
      let st' := fresh "st" in
      let tr := fresh "tr" in
      destruct (fillInput perform l text default_fill st) as [[[a|e] st'] tr];
      rewrite ?outcome_of_mk, ?store_of_mk, ?trace_of_mk in H, Hf |- *;
      cbv beta iota in H |- *; [|discriminate H];
      destruct a; rewrite (Hf eq_refl); clear Hf
  end.

(** X18. A [login] that returns normally has typed both credentials and
    read them back as given: the read-backs of the run are the username
    and then the password, and nothing else. *)
Theorem login_returns_after_both_read_backs :
  forall (usernameSelectors passwordSelectors loginButtonSelectors : list Locator)
         (username password : string) (st : Store W),
    let r := login_over perform usernameSelectors passwordSelectors
                        loginButtonSelectors username password st in
    outcome_of r = Ok tt ->
    read_backs (trace_of r) = [Ok username; Ok password].
Proof.
  intros usels psels bsels username password st. cbv zeta.
  unfold login_over. intros H.
  pose proof (quiet_readBack_findUsernameField usels) as Hu.
  pose proof (quiet_readBack_findPasswordField psels) as Hp.
  pose proof quiet_readBack_findPasswordInFrames as Hf.
  pose proof quiet_readBack_waitForUrlChange as Hurl.
  pose proof (quiet_findVisible is_readBack bsels
                ltac:(reflexivity) ltac:(reflexivity)) as Hv.
  quiet_stage H ltac:(quiet_auto).
  quiet_stage H ltac:(unfold resolveUsernameField; quiet_auto).
  fill_stage H.
  quiet_stage H ltac:(quiet_auto).
  quiet_stage H ltac:(unfold resolvePasswordField; quiet_auto).
  fill_stage H.
  quiet_stage H ltac:(quiet_auto).
  quiet_stage H ltac:(exact Hv).
  quiet_stage H ltac:(idtac;
                      match goal with
                      | |- context [match ?x with
                                    | Some _ => _
                                    | None => _
                                    end] =>
                          destruct x;
                          [apply quiet_readBack_clickElement|quiet_auto]
                      end).
  match goal with
  | |- context [trace_of (?m ?st)] =>
      assert (Hq : quiet is_readBack m) by quiet_auto;
      rewrite (read_backs_quiet _ (Hq st))
  end.
  reflexivity.
Qed.

(* ===================================================================== *)
(** ** [isLoggedIn] *)
(* ===================================================================== *)

Section LoggedIn.

Variable textContent : Locator -> W -> Outcome (option string) * W.

Lemma url_results_app (t1 t2 : Trace) :
  url_results (t1 ++ t2) = url_results t1 ++ url_results t2.
Proof. observation_app t1. Qed.

(** The first block of [isLoggedIn] either returns [false], or falls
    through after reading a URL that is not a login URL. *)
Lemma loginPageCheck_spec :
  forall (st : Store W),
    let r := loginPageCheck perform textContent st in
    match outcome_of r with
    | Ok (Some b) => b = false
    | Ok None =>
        exists url,
          In (Ok url) (url_results (trace_of r))
          /\ on_login_page url = false
    | Throw _ => True
    end.
Proof.
  intros st. cbv zeta.
  unfold loginPageCheck, getErrorMessage, getText, call_textContent,
    isElementVisible, waitForElement.
  unfold_monad. simpl.
  repeat first
    [ next_call
    | next_branch
    | match goal with
      | |- context [textContent ?l ?w] =>
          let r := fresh "r" in
          let w' := fresh "w" in
          destruct (textContent l w) as [r w']; destruct r as [[?|]|?]; simpl
      | |- context [on_login_page ?u] =>
          let E := fresh "L" in
          destruct (on_login_page u) eqn:E; simpl
      | |- context [String.eqb ?a EmptyString] =>
          destruct (String.eqb a EmptyString); simpl
      end ];
    try reflexivity; try exact I;
    (eexists; split; [|eassumption]; simpl; auto).
Qed.

(** X19. [isLoggedIn] answers [true] only after it has read a URL that is
    not a login URL: in a run where every answer of [page.url()] contains
    [/login], it answers [false] or throws. *)
Theorem isLoggedIn_needs_a_changed_url :
  forall (indicators : list Locator) (st : Store W),
    let r := isLoggedIn_over perform textContent indicators st in
    outcome_of r = Ok true ->
    exists url,
      In (Ok url) (url_results (trace_of r)) /\ on_login_page url = false.
Proof.
  intros indicators st. cbv zeta. unfold isLoggedIn_over.
  rewrite outcome_bind, trace_bind.
  pose proof (loginPageCheck_spec st) as Hcheck. cbv zeta in Hcheck.
  destruct (loginPageCheck perform textContent st)
    as [[[[b|]|e] st1] tr1]; unfold outcome_of, trace_of, store_of in *;
    cbn [fst snd] in *.
  - subst b. discriminate.
  - intros _. destruct Hcheck as (url & Hin & Hurl). exists url.
    split; [|exact Hurl]. rewrite url_results_app. apply in_or_app.
    left. exact Hin.
  - discriminate.
Qed.

End LoggedIn.

End Properties.

(* ===================================================================== *)
(** ** The error classification of [goto] *)
(* ===================================================================== *)

Lemma append_assoc (a b c : string) :
  ((a ++ b) ++ c = a ++ (b ++ c))%string.
Proof. induction a as [|x a IH]; simpl; [reflexivity|now rewrite IH]. Qed.

Lemma prefix_spec (p s : string) :
  String.prefix p s = true <-> exists t, s = (p ++ t)%string.
Proof.
  revert s. induction p as [|a p IH]; intros s.
  - split; [intros _; exists s; reflexivity|].
    intros _. destruct s; reflexivity.
  - destruct s as [|b s]; simpl.
    + split; [discriminate|intros [t Ht]; discriminate Ht].
    + destruct (ascii_dec a b) as [->|Hne].
      * rewrite IH. split; intros [t Ht]; exists t.
        -- now rewrite Ht.
        -- now injection Ht.
      * split; [discriminate|].
        intros [t Ht]. injection Ht as Hab _. now elim Hne.
Qed.

Lemma includes_cons (c : ascii) (s sub : string) :
  Js.includes (String c s) sub
  = if String.prefix sub (String c s) then true else Js.includes s sub.
Proof. reflexivity. Qed.

Lemma includes_spec (s sub : string) :
  Js.includes s sub = true
  <-> exists pre post, s = (pre ++ sub ++ post)%string.
Proof.
  split.
  - induction s as [|c s IH].
    + destruct sub as [|x sub]; simpl; [|discriminate].
      intros _. exists EmptyString, EmptyString. reflexivity.
    + rewrite includes_cons.
      destruct (String.prefix sub (String c s)) eqn:P.
      * intros _. apply prefix_spec in P as [t Ht].
        exists EmptyString, t. exact Ht.
      * intros H. destruct (IH H) as (pre & post & E).
        exists (String c pre), post. simpl. now rewrite E.
  - intros (pre & post & E). subst s.
    induction pre as [|c pre IH].
    + assert (P : String.prefix sub (sub ++ post) = true)
        by (apply prefix_spec; now exists post).
      change (EmptyString ++ sub ++ post)%string with (sub ++ post)%string.
      destruct (sub ++ post)%string as [|c u].
      * destruct sub; [reflexivity|discriminate P].
      * now rewrite includes_cons, P.
    + change (String c pre ++ sub ++ post)%string
        with (String c (pre ++ sub ++ post)).
      rewrite includes_cons.
      destruct (String.prefix sub (String c (pre ++ sub ++ post)));
        [reflexivity|exact IH].
Qed.

(** A text that holds a phrase holds every part of the phrase. *)
Lemma includes_part (s a b c : string) :
  Js.includes s (a ++ b ++ c) = true -> Js.includes s b = true.
Proof.
  intros H. apply includes_spec in H as (pre & post & E).
  apply includes_spec. exists (pre ++ a)%string, (c ++ post)%string.
  now rewrite E, !append_assoc.
Qed.

Lemma lower_ascii_idempotent (c : ascii) :
  Js.lower_ascii (Js.lower_ascii c) = Js.lower_ascii c.
Proof.
  destruct c as [[] [] [] [] [] [] [] []]; reflexivity.
Qed.

Lemma toLowerCase_idempotent (s : string) :
  Js.toLowerCase (Js.toLowerCase s) = Js.toLowerCase s.
Proof.
  induction s as [|c s IH]; simpl;
    [reflexivity|now rewrite IH, lower_ascii_idempotent].
Qed.

(** X20. Whether [goto] retries after an error is decided by six tests:
    the lower-cased message holds one of the five words
    [err_http2_protocol_error], [net::], [timeout], [err_connection] and
    [page.goto], or the error is named [TimeoutError].  The tests for
    [navigation timeout] and [timeout exceeded] never change the answer,
    and neither does the letter case of the message. *)
Theorem isNetworkError_six_tests :
  forall error : Js.Error,
    let errorMessage := Js.toLowerCase (Js.message error) in
    isNetworkError error
    = (Js.includes errorMessage "err_http2_protocol_error"
       || Js.includes errorMessage "net::"
       || Js.includes errorMessage "timeout"
       || Js.includes errorMessage "err_connection"
       || Js.includes errorMessage "page.goto"
       || String.eqb (Js.name error) "TimeoutError")
    /\ isNetworkError
         (Js.mkError (Js.name error) (Js.toLowerCase (Js.message error)))
       = isNetworkError error.
Proof.
  intros error. cbv zeta. split.
  - unfold isNetworkError.
    set (m := Js.toLowerCase (Js.message error)).
    assert (N : Js.includes m "navigation timeout" = true ->
                Js.includes m "timeout" = true)
      by apply (includes_part m "navigation " "timeout" EmptyString).
    assert (X : Js.includes m "timeout exceeded" = true ->
                Js.includes m "timeout" = true)
      by apply (includes_part m EmptyString "timeout" " exceeded").
    destruct (Js.includes m "err_http2_protocol_error"); [reflexivity|].
    destruct (Js.includes m "net::"); [reflexivity|].
    destruct (Js.includes m "timeout").
    + cbn [orb]. now rewrite !orb_true_r.
    + destruct (Js.includes m "navigation timeout");
        [discriminate (N eq_refl)|].
      destruct (Js.includes m "timeout exceeded");
        [discriminate (X eq_refl)|].
      cbn [orb]. now rewrite orb_false_r.
  - unfold isNetworkError. cbn [Js.message Js.name].
    now rewrite toLowerCase_idempotent.
Qed.










(* ===================================================================== *)
(** ** Concrete runs on the simulated browser *)
(* ===================================================================== *)

Lemma unreachable_always_transient :
  always_transient (Sim.perform Sim.unreachable).
Proof. intros url o w. eexists _, _. split; reflexivity. Defined.

Lemma flaky_always_transient : always_transient (Sim.perform Sim.flaky).
Proof.
  intros url o [[|[|n]] v]; eexists _, _; split; reflexivity.
Defined.

Lemma sim_timers_fire (p : Sim.Page) : timers_fire (Sim.perform p).
Proof. intros ms w. eexists. reflexivity. Defined.

Lemma blank_never_appears (l : Locator) :
  never_appears (Sim.perform Sim.blank) l.
Proof. intros state timeout w. eexists _, _. reflexivity. Defined.

Lemma hidden_not_visible (p : Sim.Page) (l : Locator) :
  Sim.visible p l = false -> not_visible (Sim.perform p) l.
Proof.
  intros H timeout w. simpl. rewrite H.
  destruct (Sim.malformed p l); [right|left]; repeat eexists.
Defined.

(** C1 does not hold as stated: with the default of 3 for [retries], a
    page that always times out is tried 3 times, not 4. *)
Lemma goto_default_makes_three_attempts :
  always_transient (Sim.perform Sim.unreachable)
  /\ maxRetries_of Sim.no_options = Js.Whole 3
  /\ outcome_of (goto (Sim.perform Sim.unreachable) "/" Sim.no_options Sim.store)
     = Throw Sim.navigation_timeout
  /\ attempts (trace_of (goto (Sim.perform Sim.unreachable) "/"
                              Sim.no_options Sim.store)) = 3%nat
  /\ attempts (trace_of (goto (Sim.perform Sim.unreachable) "/"
                              Sim.no_options Sim.store))
     <> Z.to_nat (Js.floor (maxRetries_of Sim.no_options) + 1).
Proof.
  split; [exact unreachable_always_transient|].
  split; [reflexivity|]. split; [reflexivity|]. split; [reflexivity|].
  vm_compute. discriminate.
Qed.

Lemma goto_exhausts_after_maxRetries_attempts_witness :
  exists e earlier,
    outcome_of (goto (Sim.perform Sim.flaky) "/"
                     (mkNavOptions (Some (Js.Whole 2)) None None) Sim.store)
    = Throw e
    /\ isNetworkError e = true
    /\ attempts (trace_of (goto (Sim.perform Sim.flaky) "/"
                                (mkNavOptions (Some (Js.Whole 2)) None None)
                                Sim.store))
       = Z.to_nat 2
    /\ goto_errors (trace_of (goto (Sim.perform Sim.flaky) "/"
                                   (mkNavOptions (Some (Js.Whole 2)) None None)
                                   Sim.store))
       = (earlier ++ [e])%list
    /\ List.length earlier = Z.to_nat (2 - 1).
Proof.
  apply (goto_exhausts_after_maxRetries_attempts Sim.State
           (Sim.perform Sim.flaky) "/"
           (mkNavOptions (Some (Js.Whole 2)) None None) Sim.store 2).
  - exact flaky_always_transient.
  - exact (sim_timers_fire Sim.flaky).
  - reflexivity.
  - lia.
Defined.

(** Of two attempts at a page that first refuses and then resets the
    connection, [goto] throws the reset; and five attempts are made when
    [retries] is 5. *)
Example exhausted_goto_throws_the_last_error :
  (let r := goto (Sim.perform Sim.flaky) "/"
                 (mkNavOptions (Some (Js.Whole 2)) None None) Sim.store in
   outcome_of r = Throw Sim.connection_reset
   /\ goto_errors (trace_of r)
      = [Sim.connection_refused; Sim.connection_reset])
  /\ attempts (trace_of (goto (Sim.perform Sim.unreachable) "/"
                              (mkNavOptions (Some (Js.Whole 5)) None None)
                              Sim.store)) = 5%nat.
Proof. repeat split. Qed.

(** A [retries] that is not whole: after two failed attempts the loop
    runs out, and [goto] returns normally although no navigation
    succeeded. *)
Example fractional_retries_fall_through :
  let r := goto (Sim.perform Sim.unreachable) "/"
                (mkNavOptions (Some (Js.Fraction 2 "2.5")) None None)
                Sim.store in
  outcome_of r = Ok tt
  /\ goto_outcomes (trace_of r)
     = [Throw Sim.navigation_timeout; Throw Sim.navigation_timeout]
  /\ waits_between (trace_of r) = [2000].
Proof. repeat split. Qed.

(** C2 does not hold as stated: a failed screenshot reaches the caller of
    [login] in place of the error that the password field was not found;
    in [fillFormCreationForm] it is dropped, and no log line tells of it. *)
Lemma capture_failure_escapes_or_goes_unlogged :
  (outcome_of (login (Sim.perform Sim.login_without_password)
                     "user" "secret" Sim.store) = Throw Sim.disk_full
   /\ Sim.disk_full <> password_not_found)
  /\ (let r := fillFormCreationForm (Sim.perform (Sim.without_disk Sim.blank))
                 "Form" None Sim.store in
      outcome_of r = Throw form_name_not_found
      /\ screenshot_outcomes (trace_of r) = [Throw Sim.disk_full]
      /\ filter is_log (after_screenshot (trace_of r)) = []).
Proof.
  split; [split; [reflexivity|discriminate]|].
  cbv zeta. split; [reflexivity|]. split; reflexivity.
Qed.

Lemma form_capture_failure_is_swallowed_witness :
  let r := fillFormCreationForm_over (Sim.perform (Sim.without_disk Sim.blank))
             (fun l => [l; Sim.a; Sim.b]) "Form" None Sim.store in
  outcome_of r = Throw form_name_not_found
  /\ List.length (screenshot_outcomes (trace_of r)) = 1%nat
  /\ after_screenshot (trace_of r) = [].
Proof.
  apply (form_capture_failure_is_swallowed Sim.State
           (Sim.perform (Sim.without_disk Sim.blank))).
  - exact (sim_timers_fire (Sim.without_disk Sim.blank)).
  - intros l _. apply hidden_not_visible. reflexivity.
Defined.

(** C3 does not hold as stated: the failure of a resolution does not tell
    how many candidates were tried, it is the same for one candidate and
    for two.  And the username resolution of [login] may not fail at all
    when no candidate is found. *)
Lemma not_found_does_not_enumerate :
  (~ exists tried : Js.Error -> nat,
       forall sels : list Locator,
         exists e,
           outcome_of (resolveNameInput (Sim.perform Sim.blank) sels Sim.store)
             = Throw e
           /\ tried e = List.length sels)
  /\ (~ exists tried : Js.Error -> nat,
          forall sels : list Locator,
            exists e,
              outcome_of (resolveUsernameField (Sim.perform Sim.blank) sels
                                               Sim.store) = Throw e
              /\ tried e = List.length sels)
  /\ outcome_of (resolveUsernameField (Sim.perform Sim.hidden_email)
                                      usernameSelectors Sim.store)
     = Ok (first (page_locator ("input[type=" ++ Js.q "email" ++ "]"))).
Proof.
  split; [|split; [|reflexivity]].
  - intros (tried & H).
    destruct (H [Sim.a]) as (e1 & H1 & L1).
    destruct (H [Sim.a; Sim.b]) as (e2 & H2 & L2).
    vm_compute in H1, H2. injection H1 as <-. injection H2 as <-.
    simpl in L1, L2. congruence.
  - intros (tried & H).
    destruct (H [Sim.a]) as (e1 & H1 & L1).
    destruct (H [Sim.a; Sim.b]) as (e2 & H2 & L2).
    vm_compute in H1, H2. injection H1 as <-. injection H2 as <-.
    simpl in L1, L2. congruence.
Qed.

Lemma unresolved_candidates_all_probed_witness :
  (let r := resolveNameInput (Sim.perform Sim.blank) [Sim.a; Sim.b; Sim.c]
                             Sim.store in
   outcome_of r = Throw form_name_not_found
   /\ isVisible_results (trace_of r) = all_missed [Sim.a; Sim.b; Sim.c]
   /\ List.length (isVisible_results (trace_of r)) = 3%nat)
  /\ (let r := resolveUsernameField (Sim.perform Sim.blank)
                 [Sim.a; Sim.b; Sim.c] Sim.store in
      waitFor_results (trace_of r) = all_missed [Sim.a; Sim.b; Sim.c]
      /\ List.length (waitFor_results (trace_of r)) = 3%nat
      /\ outcome_of r = Throw username_not_found).
Proof.
  apply (unresolved_candidates_all_probed Sim.State (Sim.perform Sim.blank)
           [Sim.a; Sim.b; Sim.c] Sim.store).
  intros l _. split.
  - apply blank_never_appears.
  - apply hidden_not_visible. reflexivity.
Defined.

(** C4 does not hold as stated: a failure that is permanent, the URL not
    being valid, and that is no network, timeout or protocol error, is
    not passed on after the first attempt.  Its message names
    [page.goto], so [goto] makes all three attempts, with the backoff
    waits between them. *)
Lemma permanent_goto_failure_is_retried :
  let r := goto (Sim.perform Sim.nowhere) "not a url" Sim.no_options
                Sim.store in
  spec_class Sim.invalid_url = ClassPermanent
  /\ outcome_of r = Throw Sim.invalid_url
  /\ attempts (trace_of r) = 3%nat
  /\ waits_between (trace_of r) = [2000; 4000]
  /\ attempts (trace_of r) <> 1%nat
  /\ filter is_timer (trace_of r) <> [].
Proof.
  cbv zeta. split; [reflexivity|]. split; [reflexivity|].
  split; [reflexivity|]. split; [reflexivity|].
  split; vm_compute; discriminate.
Qed.

Lemma rejected_action_fails_fast_witness :
  (let r := goto (Sim.perform (Sim.broken_with_disabled Sim.a)) "/"
                 Sim.no_options Sim.store in
   outcome_of r = Throw Sim.crashed
   /\ attempts (trace_of r) = 1%nat
   /\ filter is_timer (trace_of r) = [])
  /\ (let r := clickElement (Sim.perform (Sim.broken_with_disabled Sim.a))
                 Sim.a default_click Sim.store in
      (List.length (click_outcomes (trace_of r)) <= 1)%nat
      /\ filter is_timer (trace_of r) = []
      /\ outcome_of r = Throw (Js.new_Error "Element is not enabled")
      /\ click_outcomes (trace_of r) = []).
Proof.
  destruct (rejected_action_fails_fast Sim.State
              (Sim.perform (Sim.broken_with_disabled Sim.a))
              "/" Sim.no_options Sim.store Sim.crashed
              (Sim.mkState 1 EmptyString)) as [Hgoto Hclick].
  - vm_compute. discriminate.
  - reflexivity.
  - reflexivity.
  - split; [exact Hgoto|].
    destruct (Hclick Sim.a default_click Sim.store) as (H1 & H2 & H3 & _).
    split; [exact H1|]. split; [exact H2|].
    apply H3. vm_compute. left. reflexivity.
Defined.

(** A visible but disabled element is not clicked; with [force] the check
    is left out and the click is made. *)
Example disabled_element_is_not_clicked :
  (let r := clickElement (Sim.perform (Sim.disabled Sim.a)) Sim.a default_click
              Sim.store in
   outcome_of r = Throw (Js.new_Error "Element is not enabled")
   /\ enabled_checks (trace_of r) = [Ok false]
   /\ click_outcomes (trace_of r) = [])
  /\ (let r := clickElement (Sim.perform (Sim.disabled Sim.a)) Sim.a
                 (mkClickOptions None (Some true)) Sim.store in
      outcome_of r = Ok tt
      /\ enabled_checks (trace_of r) = []
      /\ click_outcomes (trace_of r) = [Ok tt]).
Proof. repeat split. Qed.

(** C5 does not hold as stated: a reset connection and a refused one are
    network errors alike, yet the wait after the reset is doubled and the
    wait after the refusal that follows it is not, so the waits go from
    8000 down to 6000. *)
Lemma same_class_waits_can_shrink :
  let tr := trace_of (goto (Sim.perform Sim.flaky) "/"
                           (mkNavOptions (Some (Js.Whole 4)) None None)
                           Sim.store) in
  goto_errors tr
  = [Sim.connection_refused; Sim.connection_reset; Sim.connection_refused;
     Sim.connection_refused]
  /\ Forall (fun e => spec_class e = ClassNetwork) (goto_errors tr)
  /\ waits_between tr = [2000; 8000; 6000]
  /\ ~ Sorted Z.le (waits_between tr).
Proof.
  cbv zeta. split; [reflexivity|]. split; [repeat constructor|].
  split; [reflexivity|].
  change (~ Sorted Z.le [2000; 8000; 6000]).
  intros H. inversion H as [|? ? H1 _]; subst.
  inversion H1 as [|? ? _ H2]; subst.
  inversion H2 as [|? ? H3]; subst. lia.
Qed.

Lemma goto_backoff_nondecreasing_witness :
  waits_between (trace_of (goto (Sim.perform Sim.unreachable) "/"
                                (mkNavOptions (Some (Js.Whole 8)) None None)
                                Sim.store))
    = [2000; 4000; 6000; 8000; 10000; 10000; 10000]
  /\ Sorted Z.le [2000; 4000; 6000; 8000; 10000; 10000; 10000]
  /\ Forall (fun d => 0 <= d) [2000; 4000; 6000; 8000; 10000; 10000; 10000].
Proof.
  split; [reflexivity|].
  apply (goto_backoff_nondecreasing Sim.State (Sim.perform Sim.unreachable)
           "/" (mkNavOptions (Some (Js.Whole 8)) None None) Sim.store
           ClassTimeout false).
  vm_compute. repeat constructor.
Defined.

Example five_attempts_escalate :
  goto_conditions (trace_of (goto (Sim.perform Sim.unreachable) "/"
                                  (mkNavOptions (Some (Js.Whole 5)) None None)
                                  Sim.store))
  = ["domcontentloaded"; "load"; "networkidle"; "networkidle"; "networkidle"].
Proof. reflexivity. Qed.

(** [retries: 0] is falsy and stands for the default; a negative
    [retries] makes the loop empty and [goto] returns without navigating. *)
Example zero_retries_is_the_default :
  attempts (trace_of (goto (Sim.perform Sim.unreachable) "/"
                           (mkNavOptions (Some (Js.Whole 0)) None None)
                           Sim.store)) = 3%nat.
Proof. reflexivity. Qed.

Example negative_retries_do_nothing :
  goto (Sim.perform Sim.unreachable) "/"
       (mkNavOptions (Some (Js.Whole (-1))) None None) Sim.store
  = (Ok tt, Sim.store, []).
Proof. reflexivity. Qed.

Lemma only_appears (l : Locator) :
  Sim.locator_eqb l l = true -> appears (Sim.perform (Sim.only l)) l.
Proof.
  intros H state timeout w. unfold Sim.perform, Sim.probe. simpl.
  rewrite H. eexists. reflexivity.
Defined.

Lemma only_is_visible (l : Locator) :
  Sim.locator_eqb l l = true -> is_visible (Sim.perform (Sim.only l)) l.
Proof.
  intros H timeout w. unfold Sim.perform. simpl.
  rewrite H. eexists. reflexivity.
Defined.

Lemma only_never_appears (c l : Locator) :
  Sim.locator_eqb c l = false -> never_appears (Sim.perform (Sim.only c)) l.
Proof.
  intros H state timeout w. unfold Sim.perform, Sim.probe. simpl.
  rewrite H. eexists _, _. reflexivity.
Defined.

Lemma resolution_in_order_first_match_witness :
  (let r := findUsernameField (Sim.perform (Sim.only Sim.c)) 0
              [Sim.a; Sim.b; Sim.c; Sim.d] Sim.store in
   outcome_of r = Ok (Some Sim.c)
   /\ waitFor_results (trace_of r)
      = [(Sim.a, false); (Sim.b, false); (Sim.c, true)])
  /\ (let r := findNameInput (Sim.perform (Sim.only Sim.c)) 0
                 [Sim.a; Sim.b; Sim.c; Sim.d] Sim.store in
      outcome_of r = Ok (Some Sim.c)
      /\ isVisible_results (trace_of r)
         = [(Sim.a, false); (Sim.b, false); (Sim.c, true)]).
Proof.
  pose proof (resolution_in_order_first_match Sim.State
                (Sim.perform (Sim.only Sim.c))
                [Sim.a; Sim.b] Sim.c [Sim.d] 0%nat Sim.store) as H.
  assert (Hpre : forall l, In l [Sim.a; Sim.b] ->
                   never_appears (Sim.perform (Sim.only Sim.c)) l
                   /\ not_visible (Sim.perform (Sim.only Sim.c)) l).
  { intros l [<-|[<-|[]]]; split;
      try (apply only_never_appears; reflexivity);
      apply hidden_not_visible; reflexivity. }
  destruct (H Hpre (only_appears Sim.c eq_refl) (only_is_visible Sim.c eq_refl))
    as (H1 & H2 & _).
  split; [exact H1|exact H2].
Defined.

Lemma throwing_probe_is_skipped_witness :
  findUsernameField (Sim.perform (Sim.garbled Sim.a)) 0 [Sim.a; Sim.b] Sim.store
  = (Ok None, Sim.store,
     [EvCall (LocWaitFor Sim.a "visible" (Some 10000)) (Throw Sim.syntax_error);
      EvLog Debug "Username selector 1 not found, trying next...";
      EvCall (LocWaitFor Sim.b "visible" (Some 10000)) (Throw Sim.timeout_error);
      EvLog Debug "Username selector 2 not found, trying next..."])
  /\ findNameInput (Sim.perform (Sim.garbled Sim.a)) 0 [Sim.a; Sim.b] Sim.store
     = (Ok None, Sim.store,
        [EvCall (LocIsVisible Sim.a 5000) (Throw Sim.syntax_error);
         EvCall (LocIsVisible Sim.b 5000) (Ok false)]).
Proof.
  destruct (throwing_probe_is_skipped Sim.State (Sim.perform (Sim.garbled Sim.a))
              0%nat Sim.a [Sim.b] Sim.store Sim.syntax_error Sim.syntax_error
              Sim.start Sim.start eq_refl eq_refl) as (H1 & H2 & _).
  split; [exact H1|exact H2].
Defined.

Lemma fillInput_validates_witness :
  read_backs (trace_of (fillInput (Sim.perform (Sim.only Sim.a)) Sim.a "hello"
                                  default_fill Sim.store)) = [Ok "hello"]
  /\ read_backs (trace_of (fillInput (Sim.perform (Sim.only Sim.a)) Sim.a "hello"
                                     (mkFillOptions (Js.Boolean false) None)
                                     Sim.store)) = [].
Proof.
  split.
  - destruct (fillInput_validates Sim.State (Sim.perform (Sim.only Sim.a))
                Sim.a "hello" default_fill Sim.store) as [H _].
    destruct (H ltac:(discriminate)) as [H1 _].
    exact (proj1 (H1 tt eq_refl)).
  - destruct (fillInput_validates Sim.State (Sim.perform (Sim.only Sim.a))
                Sim.a "hello" (mkFillOptions (Js.Boolean false) None) Sim.store)
      as [_ H].
    exact (H eq_refl).
Defined.

(** An input that keeps two characters fails the read-back; a falsy
    [validate] other than [false] still validates. *)
Example clipped_input_fails_validation :
  outcome_of (fillInput (Sim.perform (Sim.clipping Sim.a)) Sim.a "hello"
                        default_fill Sim.store)
  = Throw (validation_error "hello" "he")
  /\ outcome_of (fillInput (Sim.perform (Sim.clipping Sim.a)) Sim.a "hello"
                           (mkFillOptions (Js.Number 0) None) Sim.store)
     = Throw (validation_error "hello" "he")
  /\ outcome_of (fillInput (Sim.perform (Sim.clipping Sim.a)) Sim.a "hello"
                           (mkFillOptions (Js.Boolean false) None) Sim.store)
     = Ok tt.
Proof. repeat split. Qed.

(* ===================================================================== *)
(** ** Concrete runs of the other methods *)
(* ===================================================================== *)

Lemma goto_normal_return_witness :
  outcome_of (goto (Sim.perform Sim.blank) "/#/login" Sim.no_options
                   Sim.store) = Ok tt.
Proof.
  apply (proj1 (goto_normal_return Sim.State (Sim.perform Sim.blank)
                  "/#/login" Sim.no_options Sim.store)).
  vm_compute. left. reflexivity.
Defined.

Lemma goto_timeouts_bounded_witness :
  Sorted Z.ge
    (goto_timeouts
       (trace_of (goto (Sim.perform Sim.unreachable) "/#/login"
                       (mkNavOptions (Some (Js.Whole 3)) (Some 90000) None)
                       Sim.store))).
Proof.
  apply (goto_timeouts_bounded Sim.State (Sim.perform Sim.unreachable)
           "/#/login" (mkNavOptions (Some (Js.Whole 3)) (Some 90000) None)
           Sim.store).
  vm_compute. discriminate.
Defined.

(** The three attempts of [navigateToLogin] at a page that keeps timing
    out run with 90, 70 and 60 seconds. *)
Example unreachable_login_page_timeouts :
  goto_timeouts
    (trace_of (navigateToLogin (Sim.perform Sim.unreachable) Sim.store))
  = [90000; 70000; 60000].
Proof. reflexivity. Qed.

Lemma goto_short_timeout_is_raised_witness :
  nth_error
    (goto_timeouts
       (trace_of (goto (Sim.perform Sim.unreachable) "/#/login"
                       (mkNavOptions None (Some 30000) None) Sim.store))) 1
  = Some 60000.
Proof.
  apply (goto_short_timeout_is_raised Sim.State (Sim.perform Sim.unreachable)
           "/#/login" (mkNavOptions None (Some 30000) None) Sim.store
           Sim.navigation_timeout (Sim.mkState 1 EmptyString)).
  - apply sim_timers_fire.
  - vm_compute. discriminate.
  - reflexivity.
  - reflexivity.
  - vm_compute. reflexivity.
Defined.

Lemma unseen_element_is_left_alone_witness :
  outcome_of (fillInput (Sim.perform Sim.blank) Sim.a "hello" default_fill
                        Sim.store)
  = Throw (Js.new_Error
             "Element wait timeout: locator.waitFor: Timeout exceeded.")
  /\ click_outcomes
       (trace_of (clickElement (Sim.perform Sim.blank) Sim.a default_click
                               Sim.store)) = [].
Proof.
  destruct (unseen_element_is_left_alone Sim.State (Sim.perform Sim.blank)
              Sim.a "hello" default_fill default_click Sim.store
              Sim.timeout_error Sim.start Sim.timeout_error Sim.start
              eq_refl eq_refl) as [[H1 _] [_ [H2 _]]].
  split; [exact H1|exact H2].
Defined.

Lemma clickElement_clicks_only_ready_witness :
  waitFor_states
    (before_click
       (trace_of (clickElement (Sim.perform (Sim.only Sim.a)) Sim.a
                               default_click Sim.store)))
  = [(Sim.a, "visible", true); (Sim.a, "attached", true)]
  /\ enabled_checks
       (before_click
          (trace_of (clickElement (Sim.perform (Sim.only Sim.a)) Sim.a
                                  default_click Sim.store)))
     = [Ok true].
Proof.
  apply (clickElement_clicks_only_ready Sim.State
           (Sim.perform (Sim.only Sim.a)) Sim.a default_click Sim.store).
  vm_compute. discriminate.
Defined.

Lemma resolved_password_field_is_password_witness :
  (In Sim.b [Sim.a; Sim.b]
   /\ In Sim.b
        (password_evidence
           (trace_of
              (resolvePasswordField
                 (SimLogin.perform SimLogin.login_url (Sim.locator_eqb Sim.b)
                                   (SimLogin.both Sim.a Sim.b))
                 [Sim.a; Sim.b] Sim.store))))
  \/ Sim.b = first (page_locator ("input[type=" ++ Js.q "password" ++ "]")%string)
  \/ exists frame,
       Sim.b = first (frame_locator frame
                        ("input[type=" ++ Js.q "password" ++ "]")%string).
Proof.
  apply (resolved_password_field_is_password Sim.State
           (SimLogin.perform SimLogin.login_url (Sim.locator_eqb Sim.b)
                             (SimLogin.both Sim.a Sim.b))
           [Sim.a; Sim.b] Sim.store Sim.b).
  vm_compute. reflexivity.
Defined.

Lemma form_screenshot_only_on_failure_witness :
  outcome_of (fillFormCreationForm_over (Sim.perform Sim.blank)
                nameInputSelectors "Survey" None Sim.store)
  = Throw form_name_not_found.
Proof.
  apply (form_screenshot_only_on_failure Sim.State (Sim.perform Sim.blank)
           nameInputSelectors "Survey" None Sim.store).
  vm_compute. discriminate.
Defined.

Lemma form_remembers_the_name_input_witness :
  formNameInput
    (store_of (fillFormCreationForm_over (Sim.perform (Sim.only Sim.b))
                 (fun _ => [Sim.a; Sim.b]) "Survey" None Sim.store))
  = Sim.b
  /\ formNameInput
       (store_of (fillFormCreationForm_over (Sim.perform Sim.blank)
                    (fun _ => [Sim.a; Sim.b]) "Survey" None Sim.store))
     = formNameInput Sim.store.
Proof.
  split.
  - apply (proj1 (form_remembers_the_name_input Sim.State
                    (Sim.perform (Sim.only Sim.b))
                    (fun _ => [Sim.a; Sim.b]) "Survey" None Sim.store)).
    vm_compute. right. left. reflexivity.
  - apply (proj2 (form_remembers_the_name_input Sim.State
                    (Sim.perform Sim.blank)
                    (fun _ => [Sim.a; Sim.b]) "Survey" None Sim.store)).
    intros c H. vm_compute in H.
    destruct H as [H|[H|[]]]; discriminate H.
Defined.

Lemma enterTextInTextbox_may_skip_witness :
  read_backs
    (trace_of (enterTextInTextbox (Sim.perform (Sim.only textboxElement))
                                  "hello" Sim.store)) = [Ok "hello"]
  \/ (count is_typing
        (trace_of (enterTextInTextbox (Sim.perform (Sim.only textboxElement))
                                      "hello" Sim.store)) = 0%nat
      /\ In (textboxValueInput, false)
            (waitFor_results
               (trace_of (enterTextInTextbox
                            (Sim.perform (Sim.only textboxElement))
                            "hello" Sim.store)))).
Proof.
  apply (enterTextInTextbox_may_skip Sim.State
           (Sim.perform (Sim.only textboxElement)) "hello" Sim.store).
  vm_compute. reflexivity.
Defined.

(** With the palette entry visible and the value input not, the text is
    dropped and the method still returns; with both visible it is typed. *)
Example text_for_a_hidden_value_input_is_dropped :
  (let r := enterTextInTextbox (Sim.perform (Sim.only textboxElement))
                               "hello" Sim.store in
   outcome_of r = Ok tt /\ count is_typing (trace_of r) = 0%nat)
  /\ (let r := enterTextInTextbox
                 (Sim.perform (SimLogin.both textboxElement textboxValueInput))
                 "hello" Sim.store in
      outcome_of r = Ok tt /\ read_backs (trace_of r) = [Ok "hello"]).
Proof. vm_compute. repeat split. Qed.

Lemma isLoggedIn_needs_a_changed_url_witness :
  exists url,
    In (Ok url)
       (url_results
          (trace_of
             (isLoggedIn_over
                (SimLogin.perform SimLogin.home_url (fun _ => false)
                                  (Sim.only Sim.a))
                SimLogin.textContent [Sim.a] Sim.store)))
    /\ on_login_page url = false.
Proof.
  apply (isLoggedIn_needs_a_changed_url Sim.State
           (SimLogin.perform SimLogin.home_url (fun _ => false)
                             (Sim.only Sim.a))
           SimLogin.textContent [Sim.a] Sim.store).
  vm_compute. reflexivity.
Defined.

(** On the login address [isLoggedIn] answers [false] even with a
    dashboard indicator on the page; away from it, with the indicator, it
    answers [true]. *)
Example login_address_overrides_the_indicators :
  outcome_of (isLoggedIn_over
                (SimLogin.perform SimLogin.login_url (fun _ => false)
                                  (Sim.only Sim.a))
                SimLogin.textContent [Sim.a] Sim.store) = Ok false
  /\ outcome_of (isLoggedIn_over
                   (SimLogin.perform SimLogin.home_url (fun _ => false)
                                     (Sim.only Sim.a))
                   SimLogin.textContent [Sim.a] Sim.store) = Ok true.
Proof. vm_compute. split; reflexivity. Qed.

Lemma login_returns_after_both_read_backs_witness :
  read_backs
    (trace_of
       (login (SimLogin.perform SimLogin.login_url
                 (Sim.locator_eqb passwordInput)
                 (SimLogin.both usernameInput passwordInput))
              "user@example.test" "secret" Sim.store))
  = [Ok "user@example.test"; Ok "secret"].
Proof.
  apply (login_returns_after_both_read_backs Sim.State
           (SimLogin.perform SimLogin.login_url
              (Sim.locator_eqb passwordInput)
              (SimLogin.both usernameInput passwordInput))
           usernameSelectors passwordSelectors loginButtonSelectors
           "user@example.test" "secret" Sim.store).
  vm_compute. reflexivity.
Defined.

(** Six error messages and how [goto] classifies them. *)
Example error_classification_samples :
  map isNetworkError
      [ Js.mkError "Error" "Navigation Timeout of 30000 ms";
        Js.mkError "Error" "net::ERR_NAME_NOT_RESOLVED";
        Js.mkError "TimeoutError" "gave up";
        Js.mkError "Error" "page.goto: Target closed";
        Js.mkError "Error" "Target crashed";
        Js.mkError "Error" "NET: down" ]
  = [true; true; true; true; false; false].
Proof. reflexivity. Qed.
